(** * Discussion-Processor: text utilities and the processing pipeline

    A shallow embedding of [tools.py] (TextProcessor, FileManager,
    ValidationTools, LoggingTools) and of [crew.py] (NewsGroupCrew).

    Conventions of the embedding.
    - A Python [str] is a [list ascii]; the development covers ASCII text.
      [str.isspace], the regex classes [\s] and [\d] and [str.upper] are the
      ASCII restrictions of the Python ones.
    - [re] patterns are values of [regex], run by a backtracking matcher with
      the priorities of Python's engine (greedy repetition, left alternative
      first, leftmost match for [re.search] and [re.sub]).
    - [int(...)] of a digit string is a natural number ([N]) when the
      string has at most 4300 digits; on a longer one it raises ValueError,
      as CPython does under its default limit for the conversion, which
      the program never changes.
    - Calls that leave the program (agents, tasks, the crew, the file
      system, the clock, the process environment) are answered by a record
      of externals; each may return or raise.  Console output ([print]) is
      not part of the state. *)

From Stdlib Require Import List Ascii Bool Arith NArith Lia.
From Stdlib Require String DecimalString DecimalPos DecimalN.
Import ListNotations.
Import String.StringSyntax.

Delimit Scope string_scope with string.

Set Warnings "-register-all".

Local Open Scope char_scope.
Local Open Scope list_scope.

(** ** Strings *)

Definition str := list ascii.

Notation "$ s" := (String.list_ascii_of_string s%string) (at level 1, format "$ s").

Definition ascii_in (lo hi : nat) (c : ascii) : bool :=
  Nat.leb lo (nat_of_ascii c) && Nat.leb (nat_of_ascii c) hi.

(** [str.isspace] on one ASCII character: TAB, LF, VT, FF, CR, the four
    separators FS, GS, RS, US, and the space. *)
Definition is_space (c : ascii) : bool :=
  ascii_in 9 13 c || ascii_in 28 32 c.

(** [\d] on one ASCII character. *)
Definition is_digit (c : ascii) : bool := ascii_in 48 57 c.

Definition newline : ascii := ascii_of_nat 10.

(** [s.lstrip(chars)], [s.rstrip(chars)], [s.strip(chars)], with the set of
    characters given as a predicate. *)
Fixpoint lstrip_by (p : ascii -> bool) (s : str) : str :=
  match s with
  | c :: s' => if p c then lstrip_by p s' else s
  | [] => []
  end.

Definition rstrip_by (p : ascii -> bool) (s : str) : str :=
  rev (lstrip_by p (rev s)).

Definition strip_by (p : ascii -> bool) (s : str) : str :=
  rstrip_by p (lstrip_by p s).

(** [s.strip()] *)
Definition strip (s : str) : str := strip_by is_space s.

(** [s.split(sep)] for a one-character separator: never the empty list. *)
Fixpoint split (sep : ascii) (s : str) : list str :=
  match s with
  | [] => [[]]
  | c :: s' =>
      if Ascii.eqb c sep then [] :: split sep s'
      else match split sep s' with
           | l :: ls => (c :: l) :: ls
           | [] => [[c]]
           end
  end.

(** [sep.join(parts)] *)
Fixpoint join (sep : str) (parts : list str) : str :=
  match parts with
  | [] => []
  | [p] => p
  | p :: ps => p ++ sep ++ join sep ps
  end.

(** [needle in s] *)
Fixpoint starts_with (needle s : str) : bool :=
  match needle, s with
  | [], _ => true
  | _ :: _, [] => false
  | a :: n', b :: s' => Ascii.eqb a b && starts_with n' s'
  end.

Fixpoint contains (needle s : str) : bool :=
  starts_with needle s ||
  match s with
  | [] => false
  | _ :: s' => contains needle s'
  end.

(** [s.upper()] *)
Definition upper_char (c : ascii) : ascii :=
  if ascii_in 97 122 c then ascii_of_nat (nat_of_ascii c - 32) else c.

Definition upper (s : str) : str := map upper_char s.

(** [str(n)] for a natural number. *)
Definition str_of_N (n : N) : str :=
  String.list_ascii_of_string (DecimalString.NilEmpty.string_of_uint (N.to_uint n)).

Definition str_of_nat (n : nat) : str :=
  String.list_ascii_of_string (DecimalString.NilEmpty.string_of_uint (Nat.to_uint n)).

(** What a call can do: return a value, or raise an exception that carries
    a message ([str(e)]). *)
Inductive outcome (A : Type) : Type :=
| Returned (a : A)
| Raised (msg : str).

Arguments Returned {A} a.
Arguments Raised {A} msg.

Definition outcome_map {A B} (f : A -> B) (o : outcome A) : outcome B :=
  match o with
  | Returned a => Returned (f a)
  | Raised e => Raised e
  end.

(** The number a string of decimal digits denotes. *)
Definition digit_val (c : ascii) : N := N.of_nat (nat_of_ascii c - 48).

Definition digits_value (s : str) : N :=
  fold_left (fun acc c => (10 * acc + digit_val c)%N) s 0%N.

(** [sys.get_int_max_str_digits()], which the program leaves at its
    default. *)
Definition int_max_str_digits : nat := 4300.

(** [int(s)] for a string of decimal digits.  The conversion counts the
    digits, leading zeros included, and raises ValueError when there are
    more than the limit allows. *)
Definition int_of_digits (s : str) : outcome N :=
  if Nat.ltb int_max_str_digits (length s) then
    Raised ($"Exceeds the limit (" ++ str_of_nat int_max_str_digits
            ++ $" digits) for integer string conversion: value has "
            ++ str_of_nat (length s)
            ++ $" digits; use sys.set_int_max_str_digits() to increase the limit")
  else Returned (digits_value s).

(** ** Regular expressions *)

Inductive regex : Type :=
| Lit (c : ascii)                 (* one literal character *)
| Class (p : ascii -> bool)       (* [...] or \d, \s *)
| Cat (r1 r2 : regex)             (* r1 r2 *)
| Alt (r1 r2 : regex)             (* r1|r2 *)
| StarC (p : ascii -> bool)       (* C*, greedy, C a one-character class *)
| PlusC (p : ascii -> bool)       (* C+, greedy *)
| Group (r : regex)               (* ( r ), capturing *)
| Bol                             (* ^ *)
| Eol.                            (* $ *)

(** Greedy repetition of a class: the longest run first, then shorter ones. *)
Fixpoint star_c {R : Type} (p : ascii -> bool) (i : nat) (s : str)
    (k : nat -> str -> option R) : option R :=
  match s with
  | c :: s' =>
      if p c then
        match star_c p (S i) s' k with
        | Some x => Some x
        | None => k i s
        end
      else k i s
  | [] => k i []
  end.

(** [rmatch r i s caps k]: match [r] at offset [i], where [s] is the text
    from [i] on; on success hand the new offset, the rest of the text and
    the captured groups to [k]; a [None] from [k] makes the matcher
    backtrack. *)
Fixpoint rmatch {R : Type} (r : regex) (i : nat) (s : str) (caps : list str)
    (k : nat -> str -> list str -> option R) : option R :=
  match r with
  | Lit c =>
      match s with
      | d :: s' => if Ascii.eqb d c then k (S i) s' caps else None
      | [] => None
      end
  | Class p =>
      match s with
      | d :: s' => if p d then k (S i) s' caps else None
      | [] => None
      end
  | Cat r1 r2 => rmatch r1 i s caps (fun i' s' caps' => rmatch r2 i' s' caps' k)
  | Alt r1 r2 =>
      match rmatch r1 i s caps k with
      | Some x => Some x
      | None => rmatch r2 i s caps k
      end
  | StarC p => star_c p i s (fun i' s' => k i' s' caps)
  | PlusC p =>
      match s with
      | d :: s' => if p d then star_c p (S i) s' (fun i' s' => k i' s' caps) else None
      | [] => None
      end
  | Group r1 =>
      rmatch r1 i s caps (fun i' s' caps' => k i' s' (caps' ++ [firstn (i' - i) s]))
  | Bol => if Nat.eqb i 0 then k i s caps else None
  | Eol =>
      match s with
      | [] => k i s caps
      | [c] => if Ascii.eqb c newline then k i s caps else None
      | _ => None
      end
  end.

(** A match: the offset where it ends and its groups. *)
Definition match_at (r : regex) (i : nat) (s : str) : option (nat * list str) :=
  rmatch r i s [] (fun i' _ caps => Some (i', caps)).

(** [re.match(r, s)] *)
Definition re_match (r : regex) (s : str) : option (nat * list str) :=
  match_at r 0 s.

(** [re.search(r, s)]: the leftmost offset with a match. *)
Fixpoint search_from (r : regex) (i : nat) (s : str) : option (nat * list str) :=
  match match_at r i s with
  | Some m => Some m
  | None =>
      match s with
      | [] => None
      | _ :: s' => search_from r (S i) s'
      end
  end.

Definition re_search (r : regex) (s : str) : option (nat * list str) :=
  search_from r 0 s.

(** [m.group(1)] *)
Definition group1 (m : nat * list str) : str := hd [] (snd m).

(** [re.sub(r, repl, s)] for a pattern that matches no empty string (all
    patterns below): scan left to right, replace each match, go on after
    it.  [skip] counts the characters of the current match still to pass. *)
Fixpoint sub_from (r : regex) (repl : str) (skip i : nat) (s : str) : str :=
  match s with
  | [] => []
  | c :: s' =>
      match skip with
      | S n => sub_from r repl n (S i) s'
      | 0 =>
          match match_at r i s with
          | Some (j, _) =>
              if Nat.ltb i j then repl ++ sub_from r repl (j - i - 1) (S i) s'
              else c :: sub_from r repl 0 (S i) s'
          | None => c :: sub_from r repl 0 (S i) s'
          end
      end
  end.

Definition re_sub (r : regex) (repl : str) (s : str) : str :=
  sub_from r repl 0 0 s.

(** ** TextProcessor *)

Definition is_char (c : ascii) : ascii -> bool := Ascii.eqb c.
Definition not_char (c : ascii) : ascii -> bool := fun d => negb (Ascii.eqb d c).

(** [\(o[^c]*\c] for a pair of delimiters, e.g. r"\([^)]*\)". *)
Definition re_delimited (o c : ascii) : regex :=
  Cat (Lit o) (Cat (StarC (not_char c)) (Lit c)).

(** r"\s+" *)
Definition re_spaces : regex := PlusC is_space.

(** r"\n\s*\n\s*\n+" *)
Definition re_blank_lines : regex :=
  Cat (Lit newline) (Cat (StarC is_space) (Cat (Lit newline)
    (Cat (StarC is_space) (PlusC (is_char newline))))).

Definition clean_dialogue (text : str) : str :=
  match text with
  | [] => []
  | _ =>
      let cleaned := re_sub (re_delimited "(" ")") [] text in
      let cleaned := re_sub (re_delimited "[" "]") [] cleaned in
      let cleaned := re_sub (re_delimited "{" "}") [] cleaned in
      let cleaned := re_sub re_spaces $" " cleaned in
      let cleaned := re_sub re_blank_lines [newline; newline] cleaned in
      let lines := map strip (split newline cleaned) in
      let cleaned :=
        join [newline] (filter (fun line => negb (Nat.eqb (length line) 0)) lines) in
      strip cleaned
  end.

(** r"^(\d+)$" *)
Definition re_standalone : regex := Cat Bol (Cat (Group (PlusC is_digit)) Eol).

(** r"(\d+)(?:/10|/\d+)" *)
Definition re_fraction : regex :=
  Cat (Group (PlusC is_digit))
      (Alt (Cat (Lit "/") (Cat (Lit "1") (Lit "0")))
           (Cat (Lit "/") (PlusC is_digit))).

(** r"(\d+)" *)
Definition re_number : regex := Group (PlusC is_digit).

(** [str(min(max(score, 1), 10))] *)
Definition clamp_str (score : N) : str :=
  str_of_N (N.min (N.max score 1) 10).

Definition extract_score (score_text : str) : outcome str :=
  match score_text with
  | [] => Returned $"0"
  | _ =>
      match split newline (strip score_text) with
      | [] => Returned $"0"
      | line0 :: _ =>
          let first_line := strip line0 in
          match re_match re_standalone first_line with
          | Some m => outcome_map clamp_str (int_of_digits (group1 m))
          | None =>
              match re_search re_fraction first_line with
              | Some m => outcome_map clamp_str (int_of_digits (group1 m))
              | None =>
                  match re_search re_number first_line with
                  | Some m => outcome_map clamp_str (int_of_digits (group1 m))
                  | None => Returned $"0"
                  end
              end
          end
      end
  end.

Definition validate_discussion_content (content : str) : bool :=
  match content with
  | [] => false
  | _ =>
      match strip content with
      | [] => false
      | _ =>
          if Nat.ltb (length (strip content)) 100 then false
          else
            let lines := split newline (strip content) in
            let non_empty_lines :=
              map strip (filter (fun line => negb (Nat.eqb (length (strip line)) 0)) lines) in
            if Nat.ltb (length non_empty_lines) 3 then false else true
      end
  end.

(** The character class of [sanitize_filename]: less-than, greater-than,
    colon, double quote, slash, backslash, bar, question mark, asterisk. *)
Definition is_invalid_char (c : ascii) : bool :=
  existsb (Ascii.eqb c)
    ["<"; ">"; ":"; ascii_of_nat 34; "/"; "\"; "|"; "?"; "*"].

Definition re_invalid : regex := Class is_invalid_char.

Definition is_dot_or_space (c : ascii) : bool :=
  Ascii.eqb c "." || Ascii.eqb c " ".

Definition sanitize_filename (filename : str) : str :=
  let sanitized := re_sub re_invalid $"_" filename in
  let sanitized := strip_by is_dot_or_space sanitized in
  match sanitized with
  | [] => $"output"
  | _ => sanitized
  end.

(** ** Values, results and the world outside *)

(** The values of a result dictionary ([Dict[str, Any]]). *)
Inductive value : Type :=
| VStr (s : str)
| VInt (n : nat)
| VBool (b : bool)
| VDict (d : list (str * value)).

Definition dict := list (str * value).

Definition str_eqb (a b : str) : bool :=
  if list_eq_dec ascii_dec a b then true else false.

(** [d.get(key)] and [key in d] *)
Fixpoint dict_get (key : str) (d : dict) : option value :=
  match d with
  | [] => None
  | (k, v) :: d' => if str_eqb k key then Some v else dict_get key d'
  end.

Definition dict_has (key : str) (d : dict) : bool :=
  match dict_get key d with Some _ => true | None => false end.

(** The calls that leave the program, with the arguments that matter. *)
Inductive call : Type :=
| CallSpamfilterAgent | CallSpamFilterTask | CallSpamExecute
| CallAnalystAgent | CallScriptwriterAgent | CallFormatterAgent
| CallAnalysisTask | CallScriptwritingTask | CallFormattingTask
| CallCrew | CallKickoff
| CallScorerAgent | CallScoringTask (dialogue : str) | CallScoreExecute (dialogue : str)
| CallMkdir (path : str)
| CallWrite (path content : str).

(** The answers of the outside world during one run. *)
Record externals : Type := {
  getenv_GOOGLE_API_KEY : option str;
  cwd : str;
  answer : call -> outcome unit;        (* calls without a result *)
  spam_result : outcome str;            (* str(spam_task.execute()) *)
  kickoff_result : outcome (option str);(* crew.kickoff(): None, or str(result) *)
  score_result : str -> outcome str;    (* str(scoring_task.execute()) *)
  now_stamp : str;                      (* strftime("%Y%m%d_%H%M%S") *)
  now_header : str                      (* strftime("%Y-%m-%d %H:%M:%S") *)
}.

(** The state a run changes: the class-level log buffer, the files
    written (latest first) and the calls made (in order). *)
Record state : Type := {
  log_buffer : list str;
  files : list (str * str);
  calls : list call
}.

Definition M (A : Type) : Type := state -> outcome A * state.

Definition ret {A} (a : A) : M A := fun st => (Returned a, st).

Definition bind {A B} (m : M A) (f : A -> M B) : M B :=
  fun st =>
    match m st with
    | (Returned a, st') => f a st'
    | (Raised e, st') => (Raised e, st')
    end.

(** [try: m except Exception as e: h e] *)
Definition try_except {A} (m : M A) (h : str -> M A) : M A :=
  fun st =>
    match m st with
    | (Returned a, st') => (Returned a, st')
    | (Raised e, st') => h e st'
    end.

Notation "x <- m ;; k" := (bind m (fun x => k))
  (at level 61, m at next level, right associativity).
Notation "m ;;; k" := (bind m (fun _ => k))
  (at level 61, right associativity).

Definition record_call (c : call) : M unit :=
  fun st => (Returned tt,
             {| log_buffer := log_buffer st; files := files st;
                calls := calls st ++ [c] |}).

Definition lift {A} (o : outcome A) : M A := fun st => (o, st).

(** A call without a result: recorded, then answered. *)
Definition perform (w : externals) (c : call) : M unit :=
  record_call c ;;; lift (answer w c).

(** [with open(path, "w") as file: file.write(content)] *)
Definition write_file (w : externals) (path content : str) : M unit :=
  perform w (CallWrite path content) ;;;
  fun st => (Returned tt,
             {| log_buffer := log_buffer st;
                files := (path, content) :: files st;
                calls := calls st |}).

Definition append_log (entry : str) : M unit :=
  fun st => (Returned tt,
             {| log_buffer := log_buffer st ++ [entry]; files := files st;
                calls := calls st |}).

Definition get_log_buffer : M (list str) := fun st => (Returned (log_buffer st), st).

(** ** LoggingTools *)

Definition is_empty (s : str) : bool := Nat.eqb (length s) 0.

(** The cross mark U+274C, as the bytes of its UTF-8 encoding. *)
Definition cross_mark : str :=
  [ascii_of_nat 226; ascii_of_nat 157; ascii_of_nat 140].

Definition log_step (step_name message : str) : M unit :=
  let separator := repeat "="%char 60 in
  let log_entry := [newline] ++ separator ++ [newline] ++ $"STEP: " ++ step_name ++ [newline] in
  let log_entry :=
    if is_empty message then log_entry
    else log_entry ++ $"INFO: " ++ message ++ [newline] in
  let log_entry := log_entry ++ separator in
  append_log log_entry.

Definition log_result (title content : str) (max_preview : nat) : M unit :=
  let log_entry := [newline] ++ $"--- " ++ title ++ $" ---" ++ [newline] in
  let log_entry :=
    if is_empty content then log_entry ++ $"No content" ++ [newline]
    else
      let preview :=
        if Nat.ltb max_preview (length content)
        then firstn max_preview content ++ $"..."
        else content in
      log_entry ++ preview ++ [newline] in
  let log_entry := log_entry ++ $"--- End " ++ title ++ $" ---" ++ [newline] in
  append_log log_entry.

Definition log_error (error_msg context : str) : M unit :=
  let log_entry := [newline] ++ cross_mark ++ $" ERROR" in
  let log_entry :=
    if is_empty context then log_entry else log_entry ++ $" in " ++ context in
  let log_entry := log_entry ++ $": " ++ error_msg ++ [newline] in
  append_log log_entry.

Definition get_full_log : M str :=
  buf <- get_log_buffer ;; ret (join [newline] buf).

Definition clear_log : M unit :=
  fun st => (Returned tt,
             {| log_buffer := []; files := files st; calls := calls st |}).

(** ** FileManager *)

Definition output_dir (w : externals) : str := cwd w ++ $"/output".
Definition logs_dir (w : externals) : str := cwd w ++ $"/logs".

(** [dir / name] for a name without separators. *)
Definition path_join (dir name : str) : str := dir ++ $"/" ++ name.

Definition ensure_directories (w : externals) : M unit :=
  try_except
    (perform w (CallMkdir (output_dir w)) ;;;
     perform w (CallMkdir (logs_dir w)))
    (fun _ => ret tt).

Definition save_result (w : externals) (content filename : str) : M bool :=
  if is_empty content then ret false
  else
    ensure_directories w ;;;
    let safe_filename := sanitize_filename filename in
    let output_path := path_join (output_dir w) safe_filename in
    try_except
      (write_file w output_path content ;;; ret true)
      (fun _ => ret false).

Definition save_log (w : externals) (log_content log_name : str) : M bool :=
  ensure_directories w ;;;
  let timestamp := now_stamp w in
  let log_filename :=
    (if is_empty log_name then $"process_log" else log_name)
      ++ $"_" ++ timestamp ++ $".txt" in
  let log_path := path_join (logs_dir w) log_filename in
  try_except
    (write_file w log_path
       ($"Process Log - " ++ now_header w ++ [newline]
        ++ repeat "="%char 60 ++ [newline; newline] ++ log_content) ;;;
     ret true)
    (fun _ => ret false).

Definition save_log_to_file (w : externals) : M bool :=
  buf <- get_log_buffer ;;
  match buf with
  | [] => ret false
  | _ => full_log <- get_full_log ;; save_log w full_log $"newsgroup_processing"
  end.

(** ** ValidationTools *)

Definition validate_environment (w : externals) : bool :=
  match getenv_GOOGLE_API_KEY w with
  | None => false
  | Some key => negb (is_empty key)
  end.

Definition validate_agent_response (response : str) : bool :=
  if is_empty response || is_empty (strip response) then false
  else if Nat.ltb (length (strip response)) 10 then false
  else true.

Definition validate_crew_result (result : option str) : bool :=
  match result with
  | None => false
  | Some r => negb (is_empty (strip r))
  end.

(** ** Python's [str()] of the values used in results *)

Definition hex_digit (n : nat) : ascii :=
  if Nat.ltb n 10 then ascii_of_nat (48 + n) else ascii_of_nat (87 + n).

(** One character inside [repr(s)], [q] being the enclosing quote. *)
Definition repr_char (q c : ascii) : str :=
  let n := nat_of_ascii c in
  if Ascii.eqb c "\" then $"\\"
  else if Ascii.eqb c q then ["\"; q]
  else if Nat.eqb n 10 then $"\n"
  else if Nat.eqb n 13 then $"\r"
  else if Nat.eqb n 9 then $"\t"
  else if Nat.ltb n 32 || Nat.eqb n 127
       then $"\x" ++ [hex_digit (n / 16); hex_digit (n mod 16)]
  else [c].

(** [repr(s)]: single quotes, unless the text has a single quote and no
    double quote. *)
Definition repr_str (s : str) : str :=
  let dq := ascii_of_nat 34 in
  let q := if existsb (Ascii.eqb "'") s && negb (existsb (Ascii.eqb dq) s)
           then dq else "'" in
  [q] ++ flat_map (repr_char q) s ++ [q].

Fixpoint repr_value (v : value) : str :=
  match v with
  | VStr s => repr_str s
  | VInt n => str_of_nat n
  | VBool b => if b then $"True" else $"False"
  | VDict d =>
      $"{" ++ join $", "
                (map (fun kv => let '(k, v') := kv in
                                repr_str k ++ $": " ++ repr_value v') d)
           ++ $"}"
  end.

(** [str(result)] of a result dictionary. *)
Definition str_of_dict (d : dict) : str := repr_value (VDict d).

(** ** NewsGroupCrew *)

Definition run_spam_filter (w : externals) : M bool :=
  log_step $"SPAM FILTER" $"Checking for spam and inappropriate content" ;;;
  try_except
    (perform w CallSpamfilterAgent ;;;
     perform w CallSpamFilterTask ;;;
     log_step $"SPAM FILTER EXECUTION" $"Running spam filter analysis" ;;;
     record_call CallSpamExecute ;;;
     result <- lift (spam_result w) ;;
     if negb (validate_agent_response result) then
       log_error $"Spam filter returned invalid response" $"Spam Filter" ;;;
       ret false
     else
       let result_str := upper result in
       log_result $"Spam Filter Result" result 200 ;;;
       if contains $"STOP" result_str then
         log_step $"SPAM FILTER RESULT" $"Content REJECTED - flagged as inappropriate" ;;;
         ret false
       else
         log_step $"SPAM FILTER RESULT" $"Content APPROVED - safe to process" ;;;
         ret true)
    (fun e =>
       log_error ($"Error in spam filter: " ++ e) $"Spam Filter" ;;;
       ret false).

Definition run_dialogue_transformation (w : externals) : M (option str) :=
  log_step $"DIALOGUE TRANSFORMATION" $"Starting crew processing pipeline" ;;;
  try_except
    (log_step $"AGENT CREATION" $"Initializing transformation agents" ;;;
     perform w CallAnalystAgent ;;;
     perform w CallScriptwriterAgent ;;;
     perform w CallFormatterAgent ;;;
     log_step $"TASK CREATION" $"Setting up transformation tasks" ;;;
     perform w CallAnalysisTask ;;;
     perform w CallScriptwritingTask ;;;
     perform w CallFormattingTask ;;;
     log_step $"CREW EXECUTION" $"Running sequential processing crew" ;;;
     perform w CallCrew ;;;
     record_call CallKickoff ;;;
     result <- lift (kickoff_result w) ;;
     if negb (validate_crew_result result) then
       log_error $"Crew returned invalid result" $"Dialogue Transformation" ;;;
       ret None
     else
       log_step $"RESULT CLEANING" $"Cleaning and formatting final output" ;;;
       let cleaned_result :=
         clean_dialogue (match result with Some r => r | None => $"None" end) in
       if is_empty (strip cleaned_result) then
         log_error $"Cleaned result is empty" $"Dialogue Transformation" ;;;
         ret None
       else
         log_result $"Dialogue Transformation Result" cleaned_result 200 ;;;
         ret (Some cleaned_result))
    (fun e =>
       log_error ($"Error in dialogue transformation: " ++ e) $"Dialogue Transformation" ;;;
       ret None).

Definition score_dialogue (w : externals) (dialogue_result : str) : M str :=
  log_step $"SCORING" $"Evaluating dialogue quality" ;;;
  if is_empty dialogue_result || is_empty (strip dialogue_result) then
    log_error $"Cannot score empty dialogue" $"Scoring" ;;;
    ret $"0"
  else
    try_except
      (perform w CallScorerAgent ;;;
       perform w (CallScoringTask dialogue_result) ;;;
       log_step $"SCORE EXECUTION" $"Running quality assessment" ;;;
       record_call (CallScoreExecute dialogue_result) ;;;
       score_result <- lift (score_result w dialogue_result) ;;
       if negb (validate_agent_response score_result) then
         log_error $"Scorer returned invalid response" $"Scoring" ;;;
         ret $"0"
       else
         score <- lift (extract_score score_result) ;;
         log_result $"Scoring Result"
           ($"Score: " ++ score ++ $"/10" ++ [newline] ++ $"Details: " ++ score_result) 200 ;;;
         ret score)
      (fun e =>
         log_error ($"Error in scoring: " ++ e) $"Scoring" ;;;
         ret $"0").

(** [{"error": error_msg}] *)
Definition error_result (error_msg : str) : dict := [($"error", VStr error_msg)].

Definition filtered_result : dict :=
  [($"status", VStr $"filtered");
   ($"message", VStr $"Content was filtered out by spam filter")].

Definition success_result (discussion_content dialogue_result score : str)
    (save_output : bool) : dict :=
  [($"status", VStr $"success");
   ($"dialogue", VStr dialogue_result);
   ($"score", VStr score);
   ($"message", VStr ($"Successfully processed discussion with score: " ++ score ++ $"/10"));
   ($"stats", VDict [($"original_length", VInt (length discussion_content));
                     ($"processed_length", VInt (length dialogue_result));
                     ($"files_saved", VBool save_output)])].

Definition when (b : bool) (m : M unit) : M unit := if b then m else ret tt.

Definition process_discussion (w : externals) (discussion_content : str)
    (save_output save_logs : bool) : M dict :=
  clear_log ;;;
  log_step $"PIPELINE START" $"Beginning complete discussion processing" ;;;
  log_step $"ENVIRONMENT CHECK" $"Validating system requirements" ;;;
  if negb (validate_environment w) then
    let error_msg := $"Environment validation failed - check API keys" in
    log_error error_msg $"Environment" ;;;
    ret (error_result error_msg)
  else
    log_step $"CONTENT VALIDATION" $"Checking discussion content quality" ;;;
    if negb (validate_discussion_content discussion_content) then
      let error_msg := $"Invalid or insufficient discussion content (minimum 100 characters, meaningful content required)" in
      log_error error_msg $"Content Validation" ;;;
      ret (error_result error_msg)
    else
      log_result $"Input Discussion Content" discussion_content 300 ;;;
      try_except
        (log_step $"STEP 1" $"Spam and content filtering" ;;;
         passed <- run_spam_filter w ;;
         if negb passed then
           let result := filtered_result in
           log_result $"Final Result" (str_of_dict result) 200 ;;;
           when save_logs (save_log_to_file w ;;; ret tt) ;;;
           ret result
         else
           log_step $"STEP 2" $"Discussion to dialogue transformation" ;;;
           dialogue_result <- run_dialogue_transformation w ;;
           match dialogue_result with
           | None | Some [] =>
               let error_msg := $"Dialogue transformation failed - no output generated" in
               log_error error_msg $"Processing Pipeline" ;;;
               when save_logs (save_log_to_file w ;;; ret tt) ;;;
               ret (error_result error_msg)
           | Some dialogue_result =>
               log_step $"STEP 3" $"Quality assessment and scoring" ;;;
               score <- score_dialogue w dialogue_result ;;
               when save_output
                 (log_step $"FILE OPERATIONS" $"Saving results to files" ;;;
                  dialogue_saved <- save_result w dialogue_result $"dialogue_output.txt" ;;
                  buf <- get_log_buffer ;;
                  let score_content :=
                    $"Dialogue Quality Score: " ++ score ++ $"/10" ++ [newline; newline]
                    ++ $"Generated on: " ++ hd $"Unknown" buf ++ [newline; newline]
                    ++ $"DIALOGUE CONTENT:" ++ [newline]
                    ++ repeat "="%char 50 ++ [newline]
                    ++ dialogue_result in
                  score_saved <- save_result w score_content $"dialogue_score.txt" ;;
                  when (negb (dialogue_saved && score_saved))
                    (log_error $"Some files failed to save" $"File Operations")) ;;;
               when save_logs (save_log_to_file w ;;; ret tt) ;;;
               let result := success_result discussion_content dialogue_result score save_output in
               log_step $"PIPELINE COMPLETE" ($"Processing successful - Score: " ++ score ++ $"/10") ;;;
               log_result $"Final Result" (str_of_dict result) 200 ;;;
               ret result
           end)
        (fun e =>
           let error_msg := $"Error during processing pipeline: " ++ e in
           log_error error_msg $"Processing Pipeline" ;;;
           when save_logs (save_log_to_file w ;;; ret tt) ;;;
           ret (error_result error_msg)).

(** The state at the start of a process. *)
Definition initial_state : state := {| log_buffer := []; files := []; calls := [] |}.

(** ** Vocabulary of the properties *)

(** The text has [needle] (given in upper case) as a substring, each letter
    in either case. *)
Definition lower_char (c : ascii) : ascii :=
  if ascii_in 65 90 c then ascii_of_nat (nat_of_ascii c + 32) else c.

Definition any_case (c d : ascii) : bool :=
  Ascii.eqb d c || Ascii.eqb d (lower_char c).

Fixpoint starts_with_any_case (needle s : str) : bool :=
  match needle, s with
  | [], _ => true
  | _ :: _, [] => false
  | a :: n', b :: s' => any_case a b && starts_with_any_case n' s'
  end.

Fixpoint contains_any_case (needle s : str) : bool :=
  starts_with_any_case needle s ||
  match s with
  | [] => false
  | _ :: s' => contains_any_case needle s'
  end.

(** The stages of a run, by the calls they make. *)
Definition is_spam_call (c : call) : bool :=
  match c with
  | CallSpamfilterAgent | CallSpamFilterTask | CallSpamExecute => true
  | _ => false
  end.

Definition is_transformation_call (c : call) : bool :=
  match c with
  | CallAnalystAgent | CallScriptwriterAgent | CallFormatterAgent
  | CallAnalysisTask | CallScriptwritingTask | CallFormattingTask
  | CallCrew | CallKickoff => true
  | _ => false
  end.

Definition is_scoring_call (c : call) : bool :=
  match c with
  | CallScorerAgent | CallScoringTask _ | CallScoreExecute _ => true
  | _ => false
  end.

Definition is_mkdir (c : call) : bool :=
  match c with CallMkdir _ => true | _ => false end.

(** A write of a file directly inside [dir]. *)
Definition is_write_in (dir : str) (c : call) : bool :=
  match c with
  | CallWrite path _ => starts_with (dir ++ $"/") path
  | _ => false
  end.

(** The name [save_log] gives to the log file of a run. *)
Definition log_path (w : externals) : str :=
  path_join (logs_dir w) ($"newsgroup_processing_" ++ now_stamp w ++ $".txt").

Definition is_log_write (w : externals) (c : call) : bool :=
  match c with
  | CallWrite path _ => str_eqb path (log_path w)
  | _ => false
  end.

(** What a computation does from a state: its outcome and final state
    satisfy [Q]. *)
Definition post {A} (m : M A) (st : state) (Q : outcome A -> state -> Prop) : Prop :=
  Q (fst (m st)) (snd (m st)).

Definition add_log (entry : str) (st : state) : state :=
  {| log_buffer := log_buffer st ++ [entry]; files := files st; calls := calls st |}.

Definition add_call (c : call) (st : state) : state :=
  {| log_buffer := log_buffer st; files := files st; calls := calls st ++ [c] |}.

Definition add_file (path content : str) (st : state) : state :=
  {| log_buffer := log_buffer st; files := (path, content) :: files st; calls := calls st |}.

(** A step from [st] to [st'] that only appends log entries, only makes
    calls satisfying [P], and only adds files whose write is among those
    calls. *)
Definition grows (P : call -> bool) (st st' : state) : Prop :=
  (exists es, log_buffer st' = log_buffer st ++ es) /\
  exists cs, calls st' = calls st ++ cs /\ forallb P cs = true /\
  exists fs, files st' = fs ++ files st /\
             forall p c, In (p, c) fs -> In (CallWrite p c) cs.

(** [clear_log] as a function on states. *)
Definition cleared (st : state) : state :=
  {| log_buffer := []; files := files st; calls := calls st |}.

(** The text [save_log] writes for a log buffer. *)
Definition log_file_content (w : externals) (buf : list str) : str :=
  $"Process Log - " ++ now_header w ++ [newline]
  ++ repeat "="%char 60 ++ [newline; newline] ++ join [newline] buf.

(** What the spam filter stage decides: the value of [run_spam_filter]. *)
Definition spam_verdict (w : externals) : bool :=
  match answer w CallSpamfilterAgent, answer w CallSpamFilterTask, spam_result w with
  | Returned _, Returned _, Returned r =>
      validate_agent_response r && negb (contains $"STOP" (upper r))
  | _, _, _ => false
  end.

Definition returns (o : outcome unit) : bool :=
  match o with Returned _ => true | Raised _ => false end.

(** What the transformation stage yields: the value of
    [run_dialogue_transformation]. *)
Definition transformation_value (w : externals) : option str :=
  if forallb (fun c => returns (answer w c))
       [CallAnalystAgent; CallScriptwriterAgent; CallFormatterAgent;
        CallAnalysisTask; CallScriptwritingTask; CallFormattingTask; CallCrew]
  then
    match kickoff_result w with
    | Returned result =>
        if validate_crew_result result then
          let cleaned := clean_dialogue (match result with Some r => r | None => $"None" end) in
          if is_empty (strip cleaned) then None else Some cleaned
        else None
    | Raised _ => None
    end
  else None.

(** What the scoring stage yields: the value of [score_dialogue].  An
    exception of the extractor is caught like any other of the stage. *)
Definition score_value (w : externals) (d : str) : str :=
  if is_empty d || is_empty (strip d) then $"0"
  else
    match answer w CallScorerAgent, answer w (CallScoringTask d), score_result w d with
    | Returned _, Returned _, Returned r =>
        if validate_agent_response r then
          match extract_score r with
          | Returned score => score
          | Raised _ => $"0"
          end
        else $"0"
    | _, _, _ => $"0"
    end.

(** The result of a run, as a function of the answers of the world. *)
Definition pipeline_result (w : externals) (content : str) (save_output : bool) : dict :=
  if negb (validate_environment w) then
    error_result $"Environment validation failed - check API keys"
  else if negb (validate_discussion_content content) then
    error_result $"Invalid or insufficient discussion content (minimum 100 characters, meaningful content required)"
  else if negb (spam_verdict w) then filtered_result
  else
    match transformation_value w with
    | None | Some [] => error_result $"Dialogue transformation failed - no output generated"
    | Some d => success_result content d (score_value w d) save_output
    end.

Arguments post {A} m st Q : simpl never.

(** ** The log flush and the course of a run *)

(** The entry [log_step] appends. *)
Definition step_entry (step_name message : str) : str :=
  let separator := repeat "="%char 60 in
  let log_entry := [newline] ++ separator ++ [newline] ++ $"STEP: " ++ step_name ++ [newline] in
  let log_entry :=
    if is_empty message then log_entry
    else log_entry ++ $"INFO: " ++ message ++ [newline] in
  log_entry ++ separator.

(** The entry [log_result] appends. *)
Definition result_entry (title content : str) (max_preview : nat) : str :=
  let log_entry := [newline] ++ $"--- " ++ title ++ $" ---" ++ [newline] in
  let log_entry :=
    if is_empty content then log_entry ++ $"No content" ++ [newline]
    else
      let preview :=
        if Nat.ltb max_preview (length content)
        then firstn max_preview content ++ $"..."
        else content in
      log_entry ++ preview ++ [newline] in
  log_entry ++ $"--- End " ++ title ++ $" ---" ++ [newline].

(** The two entries that close the log of a successful run. *)
Definition closing_entries (content dialogue score : str) (save_output : bool)
    : list str :=
  [step_entry $"PIPELINE COMPLETE" ($"Processing successful - Score: " ++ score ++ $"/10");
   result_entry $"Final Result"
     (str_of_dict (success_result content dialogue score save_output)) 200].

(** A step that appends the entries [es] to the log and does nothing
    else. *)
Definition closed_by (es : list str) (st st' : state) : Prop :=
  log_buffer st' = log_buffer st ++ es /\
  calls st' = calls st /\ files st' = files st.

(** The log flush, from a state with a non-empty buffer: the directories
    are ensured, then the whole buffer is written to the log file; the file
    is there when the write returns. *)
Definition flush_step (w : externals) (st st' : state) : Prop :=
  log_buffer st' = log_buffer st /\
  exists mk, forallb is_mkdir mk = true /\
    let content := log_file_content w (log_buffer st) in
    calls st' = calls st ++ mk ++ [CallWrite (log_path w) content] /\
    match answer w (CallWrite (log_path w) content) with
    | Returned _ => files st' = (log_path w, content) :: files st
    | Raised _ => files st' = files st
    end.

(** The log flush of a run, when asked for. *)
Definition flush_if (save_logs : bool) (w : externals) (st st' : state) : Prop :=
  if save_logs then log_buffer st <> [] /\ flush_step w st st' else st' = st.

Definition no_call (_ : call) : bool := false.

Definition is_output_call (w : externals) (c : call) : bool :=
  is_mkdir c || is_write_in (output_dir w) c.

(** The states a run goes through, stage by stage. *)
Definition run_shape (w : externals) (content : str) (save_output save_logs : bool)
    (st st' : state) : Prop :=
  if negb (validate_environment w) || negb (validate_discussion_content content) then
    grows no_call (cleared st) st'
  else
    exists st1, grows is_spam_call (cleared st) st1 /\
    if negb (spam_verdict w) then flush_if save_logs w st1 st'
    else
      exists st2, grows is_transformation_call st1 st2 /\
      match transformation_value w with
      | None | Some [] => flush_if save_logs w st2 st'
      | Some (c :: d) =>
          exists st3 st4 st5,
            grows is_scoring_call st2 st3 /\
            grows (if save_output then is_output_call w else no_call) st3 st4 /\
            flush_if save_logs w st4 st5 /\
            closed_by
              (closing_entries content (c :: d) (score_value w (c :: d)) save_output)
              st5 st'
      end.

Definition is_flush_call (w : externals) (c : call) : bool :=
  is_mkdir c || is_log_write w c.

(** The entries a run appends to the log after the flush: none, except
    the two that close a successful run. *)
Definition entries_after_flush (w : externals) (content : str) (save_output : bool)
    : list str :=
  if spam_verdict w then
    match transformation_value w with
    | Some (c :: d) =>
        closing_entries content (c :: d) (score_value w (c :: d)) save_output
    | None | Some [] => []
    end
  else [].

(** The log flush of a run from [st] to [st']: the last call of the run
    writes to the log file the buffer [buf] as it stands then, the whole
    log of the run but for the entries [after] appended later; when the
    write returns, the log file with that content is the last file
    written. *)
Definition log_flushed (w : externals) (after : list str) (st st' : state) : Prop :=
  exists buf cs,
    buf <> [] /\
    log_buffer st' = buf ++ after /\
    calls st' = calls st ++ cs ++ [CallWrite (log_path w) (log_file_content w buf)] /\
    (answer w (CallWrite (log_path w) (log_file_content w buf)) = Returned tt ->
     exists fs, files st' = (log_path w, log_file_content w buf) :: fs).

(** ** Sample runs *)

(** A discussion of four lines and 150 characters. *)
Definition sample_content : str :=
  $"Alice: I think the new release is slower." ++ [newline]
  ++ $"Bob: Which benchmark did you run?" ++ [newline]
  ++ $"Alice: The default one, three times." ++ [newline]
  ++ $"Bob: Then please do post the numbers.".

(** A world where every call returns, given what the three stages say. *)
Definition sample_world (spam : outcome str) (kickoff : outcome (option str))
    (score : outcome str) : externals :=
  {| getenv_GOOGLE_API_KEY := Some $"sample-api-key";
     cwd := $"/work";
     answer := fun _ => Returned tt;
     spam_result := spam;
     kickoff_result := kickoff;
     score_result := fun _ => score;
     now_stamp := $"20240101_120000";
     now_header := $"2024-01-01 12:00:00" |}.

Definition sample_dialogue : option str :=
  Some $"Alice: The release is slower. Bob: Please post the numbers.".

(** The spam filter stage fails: a call raises, or the response is not
    valid. *)
Definition spam_stage_fails (w : externals) : bool :=
  match answer w CallSpamfilterAgent, answer w CallSpamFilterTask, spam_result w with
  | Returned _, Returned _, Returned r => negb (validate_agent_response r)
  | _, _, _ => true
  end.

(** The scoring stage fails: a call raises, or the response is not valid. *)
Definition scoring_stage_fails (w : externals) (d : str) : bool :=
  match answer w CallScorerAgent, answer w (CallScoringTask d), score_result w d with
  | Returned _, Returned _, Returned r => negb (validate_agent_response r)
  | _, _, _ => true
  end.

Definition spam_raises_world : externals :=
  sample_world (Raised $"connection refused") (Returned sample_dialogue)
    (Returned $"8/10 a lively dialogue").

Definition no_key_world : externals :=
  {| getenv_GOOGLE_API_KEY := None;
     cwd := $"/work";
     answer := fun _ => Returned tt;
     spam_result := Returned $"This content looks fine to me";
     kickoff_result := Returned sample_dialogue;
     score_result := fun _ => Returned $"8/10 a lively dialogue";
     now_stamp := $"20240101_120000";
     now_header := $"2024-01-01 12:00:00" |}.

Definition scorer_raises_world : externals :=
  sample_world (Returned $"This content looks fine to me")
    (Returned sample_dialogue) (Raised $"rate limit exceeded").

(** ** Lines, digits and scores *)

(** Empty or whitespace-only. *)
Definition is_blank (s : str) : bool := forallb is_space s.

(** The number of lines of a text that are not blank. *)
Definition count_nonblank_lines (s : str) : nat :=
  length (filter (fun line => negb (is_blank line)) (split newline s)).

(** The rejection rule of the content validator, in the words of its
    specification: blank input, fewer than 100 characters once trimmed, or
    fewer than 3 lines that are not blank. *)
Definition content_rejected (content : str) : bool :=
  is_blank content
  || Nat.ltb (length (strip content)) 100
  || Nat.ltb (count_nonblank_lines content) 3.

(** Reading a text from the right: is the first line not blank, and how
    many of the lines after it are not blank. *)
Definition line_step (c : ascii) (acc : bool * nat) : bool * nat :=
  if Ascii.eqb c newline then (false, Nat.b2n (fst acc) + snd acc)
  else (negb (is_space c) || fst acc, snd acc).

Definition line_profile (s : str) : bool * nat := fold_right line_step (false, 0) s.

(** The longest prefix of characters in a class ([lstrip_by] is what
    follows it). *)
Fixpoint take_while (p : ascii -> bool) (s : str) : str :=
  match s with
  | c :: s' => if p c then c :: take_while p s' else []
  | [] => []
  end.

(** The first run of digits of a line. *)
Fixpoint first_digit_run (s : str) : option str :=
  match s with
  | [] => None
  | c :: s' => if is_digit c then Some (take_while is_digit s) else first_digit_run s'
  end.

(** A slash and a digit come next. *)
Definition slash_digit (s : str) : bool :=
  match s with
  | c :: d :: _ => Ascii.eqb c "/" && is_digit d
  | _ => false
  end.

(** The digits of the first [digits/digits] of a line, up to the slash. *)
Fixpoint first_numerator (s : str) : option str :=
  match s with
  | [] => None
  | c :: s' =>
      if is_digit c && slash_digit (lstrip_by is_digit s)
      then Some (take_while is_digit s)
      else first_numerator s'
  end.

(** The line is a bare integer. *)
Definition whole_number (s : str) : bool :=
  negb (is_empty s) && forallb is_digit s.

(** The line the extractor reads: the first line of the trimmed text,
    trimmed. *)
Definition first_line (text : str) : str :=
  strip (hd [] (split newline (strip text))).

(** The score of a line, by the priorities of the specification. *)
Definition score_of_line (line : str) : outcome str :=
  if whole_number line then outcome_map clamp_str (int_of_digits line)
  else
    match first_numerator line with
    | Some n => outcome_map clamp_str (int_of_digits n)
    | None =>
        match first_digit_run line with
        | Some n => outcome_map clamp_str (int_of_digits n)
        | None => Returned $"0"
        end
    end.

(** A text that does not end with a whitespace character. *)
Definition trimmed (s : str) : Prop :=
  forall c r, rev s = c :: r -> is_space c = false.

(** The first line of a text as it stands, trimmed. *)
Definition literal_first_line (text : str) : str :=
  strip (hd [] (split newline text)).

Definition no_newline (s : str) : bool := forallb (not_char newline) s.

(** ** The cleaner, as scans *)

(** Removing the groups between an opening and a closing character: a
    group starts at an opening character that has a closing one after it
    and ends at the first closing one.  [inside] tells that the scan is in
    a group. *)
Fixpoint remove_groups (o c : ascii) (inside : bool) (s : str) : str :=
  match s with
  | [] => []
  | x :: s' =>
      if inside then
        if Ascii.eqb x c then remove_groups o c false s'
        else remove_groups o c true s'
      else if Ascii.eqb x o && existsb (Ascii.eqb c) s' then remove_groups o c true s'
      else x :: remove_groups o c false s'
  end.

(** Replacing each run of whitespace by one space.  [in_run] tells that
    the scan is in a run. *)
Fixpoint collapse_spaces (in_run : bool) (s : str) : str :=
  match s with
  | [] => []
  | x :: s' =>
      if is_space x then
        if in_run then collapse_spaces true s' else " "%char :: collapse_spaces true s'
      else x :: collapse_spaces false s'
  end.

(** The text has a group: an opening character with a closing one after
    it. *)
Fixpoint has_group (o c : ascii) (s : str) : bool :=
  match s with
  | [] => false
  | x :: s' => (Ascii.eqb x o && existsb (Ascii.eqb c) s') || has_group o c s'
  end.

(** [thin ok s t]: [t] is [s] with characters left out and characters
    satisfying [ok] put in. *)
Inductive thin (ok : ascii -> bool) : str -> str -> Prop :=
| thin_nil : thin ok [] []
| thin_keep x s t : thin ok s t -> thin ok (x :: s) (x :: t)
| thin_drop x s t : thin ok s t -> thin ok (x :: s) t
| thin_add y s t : ok y = true -> thin ok s t -> thin ok s (y :: t).

(** Whitespace is single spaces, none after another; [after_space] tells
    that the text comes after a space. *)
Fixpoint single_spaced (after_space : bool) (s : str) : bool :=
  match s with
  | [] => true
  | x :: s' =>
      if is_space x then Ascii.eqb x " " && negb after_space && single_spaced true s'
      else single_spaced false s'
  end.

(** ** Clean texts *)

(** A clean text: no group of the three kinds is left, whitespace is
    single spaces, and the text is trimmed. *)
Definition is_clean (s : str) : bool :=
  negb (has_group "(" ")" s) && negb (has_group "[" "]" s)
  && negb (has_group "{" "}" s)
  && single_spaced false s && str_eqb (strip s) s.

(** None of the six characters that open or close a group. *)
Definition is_bracket (c : ascii) : bool :=
  existsb (Ascii.eqb c) ["("; ")"; "["; "]"; "{"; "}"].

Definition no_brackets (s : str) : bool := forallb (fun c => negb (is_bracket c)) s.

(** A safe file name: not empty, none of the nine characters, neither a
    dot nor a space at either end. *)
Definition is_safe_name (f : str) : bool :=
  negb (is_empty f)
  && forallb (fun c => negb (is_invalid_char c)) f
  && str_eqb (strip_by is_dot_or_space f) f.

(** ** Long numbers *)

(** The decimal number written with [k] digits 1. *)
Fixpoint ones (k : nat) : Decimal.uint :=
  match k with
  | 0 => Decimal.Nil
  | S k' => Decimal.D1 (ones k')
  end.

Definition repunit (k : nat) : N := N.of_uint (ones k).

(** ** More vocabulary for runs *)

(** A step that appends log entries, makes calls satisfying [P] and leaves
    the files alone. *)
Definition stage_step (P : call -> bool) (st st' : state) : Prop :=
  (exists es, log_buffer st' = log_buffer st ++ es) /\
  (exists cs, calls st' = calls st ++ cs /\ forallb P cs = true) /\
  files st' = files st.

(** The calls to the file system. *)
Definition is_file_call (c : call) : bool :=
  match c with
  | CallMkdir _ | CallWrite _ _ => true
  | _ => false
  end.

(** The eleven scores. *)
Definition scores : list str :=
  [$"0"; $"1"; $"2"; $"3"; $"4"; $"5"; $"6"; $"7"; $"8"; $"9"; $"10"].

(** Two worlds that differ at most in what the file system answers. *)
Definition same_stages (w1 w2 : externals) : Prop :=
  getenv_GOOGLE_API_KEY w1 = getenv_GOOGLE_API_KEY w2 /\
  (forall c, is_file_call c = false -> answer w1 c = answer w2 c) /\
  spam_result w1 = spam_result w2 /\
  kickoff_result w1 = kickoff_result w2 /\
  (forall d, score_result w1 d = score_result w2 d).

(** A world like [sample_world] where no directory can be made and no file
    written. *)
Definition read_only_world (spam : outcome str) (kickoff : outcome (option str))
    (score : outcome str) : externals :=
  {| getenv_GOOGLE_API_KEY := Some $"sample-api-key";
     cwd := $"/work";
     answer := fun c => if is_file_call c then Raised $"read-only file system"
                        else Returned tt;
     spam_result := spam;
     kickoff_result := kickoff;
     score_result := fun _ => score;
     now_stamp := $"20240101_120000";
     now_header := $"2024-01-01 12:00:00" |}.

(** The text of the score file of a run with dialogue [d]. *)
Definition score_report (w : externals) (d : str) : str :=
  $"Dialogue Quality Score: " ++ score_value w d ++ $"/10" ++ [newline; newline]
  ++ $"Generated on: "
  ++ step_entry $"PIPELINE START" $"Beginning complete discussion processing"
  ++ [newline; newline]
  ++ $"DIALOGUE CONTENT:" ++ [newline]
  ++ repeat "="%char 50 ++ [newline]
  ++ d.

(** The calls [ensure_directories] makes. *)
Definition mkdir_calls (w : externals) : list call :=
  if returns (answer w (CallMkdir (output_dir w)))
  then [CallMkdir (output_dir w); CallMkdir (logs_dir w)]
  else [CallMkdir (output_dir w)].

Definition add_calls (cs : list call) (st : state) : state :=
  {| log_buffer := log_buffer st; files := files st; calls := calls st ++ cs |}.

(** ** Reading the discussion file *)

(** What reading a file as UTF-8 can give. *)
Inductive read_result : Type :=
| ReadText (content : str)
| ReadUnicodeDecodeError
| ReadException (msg : str).

(** The answers of the file system about [base_dir / filename]. *)
Record file_reader : Type := {
  path_exists : str -> outcome bool;    (* file_path.exists() *)
  read_utf8 : str -> read_result;       (* open(file_path, encoding="utf-8"), read() *)
  read_latin1 : str -> outcome str      (* open(file_path, encoding="latin-1"), read() *)
}.

Definition load_discussion_from_file (fs : file_reader) (filename : str) : str :=
  match path_exists fs filename with
  | Raised _ => []
  | Returned false => []
  | Returned true =>
      match read_utf8 fs filename with
      | ReadText content => if is_empty (strip content) then [] else content
      | ReadUnicodeDecodeError =>
          match read_latin1 fs filename with
          | Returned content => content
          | Raised _ => []
          end
      | ReadException _ => []
      end
  end.

Definition process_from_file (w : externals) (fs : file_reader) (filename : str)
    (save_output save_logs : bool) : M dict :=
  log_step $"FILE PROCESSING" ($"Loading discussion from file: " ++ filename) ;;;
  let discussion_content := load_discussion_from_file fs filename in
  if is_empty discussion_content then
    let error_msg := $"Could not load discussion from file: " ++ filename in
    log_error error_msg $"File Processing" ;;;
    ret (error_result error_msg)
  else
    process_discussion w discussion_content save_output save_logs.


(** ** The exit code of [main] *)

(** [v == "text"] *)
Definition value_is (text : str) (v : value) : bool :=
  match v with
  | VStr s => str_eqb s text
  | _ => false
  end.

(** [v[key]] returns for a dictionary with the key; any other subscript
    by a string raises. *)
Definition subscript (key : str) (v : value) : option value :=
  match v with
  | VDict d => dict_get key d
  | _ => None
  end.

(** Printing at most 1000 characters of [dialogue]: [len(dialogue)], then
    [dialogue[:1000]] when it is longer. *)
Definition shows_dialogue (v : value) : bool :=
  match v with
  | VStr _ => true
  | VDict d => Nat.leb (length d) 1000
  | _ => false
  end.

Definition is_some {A} (o : option A) : bool :=
  match o with Some _ => true | None => false end.

(** What [main] returns once it has the result of the crew: 1 for an
    error result, and 1 from its handler when displaying the result
    raises; else 0. *)
Definition main_exit_code (result : dict) : nat :=
  if dict_has $"error" result then 1
  else
    match dict_get $"status" result with
    | None => 1
    | Some status =>
        if value_is $"filtered" status then
          if dict_has $"message" result then 0 else 1
        else if value_is $"success" status then
          if dict_has $"message" result
             && match dict_get $"stats" result with
                | Some stats =>
                    is_some (subscript $"original_length" stats)
                    && is_some (subscript $"processed_length" stats)
                    && is_some (subscript $"files_saved" stats)
                | None => false
                end
             && dict_has $"score" result
             && match dict_get $"dialogue" result with
                | Some dialogue => shows_dialogue dialogue
                | None => false
                end
          then 0 else 1
        else 0
    end.

(** The log of a run starts with the step PIPELINE START. *)
Definition log_starts (st : state) : Prop :=
  exists rest,
    log_buffer st
    = step_entry $"PIPELINE START" $"Beginning complete discussion processing" :: rest.

(** ** Reasoning rules for the monad *)

Section Rules.
Context {A B : Type}.

Lemma post_ret (a : A) st (Q : outcome A -> state -> Prop) :
  Q (Returned a) st -> post (ret a) st Q.
Proof. exact (fun H => H). Qed.

Lemma post_bind (m : M A) (f : A -> M B) st (Q : outcome B -> state -> Prop) :
  post m st (fun o st' =>
    match o with
    | Returned a => post (f a) st' Q
    | Raised e => Q (Raised e) st'
    end) ->
  post (bind m f) st Q.
Proof.
  unfold post, bind. destruct (m st) as [[a | e] st']; simpl; auto.
Qed.

Lemma post_try (m : M A) (h : str -> M A) st (Q : outcome A -> state -> Prop) :
  post m st (fun o st' =>
    match o with
    | Returned a => Q (Returned a) st'
    | Raised e => post (h e) st' Q
    end) ->
  post (try_except m h) st Q.
Proof.
  unfold post, try_except. destruct (m st) as [[a | e] st']; simpl; auto.
Qed.

Lemma post_weaken (m : M A) st (Q Q' : outcome A -> state -> Prop) :
  post m st Q -> (forall o st', Q o st' -> Q' o st') -> post m st Q'.
Proof. unfold post. auto. Qed.
End Rules.

Lemma post_log_step a b st (Q : outcome unit -> state -> Prop) :
  (forall e, Q (Returned tt) (add_log e st)) -> post (log_step a b) st Q.
Proof. intros H. unfold post, log_step, append_log. simpl. apply H. Qed.

Lemma post_log_result a b n st (Q : outcome unit -> state -> Prop) :
  (forall e, Q (Returned tt) (add_log e st)) -> post (log_result a b n) st Q.
Proof. intros H. unfold post, log_result, append_log. simpl. apply H. Qed.

Lemma post_log_error a b st (Q : outcome unit -> state -> Prop) :
  (forall e, Q (Returned tt) (add_log e st)) -> post (log_error a b) st Q.
Proof. intros H. unfold post, log_error, append_log. simpl. apply H. Qed.

Lemma post_log_step_exact a b st (Q : outcome unit -> state -> Prop) :
  Q (Returned tt) (add_log (step_entry a b) st) -> post (log_step a b) st Q.
Proof. exact (fun H => H). Qed.

Lemma post_log_result_exact a b n st (Q : outcome unit -> state -> Prop) :
  Q (Returned tt) (add_log (result_entry a b n) st) -> post (log_result a b n) st Q.
Proof. exact (fun H => H). Qed.

Lemma closed_by_grows es st st' : closed_by es st st' -> grows no_call st st'.
Proof.
  intros (Hl & Hc & Hf). split; [now exists es|].
  exists []. rewrite app_nil_r. split; [exact Hc|]. split; [reflexivity|].
  exists []. split; [exact Hf | intros ? ? []].
Qed.

Lemma post_record_call c st (Q : outcome unit -> state -> Prop) :
  Q (Returned tt) (add_call c st) -> post (record_call c) st Q.
Proof. exact (fun H => H). Qed.

Lemma post_lift {A} (o : outcome A) st (Q : outcome A -> state -> Prop) :
  Q o st -> post (lift o) st Q.
Proof. exact (fun H => H). Qed.

Lemma post_perform w c st (Q : outcome unit -> state -> Prop) :
  Q (answer w c) (add_call c st) -> post (perform w c) st Q.
Proof.
  intros H. unfold perform. apply post_bind. apply post_record_call.
  apply post_lift. exact H.
Qed.

Lemma post_get_log_buffer st (Q : outcome (list str) -> state -> Prop) :
  Q (Returned (log_buffer st)) st -> post get_log_buffer st Q.
Proof. exact (fun H => H). Qed.

Lemma post_write_file w p c st (Q : outcome unit -> state -> Prop) :
  (match answer w (CallWrite p c) with
   | Returned _ => Q (Returned tt) (add_file p c (add_call (CallWrite p c) st))
   | Raised e => Q (Raised e) (add_call (CallWrite p c) st)
   end) ->
  post (write_file w p c) st Q.
Proof.
  intros H. unfold write_file. apply post_bind. apply post_perform.
  destruct (answer w (CallWrite p c)) as [[] | e]; exact H.
Qed.

Lemma post_clear_log st (Q : outcome unit -> state -> Prop) :
  Q (Returned tt) (cleared st) -> post clear_log st Q.
Proof. exact (fun H => H). Qed.

(** ** How states grow *)

Lemma grows_refl P st : grows P st st.
Proof.
  split; [exists []; now rewrite app_nil_r|].
  exists []. rewrite app_nil_r. repeat split.
  exists []. split; [reflexivity | intros ? ? []].
Qed.

Lemma grows_log P st st' e : grows P st st' -> grows P st (add_log e st').
Proof.
  intros [[es He] Hc]. split; [|exact Hc].
  exists (es ++ [e]). simpl. rewrite He. now rewrite app_assoc.
Qed.

Lemma grows_call P st st' c :
  grows P st st' -> P c = true -> grows P st (add_call c st').
Proof.
  intros [Hl (cs & Hc & HP & fs & Hf & Hin)] Pc. split; [exact Hl|].
  exists (cs ++ [c]). simpl. rewrite Hc, app_assoc. split; [reflexivity|].
  split; [rewrite forallb_app, HP; simpl; now rewrite Pc|].
  exists fs. split; [exact Hf|]. intros p x H. apply in_or_app. left. now apply Hin.
Qed.

Lemma grows_file P st st' p x :
  grows P st st' -> In (CallWrite p x) (skipn (length (calls st)) (calls st')) ->
  grows P st (add_file p x st').
Proof.
  intros [Hl (cs & Hc & HP & fs & Hf & Hin)] Hw. split; [exact Hl|].
  exists cs. split; [exact Hc|]. split; [exact HP|].
  exists ((p, x) :: fs). simpl. rewrite Hf. split; [reflexivity|].
  intros p' x' [E | H].
  - inversion E; subst. rewrite Hc in Hw.
    rewrite skipn_app, skipn_all, Nat.sub_diag in Hw. exact Hw.
  - now apply Hin.
Qed.

Lemma grows_write P st st' p x :
  grows P st st' -> P (CallWrite p x) = true ->
  grows P st (add_file p x (add_call (CallWrite p x) st')).
Proof.
  intros H Pc. apply grows_file; [now apply grows_call|].
  destruct H as [_ (cs & Hc & _)]. simpl. rewrite Hc, <- app_assoc.
  rewrite skipn_app, skipn_all, Nat.sub_diag. simpl.
  apply in_or_app. right. now left.
Qed.

Lemma grows_trans P st1 st2 st3 :
  grows P st1 st2 -> grows P st2 st3 -> grows P st1 st3.
Proof.
  intros [[e1 He1] (c1 & Hc1 & HP1 & f1 & Hf1 & Hin1)]
         [[e2 He2] (c2 & Hc2 & HP2 & f2 & Hf2 & Hin2)].
  split; [exists (e1 ++ e2); rewrite He2, He1; now rewrite app_assoc|].
  exists (c1 ++ c2). split; [rewrite Hc2, Hc1; now rewrite app_assoc|].
  split; [rewrite forallb_app, HP1, HP2; reflexivity|].
  exists (f2 ++ f1). split; [rewrite Hf2, Hf1; now rewrite app_assoc|].
  intros p x H. apply in_app_or in H. apply in_or_app.
  destruct H; [right; now apply Hin2 | left; now apply Hin1].
Qed.

Lemma grows_weaken (P P' : call -> bool) st st' :
  (forall c, P c = true -> P' c = true) -> grows P st st' -> grows P' st st'.
Proof.
  intros HPP [Hl (cs & Hc & HP & Hf)]. split; [exact Hl|].
  exists cs. split; [exact Hc|]. split; [|exact Hf].
  rewrite forallb_forall in *. auto.
Qed.

Create HintDb grows.
#[local] Hint Resolve grows_refl grows_log grows_call grows_write : grows.

(** One step of weakest-precondition reasoning on the head of a program. *)
Ltac wp_step :=
  lazymatch goal with
  | |- post (bind _ _) _ _ => apply post_bind
  | |- post (try_except _ _) _ _ => apply post_try
  | |- post (ret _) _ _ => apply post_ret
  | |- post (log_step _ _) _ _ => apply post_log_step; intros ?
  | |- post (log_result _ _ _) _ _ => apply post_log_result; intros ?
  | |- post (log_error _ _) _ _ => apply post_log_error; intros ?
  | |- post (record_call _) _ _ => apply post_record_call
  | |- post (lift _) _ _ => apply post_lift
  | |- post (perform _ _) _ _ => apply post_perform
  | |- post get_log_buffer _ _ => apply post_get_log_buffer
  | |- post clear_log _ _ => apply post_clear_log
  | |- post (write_file _ _ _) _ _ => apply post_write_file
  end; cbv beta.

Ltac wp := repeat wp_step.

(** ** FileManager and LoggingTools, step by step *)

Lemma ensure_directories_post w st (Q : outcome unit -> state -> Prop) :
  (forall st', grows is_mkdir st st' -> log_buffer st' = log_buffer st ->
               files st' = files st -> Q (Returned tt) st') ->
  post (ensure_directories w) st Q.
Proof.
  intros H. unfold ensure_directories. wp.
  destruct (answer w (CallMkdir (output_dir w))) as [[] | e]; wp.
  - destruct (answer w (CallMkdir (logs_dir w))) as [[] | e]; wp;
      apply H; auto with grows.
  - apply H; auto with grows.
Qed.

Lemma starts_with_app (a b : str) : starts_with a (a ++ b) = true.
Proof.
  induction a as [| c a IH]; [reflexivity|]. simpl.
  now rewrite Ascii.eqb_refl, IH.
Qed.

Lemma save_result_post w content filename st (Q : outcome bool -> state -> Prop) :
  (forall b st',
     grows (fun c => is_mkdir c || is_write_in (output_dir w) c) st st' ->
     Q (Returned b) st') ->
  post (save_result w content filename) st Q.
Proof.
  intros H. unfold save_result. destruct (is_empty content); [apply H; auto with grows|].
  wp. apply ensure_directories_post. intros st1 G1 _ _.
  assert (G : grows (fun c => is_mkdir c || is_write_in (output_dir w) c) st st1).
  { revert G1. apply grows_weaken. intros c ->. reflexivity. }
  assert (W : forall x, (fun c => is_mkdir c || is_write_in (output_dir w) c)
                (CallWrite (path_join (output_dir w) (sanitize_filename filename)) x) = true).
  { intros x. simpl. unfold path_join. rewrite app_assoc. apply starts_with_app. }
  wp. destruct (answer w (CallWrite _ content)) as [[] | e]; wp; apply H.
  - apply grows_write; auto.
  - apply grows_call; auto.
Qed.

Lemma str_eqb_refl (a : str) : str_eqb a a = true.
Proof. unfold str_eqb. destruct (list_eq_dec ascii_dec a a); congruence. Qed.

Lemma str_eqb_eq (a b : str) : str_eqb a b = true -> a = b.
Proof. unfold str_eqb. destruct (list_eq_dec ascii_dec a b); congruence. Qed.

Lemma save_log_to_file_post w st (Q : outcome bool -> state -> Prop) :
  log_buffer st <> [] ->
  (forall b st', flush_step w st st' -> Q (Returned b) st') ->
  post (save_log_to_file w) st Q.
Proof.
  intros Hne H. unfold save_log_to_file. wp.
  destruct (log_buffer st) as [| e0 buf] eqn:Eb; [congruence|].
  unfold get_full_log. wp. rewrite Eb. unfold save_log. wp.
  apply ensure_directories_post. intros st1 [_ (mk & Hc & Hmk & _)] Hl Hf.
  change (path_join (logs_dir w)
            ((if is_empty $"newsgroup_processing" then $"process_log"
              else $"newsgroup_processing") ++ $"_" ++ now_stamp w ++ $".txt"))
    with (log_path w).
  change ($"Process Log - " ++ now_header w ++ [newline] ++ repeat "="%char 60
          ++ [newline; newline] ++ join [newline] (e0 :: buf))
    with (log_file_content w (e0 :: buf)).
  wp. destruct (answer w (CallWrite (log_path w) _)) as [[] | e] eqn:Ea; wp; apply H.
  - split; [simpl; now rewrite Hl, Eb|]. exists mk. split; [exact Hmk|].
    rewrite Eb. simpl. rewrite Hc, <- app_assoc. split; [reflexivity|].
    rewrite Ea. now rewrite Hf.
  - split; [simpl; now rewrite Hl, Eb|]. exists mk. split; [exact Hmk|].
    rewrite Eb. simpl. rewrite Hc, <- app_assoc. split; [reflexivity|].
    rewrite Ea. exact Hf.
Qed.

(** ** The stages, step by step *)

Lemma run_spam_filter_post w st (Q : outcome bool -> state -> Prop) :
  (forall st', grows is_spam_call st st' -> Q (Returned (spam_verdict w)) st') ->
  post (run_spam_filter w) st Q.
Proof.
  intros H. unfold run_spam_filter. unfold spam_verdict in H. wp.
  destruct (answer w CallSpamfilterAgent) as [[] | e1]; wp;
    [| apply H; auto 10 with grows].
  destruct (answer w CallSpamFilterTask) as [[] | e2]; wp;
    [| apply H; auto 10 with grows].
  destruct (spam_result w) as [r | e3]; wp; [| apply H; auto 10 with grows].
  destruct (validate_agent_response r); cbn [negb andb] in *; wp; [| apply H; auto 10 with grows].
  destruct (contains $"STOP" (upper r)); cbn [negb andb] in *; wp; apply H; auto 12 with grows.
Qed.

Lemma run_dialogue_transformation_post w st (Q : outcome (option str) -> state -> Prop) :
  (forall st', grows is_transformation_call st st' ->
               Q (Returned (transformation_value w)) st') ->
  post (run_dialogue_transformation w) st Q.
Proof.
  intros H. unfold run_dialogue_transformation. unfold transformation_value in H.
  cbn [forallb] in H. wp.
  destruct (answer w CallAnalystAgent) as [[] | ?]; wp; [| apply H; auto 20 with grows].
  destruct (answer w CallScriptwriterAgent) as [[] | ?]; wp; [| apply H; auto 20 with grows].
  destruct (answer w CallFormatterAgent) as [[] | ?]; wp; [| apply H; auto 20 with grows].
  destruct (answer w CallAnalysisTask) as [[] | ?]; wp; [| apply H; auto 20 with grows].
  destruct (answer w CallScriptwritingTask) as [[] | ?]; wp; [| apply H; auto 20 with grows].
  destruct (answer w CallFormattingTask) as [[] | ?]; wp; [| apply H; auto 20 with grows].
  destruct (answer w CallCrew) as [[] | ?]; wp; [| apply H; auto 20 with grows].
  cbn [andb] in H. destruct (kickoff_result w) as [result | ?]; wp; [| apply H; auto 20 with grows].
  destruct (validate_crew_result result); cbn [negb andb] in *; wp; [| apply H; auto 20 with grows].
  destruct (is_empty (strip (clean_dialogue _))); wp; apply H; auto 20 with grows.
Qed.

Lemma score_dialogue_post w d st (Q : outcome str -> state -> Prop) :
  (forall st', grows is_scoring_call st st' -> Q (Returned (score_value w d)) st') ->
  post (score_dialogue w d) st Q.
Proof.
  intros H. unfold score_dialogue. unfold score_value in H. wp.
  destruct (is_empty d || is_empty (strip d)); wp; [apply H; auto with grows|].
  destruct (answer w CallScorerAgent) as [[] | ?]; wp; [| apply H; auto 10 with grows].
  destruct (answer w (CallScoringTask d)) as [[] | ?]; wp; [| apply H; auto 10 with grows].
  destruct (score_result w d) as [r | ?]; wp; [| apply H; auto 10 with grows].
  destruct (validate_agent_response r); cbn [negb andb] in *; wp;
    [| apply H; auto 12 with grows].
  destruct (extract_score r) as [score | ?]; wp; apply H; auto 12 with grows.
Qed.

(** With nothing to score, the stage is not called at all. *)
Lemma score_dialogue_blank w d st :
  is_empty d || is_empty (strip d) = true ->
  post (score_dialogue w d) st (fun o st' =>
    o = Returned $"0" /\ calls st' = calls st /\ files st' = files st).
Proof.
  intros Hb. unfold score_dialogue. rewrite Hb. wp. auto.
Qed.

(** ** The whole run *)

Lemma grows_nonempty P st st' :
  grows P st st' -> log_buffer st <> [] -> log_buffer st' <> [].
Proof.
  intros [[es He] _] Hne. rewrite He. destruct (log_buffer st); [congruence | discriminate].
Qed.

Lemma add_log_nonempty e st : log_buffer (add_log e st) <> [].
Proof. simpl. destruct (log_buffer st); discriminate. Qed.

Lemma when_flush_post w save_logs st (Q : outcome unit -> state -> Prop) :
  log_buffer st <> [] ->
  (forall st', flush_if save_logs w st st' -> Q (Returned tt) st') ->
  post (when save_logs (save_log_to_file w ;;; ret tt)) st Q.
Proof.
  intros Hne H. destruct save_logs; simpl.
  - wp. apply save_log_to_file_post; [exact Hne|]. intros b st' Hf. wp.
    apply H. split; assumption.
  - wp. apply H. reflexivity.
Qed.

Lemma process_discussion_post w content save_output save_logs st :
  post (process_discussion w content save_output save_logs) st (fun o st' =>
    o = Returned (pipeline_result w content save_output) /\
    run_shape w content save_output save_logs st st').
Proof.
  unfold process_discussion, pipeline_result, run_shape. wp.
  destruct (validate_environment w); cbn [negb orb]; wp;
    [| split; [reflexivity | auto 10 with grows]].
  destruct (validate_discussion_content content); cbn [negb orb]; wp;
    [| split; [reflexivity | auto 10 with grows]].
  apply run_spam_filter_post. intros st1 G1.
  assert (N1 : log_buffer st1 <> []).
  { eapply grows_nonempty; [exact G1 | apply add_log_nonempty]. }
  assert (G1' : grows is_spam_call (cleared st) st1).
  { eapply grows_trans; [| exact G1]. auto 10 with grows. }
  clear G1. destruct (spam_verdict w); cbn [negb]; wp.
  - (* the filter lets the content through *)
    apply run_dialogue_transformation_post. intros st2 G2.
    assert (G2' : grows is_transformation_call st1 st2).
    { eapply grows_trans; [| exact G2]. auto with grows. }
    assert (N2 : log_buffer st2 <> []) by (eapply grows_nonempty; eauto).
    clear G2. destruct (transformation_value w) as [[| c d] |]; wp.
    + apply when_flush_post; [apply add_log_nonempty|]. intros st' F. wp.
      split; [reflexivity|]. eexists. split; [exact G1'|].
      eexists. split; [| exact F]. auto with grows.
    + apply score_dialogue_post. intros st3 G3.
      assert (G3' : grows is_scoring_call st2 st3).
      { eapply grows_trans; [| exact G3]. auto with grows. }
      assert (N3 : log_buffer st3 <> []) by (eapply grows_nonempty; eauto).
      clear G3.
      assert (O : post
        (when save_output
           (log_step $"FILE OPERATIONS" $"Saving results to files" ;;;
            dialogue_saved <- save_result w (c :: d) $"dialogue_output.txt" ;;
            buf <- get_log_buffer ;;
            let score_content :=
              $"Dialogue Quality Score: " ++ score_value w (c :: d) ++ $"/10"
              ++ [newline; newline]
              ++ $"Generated on: " ++ hd $"Unknown" buf ++ [newline; newline]
              ++ $"DIALOGUE CONTENT:" ++ [newline]
              ++ repeat "="%char 50 ++ [newline] ++ c :: d in
            score_saved <- save_result w score_content $"dialogue_score.txt" ;;
            when (negb (dialogue_saved && score_saved))
              (log_error $"Some files failed to save" $"File Operations")))
        st3
        (fun o st4 => o = Returned tt /\
           grows (if save_output then is_output_call w else no_call) st3 st4)).
      { destruct save_output; unfold when at 1; wp; [| auto with grows].
        apply save_result_post. intros b1 sa Ga. wp.
        apply save_result_post. intros b2 sb Gb.
        assert (G : grows (is_output_call w) st3 sb).
        { eapply grows_trans; [| exact Gb].
          eapply grows_trans; [| exact Ga]. auto with grows. }
        destruct (negb (b1 && b2)); unfold when; wp; auto with grows. }
      apply post_bind. eapply post_weaken; [exact O|]. cbv beta. intros o st4 [-> G4].
      cbv beta iota. wp.
      assert (N4 : log_buffer st4 <> []) by (eapply grows_nonempty; eauto).
      apply when_flush_post; [exact N4|]. intros st5 F. cbv zeta.
      apply post_bind, post_log_step_exact. apply post_bind, post_log_result_exact.
      apply post_ret.
      split; [reflexivity|]. eexists. split; [exact G1'|].
      eexists. split; [exact G2'|]. exists st3, st4, st5.
      split; [exact G3'|]. split; [exact G4|]. split; [exact F|].
      split; [cbn [add_log log_buffer closing_entries]; now rewrite <- app_assoc|].
      split; reflexivity.
    + apply when_flush_post; [apply add_log_nonempty|]. intros st' F. wp.
      split; [reflexivity|]. eexists. split; [exact G1'|].
      eexists. split; [| exact F]. auto with grows.
  - (* the filter stops the run *)
    apply when_flush_post; [apply add_log_nonempty|]. intros st' F. wp.
    split; [reflexivity|]. eexists. split; [| exact F]. auto with grows.
Qed.

(** ** Letter case *)

Lemma ascii_in_spec lo hi c :
  ascii_in lo hi c = true <-> lo <= nat_of_ascii c <= hi.
Proof.
  unfold ascii_in. rewrite andb_true_iff, !Nat.leb_le. tauto.
Qed.

Lemma any_case_upper c d :
  ascii_in 65 90 c = true -> any_case c d = true -> upper_char d = c.
Proof.
  intros Hc Hd. apply ascii_in_spec in Hc. unfold any_case in Hd.
  apply orb_true_iff in Hd. destruct Hd as [E | E]; apply Ascii.eqb_eq in E; subst d.
  - unfold upper_char. destruct (ascii_in 97 122 c) eqn:E; [|reflexivity].
    apply ascii_in_spec in E. lia.
  - unfold lower_char. replace (ascii_in 65 90 c) with true
      by (symmetry; apply ascii_in_spec; exact Hc).
    unfold upper_char.
    assert (N : nat_of_ascii (ascii_of_nat (nat_of_ascii c + 32)) = nat_of_ascii c + 32)
      by (apply nat_ascii_embedding; lia).
    replace (ascii_in 97 122 (ascii_of_nat (nat_of_ascii c + 32))) with true
      by (symmetry; apply ascii_in_spec; lia).
    rewrite N, Nat.add_sub. apply ascii_nat_embedding.
Qed.

Lemma starts_with_any_case_upper needle s :
  forallb (ascii_in 65 90) needle = true ->
  starts_with_any_case needle s = true -> starts_with needle (upper s) = true.
Proof.
  revert s. induction needle as [| a n IH]; intros s Hn Hs; [reflexivity|].
  destruct s as [| b s]; [discriminate|]. simpl in *.
  apply andb_true_iff in Hn. destruct Hn as [Ha Hn].
  apply andb_true_iff in Hs. destruct Hs as [Hb Hs].
  rewrite (any_case_upper a b Ha Hb), Ascii.eqb_refl. simpl. now apply IH.
Qed.

Lemma contains_any_case_upper needle s :
  forallb (ascii_in 65 90) needle = true ->
  contains_any_case needle s = true -> contains needle (upper s) = true.
Proof.
  intros Hn. induction s as [| b s IH]; intros Hs.
  - destruct needle; [reflexivity | discriminate].
  - cbn [contains_any_case] in Hs. cbn [upper map contains].
    apply orb_true_iff in Hs. apply orb_true_iff. destruct Hs as [Hs | Hs].
    + left. now apply (starts_with_any_case_upper needle (b :: s)).
    + right. now apply IH.
Qed.

(** ** Paths and footprints *)

Lemma starts_with_app_cancel (a b c : str) :
  starts_with (a ++ b) (a ++ c) = starts_with b c.
Proof.
  induction a as [| x a IH]; [reflexivity|]. simpl.
  now rewrite Ascii.eqb_refl, IH.
Qed.

Lemma log_path_not_in_output w x :
  is_write_in (output_dir w) (CallWrite (log_path w) x) = false.
Proof.
  unfold is_write_in, log_path, path_join, output_dir, logs_dir.
  rewrite <- !app_assoc. rewrite starts_with_app_cancel. reflexivity.
Qed.

Lemma grows_calls P st st' :
  grows P st st' ->
  exists cs, calls st' = calls st ++ cs /\ forall c, In c cs -> P c = true.
Proof.
  intros [_ (cs & Hc & HP & _)]. exists cs. split; [exact Hc|].
  now apply forallb_forall.
Qed.

Lemma grows_files P st st' p x :
  grows P st st' -> In (p, x) (files st') ->
  In (p, x) (files st) \/ P (CallWrite p x) = true.
Proof.
  intros [_ (cs & Hc & HP & fs & Hf & Hin)] H. rewrite Hf in H.
  apply in_app_or in H. destruct H as [H | H]; [right | now left].
  rewrite forallb_forall in HP. apply HP. now apply Hin.
Qed.

Lemma cleared_grows P st st' :
  grows P (cleared st) st' ->
  (exists cs, calls st' = calls st ++ cs /\ forall c, In c cs -> P c = true) /\
  (forall p x, In (p, x) (files st') -> In (p, x) (files st) \/ P (CallWrite p x) = true).
Proof.
  intros G. split; [exact (grows_calls _ _ _ G)|].
  intros p x. exact (grows_files _ _ _ p x G).
Qed.

Lemma flush_step_grows w st st' : flush_step w st st' -> grows (is_flush_call w) st st'.
Proof.
  intros [Hl (mk & Hmk & Hc & Hf)]. split; [exists []; now rewrite app_nil_r|].
  eexists. split; [exact Hc|]. split.
  - rewrite forallb_app. apply andb_true_iff. split.
    + rewrite forallb_forall in *. intros c Hin. unfold is_flush_call.
      now rewrite (Hmk c Hin).
    + cbn [forallb]. unfold is_flush_call, is_log_write, is_mkdir.
      now rewrite str_eqb_refl.
  - destruct (answer w (CallWrite (log_path w) _)).
    + eexists [_]. split; [exact Hf|]. intros p x [E | []]. inversion E; subst.
      apply in_or_app. right. now left.
    + exists []. split; [exact Hf|]. intros ? ? [].
Qed.

Lemma flush_if_grows b w st st' : flush_if b w st st' -> grows (is_flush_call w) st st'.
Proof.
  destruct b; simpl.
  - intros [_ F]. now apply flush_step_grows.
  - intros ->. apply grows_refl.
Qed.

(** ** The run stopped by the spam filter *)

Lemma filtered_run_calls w c :
  is_spam_call c || is_flush_call w c = true ->
  is_transformation_call c = false /\ is_scoring_call c = false /\
  is_write_in (output_dir w) c = false.
Proof.
  destruct c; simpl; try discriminate; auto.
  unfold is_flush_call. simpl. intros H. apply str_eqb_eq in H. subst path.
  repeat split. apply (log_path_not_in_output w content).
Qed.

Lemma filtered_run_files w p x :
  is_spam_call (CallWrite p x) || is_flush_call w (CallWrite p x) = true ->
  p = log_path w.
Proof. unfold is_flush_call. simpl. apply str_eqb_eq. Qed.

(** A run whose spam filter says no: the result is the filtered one, and
    nothing is called but the filter and the log flush. *)
Lemma filtered_run w content save_output save_logs st :
  validate_environment w = true ->
  validate_discussion_content content = true ->
  spam_verdict w = false ->
  exists st',
    process_discussion w content save_output save_logs st
      = (Returned filtered_result, st') /\
    (exists cs, calls st' = calls st ++ cs /\
       forall c, In c cs ->
         is_transformation_call c = false /\ is_scoring_call c = false /\
         is_write_in (output_dir w) c = false) /\
    (forall p x, In (p, x) (files st') -> In (p, x) (files st) \/ p = log_path w).
Proof.
  intros He Hc Hv.
  pose proof (process_discussion_post w content save_output save_logs st) as H.
  unfold post, pipeline_result, run_shape in H. rewrite He, Hc, Hv in H.
  cbn [negb orb] in H.
  destruct (process_discussion w content save_output save_logs st) as [o st'].
  cbn [fst snd] in H. destruct H as [-> (st1 & G1 & F)].
  exists st'. split; [reflexivity|].
  assert (G : grows (fun c => is_spam_call c || is_flush_call w c) (cleared st) st').
  { eapply grows_trans.
    - eapply grows_weaken; [| exact G1]. intros c ->. reflexivity.
    - eapply grows_weaken; [| exact (flush_if_grows _ _ _ _ F)].
      intros c ->. apply orb_true_r. }
  apply cleared_grows in G. destruct G as [(cs & Hcs & HP) Hf]. split.
  - exists cs. split; [exact Hcs|]. intros c Hin. apply filtered_run_calls. now apply HP.
  - intros p x Hin. destruct (Hf p x Hin) as [? | E]; [now left | right].
    now apply filtered_run_files in E.
Qed.

(** C1. A spam filter response that passes response validation and has
    STOP in it, in any letter case, ends the run with the result whose
    status is filtered: the run returns (no exception), calls no
    transformation or scoring stage and writes no file in the output
    directory; the only file it may add is the log file. *)
Theorem stop_response_filters w content save_output save_logs st r :
  validate_environment w = true ->
  validate_discussion_content content = true ->
  answer w CallSpamfilterAgent = Returned tt ->
  answer w CallSpamFilterTask = Returned tt ->
  spam_result w = Returned r ->
  validate_agent_response r = true ->
  contains_any_case $"STOP" r = true ->
  exists st',
    process_discussion w content save_output save_logs st
      = (Returned filtered_result, st') /\
    dict_get $"status" filtered_result = Some (VStr $"filtered") /\
    (exists cs, calls st' = calls st ++ cs /\
       forall c, In c cs ->
         is_transformation_call c = false /\ is_scoring_call c = false /\
         is_write_in (output_dir w) c = false) /\
    (forall p x, In (p, x) (files st') -> In (p, x) (files st) \/ p = log_path w).
Proof.
  intros He Hc Ha Ht Hr Hv Hs.
  assert (V : spam_verdict w = false).
  { unfold spam_verdict. rewrite Ha, Ht, Hr, Hv.
    rewrite (contains_any_case_upper $"STOP" r); [reflexivity | reflexivity | exact Hs]. }
  destruct (filtered_run w content save_output save_logs st He Hc V)
    as (st' & E & Hcalls & Hfiles).
  exists st'. repeat split; assumption.
Qed.

Lemma stop_response_filters_witness :
  exists st',
    process_discussion
      (sample_world (Returned $"Stop this is an advertisement") (Returned None) (Raised []))
      sample_content true true initial_state
      = (Returned filtered_result, st') /\
    dict_get $"status" filtered_result = Some (VStr $"filtered") /\
    (exists cs, calls st' = calls initial_state ++ cs /\
       forall c, In c cs ->
         is_transformation_call c = false /\ is_scoring_call c = false /\
         is_write_in
           (output_dir (sample_world (Returned $"Stop this is an advertisement")
                          (Returned None) (Raised []))) c = false) /\
    (forall p x, In (p, x) (files st') ->
       In (p, x) (files initial_state) \/
       p = log_path (sample_world (Returned $"Stop this is an advertisement")
                       (Returned None) (Raised []))).
Proof.
  apply (stop_response_filters
           (sample_world (Returned $"Stop this is an advertisement") (Returned None) (Raised []))
           sample_content true true initial_state $"Stop this is an advertisement");
    reflexivity.
Defined.

(** ** A failing spam filter stage *)

(** C2, as stated, fails: when the spam filter stage raises, the run ends
    with the filtered result, which is no error result. *)
Lemma spam_failure_is_filtered_counterexample :
  fst (process_discussion spam_raises_world sample_content true true initial_state)
    = Returned filtered_result /\
  ~ (exists error_msg,
       fst (process_discussion spam_raises_world sample_content true true initial_state)
         = Returned (error_result error_msg)).
Proof.
  assert (E : fst (process_discussion spam_raises_world sample_content true true
                     initial_state) = Returned filtered_result) by reflexivity.
  split; [exact E|]. intros [msg H]. rewrite E in H. discriminate.
Qed.

(** C2, amended. When the spam filter stage raises or returns a response
    that fails response validation, [run_spam_filter] returns false and the
    run ends, without an exception, with the same filtered result as an
    explicit rejection (there is no error key in it); no transformation or
    scoring stage is called and no output file is written. *)
Theorem spam_failure_is_filtered w content save_output save_logs st :
  validate_environment w = true ->
  validate_discussion_content content = true ->
  spam_stage_fails w = true ->
  (forall st0, fst (run_spam_filter w st0) = Returned false) /\
  exists st',
    process_discussion w content save_output save_logs st
      = (Returned filtered_result, st') /\
    dict_get $"status" filtered_result = Some (VStr $"filtered") /\
    dict_has $"error" filtered_result = false /\
    (exists cs, calls st' = calls st ++ cs /\
       forall c, In c cs ->
         is_transformation_call c = false /\ is_scoring_call c = false /\
         is_write_in (output_dir w) c = false) /\
    (forall p x, In (p, x) (files st') -> In (p, x) (files st) \/ p = log_path w).
Proof.
  intros He Hc Hf.
  assert (V : spam_verdict w = false).
  { unfold spam_stage_fails in Hf. unfold spam_verdict.
    destruct (answer w CallSpamfilterAgent); [| reflexivity].
    destruct (answer w CallSpamFilterTask); [| reflexivity].
    destruct (spam_result w) as [r |]; [| reflexivity].
    apply negb_true_iff in Hf. now rewrite Hf. }
  split.
  - intros st0. pose proof (run_spam_filter_post w st0
      (fun o _ => o = Returned (spam_verdict w)) (fun _ _ => eq_refl)) as H.
    unfold post in H. now rewrite H, V.
  - destruct (filtered_run w content save_output save_logs st He Hc V)
      as (st' & E & Hcalls & Hfiles).
    exists st'. repeat split; assumption.
Qed.

Lemma spam_failure_is_filtered_witness :
  (forall st0, fst (run_spam_filter spam_raises_world st0) = Returned false) /\
  exists st',
    process_discussion spam_raises_world sample_content true true initial_state
      = (Returned filtered_result, st') /\
    dict_get $"status" filtered_result = Some (VStr $"filtered") /\
    dict_has $"error" filtered_result = false /\
    (exists cs, calls st' = calls initial_state ++ cs /\
       forall c, In c cs ->
         is_transformation_call c = false /\ is_scoring_call c = false /\
         is_write_in (output_dir spam_raises_world) c = false) /\
    (forall p x, In (p, x) (files st') ->
       In (p, x) (files initial_state) \/ p = log_path spam_raises_world).
Proof.
  apply (spam_failure_is_filtered spam_raises_world sample_content true true initial_state);
    reflexivity.
Defined.

(** ** The log flush *)

(** C7, as stated, fails: with [save_logs] on, a run on a content that
    fails the content check (the environment being in order) ends in the
    error result of that check and writes no file at all. *)
Lemma log_flush_every_run_counterexample :
  let w := sample_world (Returned $"This content looks fine to me")
             (Returned sample_dialogue) (Returned $"8/10 a lively dialogue") in
  let run := process_discussion w $"too short" true true initial_state in
  validate_environment w = true /\
  fst run = Returned (error_result $"Invalid or insufficient discussion content (minimum 100 characters, meaningful content required)") /\
  files (snd run) = [] /\ calls (snd run) = [] /\
  ~ (exists path content, In (CallWrite path content) (calls (snd run))).
Proof.
  cbv zeta. split; [reflexivity|]. split; [reflexivity|].
  split; [reflexivity|]. split; [reflexivity|].
  intros (p & x & H). exact H.
Qed.

Lemma flush_step_flushed w st0 st st' :
  (exists cs, calls st = calls st0 ++ cs) -> log_buffer st <> [] ->
  flush_step w st st' -> log_flushed w [] st0 st'.
Proof.
  intros [cs Hcs] Hne [Hl (mk & _ & Hc & Hf)].
  exists (log_buffer st), (cs ++ mk). split; [exact Hne|].
  split; [now rewrite app_nil_r|]. split; [rewrite Hc, Hcs, <- !app_assoc; reflexivity|].
  intros Ha. rewrite Ha in Hf. rewrite Hf. now exists (files st).
Qed.

Lemma no_call_nil cs : forallb no_call cs = true -> cs = [].
Proof. destruct cs; [reflexivity | discriminate]. Qed.

Lemma grows_no_call st st' :
  grows no_call st st' -> calls st' = calls st /\ files st' = files st.
Proof.
  intros [_ (cs & Hc & HP & fs & Hf & Hin)]. apply no_call_nil in HP. subst cs.
  rewrite app_nil_r in Hc. split; [exact Hc|].
  destruct fs as [| [p x] fs]; [exact Hf|]. destruct (Hin p x (or_introl eq_refl)).
Qed.

Lemma log_flushed_closed w es st0 st st' :
  log_flushed w [] st0 st -> closed_by es st st' -> log_flushed w es st0 st'.
Proof.
  intros (buf & cs & Hne & Hl & Hc & Hf) (El & Ec & Ef).
  rewrite app_nil_r in Hl.
  exists buf, cs. rewrite El, Hl, Ec, Ef. auto.
Qed.

(** C7, amended. With [save_logs] on, every run returns a result, and a
    run that gets past the environment check and the content check
    flushes the log buffer, whichever way it ends (filtered, success, or
    the error of a failed transformation): the last call of the run writes
    the buffer as it stands then, not empty, to the timestamped log file,
    and when that write returns the log file is the last file written.
    The buffer written is the whole log of the run, but for the two
    entries that close a successful run, which are appended after the
    flush.  A run that fails the environment check or the content check
    returns the error result of that check, makes no call and writes no
    file: it returns before any log flush. *)
Theorem log_flush_after_checks w content save_output st :
  let run := process_discussion w content save_output true st in
  fst run = Returned (pipeline_result w content save_output) /\
  (validate_environment w = true -> validate_discussion_content content = true ->
   log_flushed w (entries_after_flush w content save_output) st (snd run)) /\
  (validate_environment w = false \/ validate_discussion_content content = false ->
   (exists error_msg, fst run = Returned (error_result error_msg)) /\
   calls (snd run) = calls st /\ files (snd run) = files st).
Proof.
  intros run. subst run.
  pose proof (process_discussion_post w content save_output true st) as H.
  unfold post, run_shape in H.
  destruct (process_discussion w content save_output true st) as [o st'].
  cbn [fst snd] in *. destruct H as [-> H]. split; [reflexivity|]. split.
  - intros He Hc. rewrite He, Hc in H. cbn [negb orb] in H.
    destruct H as (st1 & G1 & H). unfold entries_after_flush.
    pose proof (grows_calls _ _ _ G1) as [c1 [C1 _]]. cbn [cleared calls] in C1.
    destruct (spam_verdict w); cbn [negb] in H.
    + destruct H as (st2 & G2 & H).
      pose proof (grows_calls _ _ _ G2) as [c2 [C2 _]].
      assert (E2 : exists cs, calls st2 = calls st ++ cs)
        by (exists (c1 ++ c2); rewrite C2, C1; now rewrite app_assoc).
      destruct (transformation_value w) as [[| x d] |].
      * destruct H as [N F]. eapply flush_step_flushed; eauto.
      * destruct H as (st3 & st4 & st5 & G3 & G4 & [N F] & G5).
        pose proof (grows_calls _ _ _ G3) as [c3 [C3 _]].
        pose proof (grows_calls _ _ _ G4) as [c4 [C4 _]].
        destruct E2 as [c12 E2]. eapply log_flushed_closed; [| exact G5].
        eapply flush_step_flushed; [| exact N | exact F].
        exists (c12 ++ c3 ++ c4). rewrite C4, C3, E2. now rewrite <- !app_assoc.
      * destruct H as [N F]. eapply flush_step_flushed; eauto.
    + destruct H as [N F]. eapply flush_step_flushed; eauto.
  - intros Hv.
    assert (E : negb (validate_environment w) || negb (validate_discussion_content content)
                = true).
    { destruct Hv as [-> | ->]; [reflexivity | apply orb_true_r]. }
    rewrite E in H. apply grows_no_call in H. cbn [cleared calls files] in H.
    split; [| exact H]. unfold pipeline_result.
    destruct (validate_environment w); cbn [negb]; [| eauto].
    destruct (validate_discussion_content content); cbn [negb]; [| eauto].
    destruct Hv; discriminate.
Qed.

Lemma log_flush_after_checks_witness :
  let w := sample_world (Returned $"This content looks fine to me")
             (Returned sample_dialogue) (Returned $"8/10 a lively dialogue") in
  let run := process_discussion w sample_content true true initial_state in
  let failed := process_discussion w $"too short" true true initial_state in
  (fst run = Returned (pipeline_result w sample_content true) /\
   log_flushed w (entries_after_flush w sample_content true) initial_state (snd run)) /\
  ((exists error_msg, fst failed = Returned (error_result error_msg)) /\
   calls (snd failed) = calls initial_state /\ files (snd failed) = files initial_state).
Proof.
  intros w. split.
  - pose proof (log_flush_after_checks w sample_content true initial_state) as (R & F & _).
    split; [exact R|]. apply F; reflexivity.
  - pose proof (log_flush_after_checks w $"too short" true initial_state) as (_ & _ & E).
    apply E. right. reflexivity.
Defined.

(** ** Scoring *)

Lemma transformation_value_nonempty w d : transformation_value w = Some d -> d <> [].
Proof.
  unfold transformation_value. cbv zeta. destruct (forallb _ _); [| discriminate].
  destruct (kickoff_result w) as [result |]; [| discriminate].
  destruct (validate_crew_result result); [| discriminate].
  set (cl := clean_dialogue _). destruct (is_empty (strip cl)) eqn:E; [discriminate|].
  intros H D. assert (C : cl = []) by congruence. rewrite C in E. discriminate.
Qed.

Lemma score_value_failed w d : scoring_stage_fails w d = true -> score_value w d = $"0".
Proof.
  unfold scoring_stage_fails, score_value. intros H.
  destruct (is_empty d || is_empty (strip d)); [reflexivity|].
  destruct (answer w CallScorerAgent); [| reflexivity].
  destruct (answer w (CallScoringTask d)); [| reflexivity].
  destruct (score_result w d) as [r |]; [| reflexivity].
  apply negb_true_iff in H. now rewrite H.
Qed.

(** C8. Scoring is not fatal.  (1) For an empty or whitespace-only
    dialogue [score_dialogue] returns the sentinel 0 and calls nothing.
    (2) When the scoring stage raises or its response fails validation,
    [score_dialogue] returns the sentinel 0.  (3) A run whose dialogue was
    produced and whose scoring stage fails still returns the success
    result, with score 0. *)
Theorem scoring_is_not_fatal w :
  (forall d st, is_empty d || is_empty (strip d) = true ->
     exists st', score_dialogue w d st = (Returned $"0", st') /\
                 calls st' = calls st /\ files st' = files st) /\
  (forall d st, scoring_stage_fails w d = true ->
     fst (score_dialogue w d st) = Returned $"0") /\
  (forall content save_output save_logs st d,
     validate_environment w = true ->
     validate_discussion_content content = true ->
     spam_verdict w = true ->
     transformation_value w = Some d ->
     scoring_stage_fails w d = true ->
     let result := success_result content d $"0" save_output in
     fst (process_discussion w content save_output save_logs st) = Returned result /\
     dict_get $"status" result = Some (VStr $"success") /\
     dict_get $"score" result = Some (VStr $"0")).
Proof.
  split; [| split].
  - intros d st Hb. pose proof (score_dialogue_blank w d st Hb) as H. unfold post in H.
    destruct (score_dialogue w d st) as [o st']. cbn [fst snd] in H.
    destruct H as (-> & Hc & Hf). exists st'. auto.
  - intros d st Hf.
    pose proof (score_dialogue_post w d st
      (fun o _ => o = Returned (score_value w d)) (fun _ _ => eq_refl)) as H.
    unfold post in H. now rewrite H, score_value_failed.
  - intros content save_output save_logs st d He Hc Hv Ht Hf result. subst result.
    split; [| split; reflexivity].
    pose proof (process_discussion_post w content save_output save_logs st) as [H _].
    rewrite H. unfold pipeline_result. rewrite He, Hc, Hv, Ht. cbn [negb].
    pose proof (transformation_value_nonempty w d Ht) as N.
    destruct d as [| x d]; [congruence|]. now rewrite score_value_failed.
Qed.

Lemma scoring_is_not_fatal_witness :
  (exists st', score_dialogue scorer_raises_world $"   " initial_state
                 = (Returned $"0", st') /\
               calls st' = calls initial_state /\ files st' = files initial_state) /\
  fst (score_dialogue scorer_raises_world $"Alice: hello. Bob: hello." initial_state)
    = Returned $"0" /\
  let result :=
    success_result sample_content
      $"Alice: The release is slower. Bob: Please post the numbers." $"0" true in
  fst (process_discussion scorer_raises_world sample_content true true initial_state)
    = Returned result /\
  dict_get $"status" result = Some (VStr $"success") /\
  dict_get $"score" result = Some (VStr $"0").
Proof.
  destruct (scoring_is_not_fatal scorer_raises_world) as (H1 & H2 & H3).
  split; [apply H1; reflexivity|]. split; [apply H2; reflexivity|].
  apply H3; reflexivity.
Defined.

(** ** Saving *)

(** C10. [save_result] with empty content returns false and leaves the
    state as it is: no directory is created, no file is written, no log
    entry is added, and nothing is raised. *)
Theorem save_result_empty_content w filename st :
  save_result w [] filename st = (Returned false, st) /\
  calls (snd (save_result w [] filename st)) = calls st /\
  files (snd (save_result w [] filename st)) = files st.
Proof. repeat split. Qed.

(** ** Stripping *)

Section Strip.
Variable p : ascii -> bool.

Lemma lstrip_by_snoc (a : str) (c : ascii) :
  lstrip_by p (a ++ [c]) =
  match lstrip_by p a with
  | [] => if p c then [] else [c]
  | r => r ++ [c]
  end.
Proof.
  induction a as [| x a IH]; simpl; [reflexivity|].
  destruct (p x); [exact IH | reflexivity].
Qed.

(** [rstrip] by recursion from the left. *)
Lemma rstrip_by_cons (c : ascii) (s : str) :
  rstrip_by p (c :: s) =
  match rstrip_by p s with
  | [] => if p c then [] else [c]
  | r => c :: r
  end.
Proof.
  unfold rstrip_by. simpl rev. rewrite lstrip_by_snoc.
  destruct (lstrip_by p (rev s)) as [| y r].
  - simpl. destruct (p c); reflexivity.
  - rewrite rev_app_distr. remember (rev (y :: r)) as q eqn:E.
    destruct q; [| reflexivity].
    apply (f_equal (@length ascii)) in E. rewrite length_rev in E. discriminate.
Qed.

Lemma rstrip_by_nil : rstrip_by p [] = [].
Proof. reflexivity. Qed.

Lemma lstrip_by_head c r s : lstrip_by p s = c :: r -> p c = false.
Proof.
  induction s as [| x s IH]; simpl; [discriminate|].
  destruct (p x) eqn:E; [exact IH|]. intros H. inversion H; subst. exact E.
Qed.

Lemma lstrip_by_fix c s : p c = false -> lstrip_by p (c :: s) = c :: s.
Proof. intros H. simpl. now rewrite H. Qed.

Lemma lstrip_by_idem s : lstrip_by p (lstrip_by p s) = lstrip_by p s.
Proof.
  destruct (lstrip_by p s) as [| c r] eqn:E; [reflexivity|].
  apply lstrip_by_fix. exact (lstrip_by_head _ _ _ E).
Qed.

Lemma lstrip_by_all s : forallb p s = true -> lstrip_by p s = [].
Proof.
  induction s as [| x s IH]; simpl; [reflexivity|].
  destruct (p x); [exact IH | discriminate].
Qed.

Lemma lstrip_by_nil_all s : lstrip_by p s = [] -> forallb p s = true.
Proof.
  induction s as [| x s IH]; simpl; [reflexivity|].
  destruct (p x); [exact IH | discriminate].
Qed.

Lemma rstrip_by_all s : forallb p s = true -> rstrip_by p s = [].
Proof.
  intros H. unfold rstrip_by. rewrite lstrip_by_all; [reflexivity|].
  rewrite forallb_forall in *. intros x Hx. apply H. now apply in_rev.
Qed.

Lemma rstrip_by_nil_all s : rstrip_by p s = [] -> forallb p s = true.
Proof.
  unfold rstrip_by. intros H.
  assert (E : lstrip_by p (rev s) = []).
  { apply (f_equal (@rev ascii)) in H. now rewrite rev_involutive in H. }
  apply lstrip_by_nil_all in E. rewrite forallb_forall in *.
  intros x Hx. apply E. now apply in_rev in Hx.
Qed.

Lemma rstrip_by_idem s : rstrip_by p (rstrip_by p s) = rstrip_by p s.
Proof.
  unfold rstrip_by. now rewrite rev_involutive, lstrip_by_idem.
Qed.

(** The last character of a right-stripped text is not stripped. *)
Lemma rstrip_by_last s c r : rev (rstrip_by p s) = c :: r -> p c = false.
Proof.
  unfold rstrip_by. rewrite rev_involutive. apply lstrip_by_head.
Qed.

(** Stripping on the right keeps a head that is not stripped. *)
Lemma rstrip_by_keeps_head c s :
  p c = false -> exists r, rstrip_by p (c :: s) = c :: r.
Proof.
  intros H. rewrite rstrip_by_cons. destruct (rstrip_by p s); [rewrite H|]; eauto.
Qed.

Lemma strip_by_head c r s : strip_by p s = c :: r -> p c = false.
Proof.
  unfold strip_by. destruct (lstrip_by p s) as [| x u] eqn:E; [discriminate|].
  pose proof (lstrip_by_head _ _ _ E) as Hx.
  destruct (rstrip_by_keeps_head x u Hx) as [r' Hr]. rewrite Hr.
  intros H. inversion H; subst. exact Hx.
Qed.

Lemma strip_by_last c r s : rev (strip_by p s) = c :: r -> p c = false.
Proof. unfold strip_by. apply rstrip_by_last. Qed.

Lemma lstrip_by_incl s c : In c (lstrip_by p s) -> In c s.
Proof.
  induction s as [| x s IH]; simpl; [auto|].
  destruct (p x); [intros H; right; auto | auto].
Qed.

Lemma rstrip_by_incl s c : In c (rstrip_by p s) -> In c s.
Proof.
  unfold rstrip_by. intros H. apply in_rev in H. apply lstrip_by_incl in H.
  now apply in_rev in H.
Qed.

Lemma strip_by_incl s c : In c (strip_by p s) -> In c s.
Proof. unfold strip_by. intros H. now apply lstrip_by_incl, rstrip_by_incl. Qed.

(** A text that neither starts nor ends with a stripped character is
    its own strip. *)
Lemma rstrip_by_fix s c r : rev s = c :: r -> p c = false -> rstrip_by p s = s.
Proof.
  intros E H. unfold rstrip_by. rewrite E, lstrip_by_fix by exact H.
  rewrite <- E. apply rev_involutive.
Qed.

Lemma strip_by_idem s : strip_by p (strip_by p s) = strip_by p s.
Proof.
  destruct (strip_by p s) as [| c r] eqn:E; [reflexivity|].
  pose proof (strip_by_head _ _ _ E) as Hc.
  unfold strip_by at 1. rewrite lstrip_by_fix by exact Hc.
  rewrite <- E. unfold strip_by. apply rstrip_by_idem.
Qed.

(** What stripping removes: a prefix and a suffix of characters of the
    class. *)
Lemma lstrip_by_split s :
  exists pre, s = pre ++ lstrip_by p s /\ forallb p pre = true.
Proof.
  induction s as [| x s IH]; [now exists []|]. cbn [lstrip_by].
  destruct (p x) eqn:E; [| now exists []].
  destruct IH as (pre & E1 & E2). exists (x :: pre). cbn [app forallb].
  rewrite E, E2, <- E1. auto.
Qed.

Lemma rstrip_by_split s :
  exists post, s = rstrip_by p s ++ post /\ forallb p post = true.
Proof.
  unfold rstrip_by. destruct (lstrip_by_split (rev s)) as (pre & E1 & E2).
  exists (rev pre). split.
  - rewrite <- rev_app_distr, <- E1. now rewrite rev_involutive.
  - rewrite forallb_forall in *. intros c Hc. apply E2, in_rev, Hc.
Qed.

Lemma strip_by_split s :
  exists pre post,
    s = pre ++ strip_by p s ++ post /\
    forallb p pre = true /\ forallb p post = true.
Proof.
  destruct (lstrip_by_split s) as (pre & E1 & E2).
  destruct (rstrip_by_split (lstrip_by p s)) as (post & E3 & E4).
  exists pre, post. unfold strip_by. rewrite <- E3, <- E1. auto.
Qed.
End Strip.

(** ** Substitution of a character class *)

Lemma sub_from_class p repl i s :
  sub_from (Class p) repl 0 i s = flat_map (fun c => if p c then repl else [c]) s.
Proof.
  revert i. induction s as [| c s IH]; intros i; [reflexivity|].
  cbn [sub_from flat_map]. unfold match_at. cbn [rmatch].
  destruct (p c).
  - replace (Nat.ltb i (S i)) with true by (symmetry; apply Nat.ltb_lt; lia).
    replace (S i - i - 1) with 0 by lia. now rewrite IH.
  - now rewrite IH.
Qed.

Lemma re_sub_invalid filename :
  re_sub re_invalid $"_" filename
  = map (fun c => if is_invalid_char c then "_"%char else c) filename.
Proof.
  unfold re_sub, re_invalid. rewrite sub_from_class.
  induction filename as [| c s IH]; [reflexivity|]. cbn [flat_map map].
  rewrite IH. destruct (is_invalid_char c); reflexivity.
Qed.

Lemma re_sub_invalid_clean filename c :
  In c (re_sub re_invalid $"_" filename) -> is_invalid_char c = false.
Proof.
  rewrite re_sub_invalid. intros H. apply in_map_iff in H.
  destruct H as (x & E & _). destruct (is_invalid_char x) eqn:Hx; subst c;
    [reflexivity | exact Hx].
Qed.

(** ** Where [save_result] writes *)

Lemma save_result_path w content filename st p x :
  In (CallWrite p x) (skipn (length (calls st)) (calls (snd (save_result w content filename st)))) ->
  p = path_join (output_dir w) (sanitize_filename filename).
Proof.
  set (target := path_join (output_dir w) (sanitize_filename filename)).
  set (P := fun c => match c with CallWrite q _ => str_eqb q target | _ => true end).
  assert (G : post (save_result w content filename) st (fun _ st' => grows P st st')).
  { unfold save_result. destruct (is_empty content); wp; [apply grows_refl|].
    apply ensure_directories_post. intros st1 G1 _ _.
    assert (G : grows P st st1).
    { revert G1. apply grows_weaken. intros [] H; try discriminate H. reflexivity. }
    fold target. wp.
    assert (W : P (CallWrite target content) = true) by apply str_eqb_refl.
    destruct (answer w (CallWrite target content)) as [[] | e]; wp.
    - now apply grows_write.
    - now apply grows_call. }
  unfold post in G. apply grows_calls in G. destruct G as (cs & Hc & HP).
  rewrite Hc, skipn_app, skipn_all, Nat.sub_diag. simpl. intros Hin.
  apply HP in Hin. now apply str_eqb_eq in Hin.
Qed.

(** C9. For every file name, [sanitize_filename] gives a text that is
    not empty and that is made from the name in this way: each of the nine
    characters < > : double quote / \ | ? * is replaced by an underscore
    and every other character is kept; of that text the dots and spaces at
    the start and at the end are removed; and the word output is given
    when nothing is left.  So none of the nine characters is in the result
    (in particular neither slash nor backslash), the result neither starts
    nor ends with a dot or a space, and a file that [save_result] writes is
    the one of that name directly in the output directory. *)
Theorem sanitize_filename_safe filename :
  let safe := sanitize_filename filename in
  let replaced := map (fun c => if is_invalid_char c then "_"%char else c) filename in
  safe <> [] /\
  (forall c, is_invalid_char c = true <->
     In c ["<"; ">"; ":"; ascii_of_nat 34; "/"; "\"; "|"; "?"; "*"]) /\
  (exists dots core dots',
     replaced = dots ++ core ++ dots' /\
     forallb is_dot_or_space dots = true /\
     forallb is_dot_or_space dots' = true /\
     safe = match core with [] => $"output" | _ :: _ => core end) /\
  (forall c, In c safe -> is_invalid_char c = false) /\
  (forall c, In c safe -> c <> "/"%char /\ c <> "\"%char) /\
  (forall c r, safe = c :: r -> is_dot_or_space c = false) /\
  (forall c r, rev safe = c :: r -> is_dot_or_space c = false) /\
  (forallb is_dot_or_space replaced = true -> safe = $"output") /\
  (forall w content st p x,
     In (CallWrite p x)
        (skipn (length (calls st)) (calls (snd (save_result w content filename st)))) ->
     p = output_dir w ++ $"/" ++ safe).
Proof.
  intros safe replaced.
  assert (Hclean : forall c, In c safe -> is_invalid_char c = false).
  { subst safe. unfold sanitize_filename. intros c.
    destruct (strip_by is_dot_or_space (re_sub re_invalid $"_" filename)) as [| y u] eqn:E.
    - intros H. simpl in H. repeat (destruct H as [<- | H]; [reflexivity|]). destruct H.
    - rewrite <- E. intros H. apply strip_by_incl in H.
      now apply re_sub_invalid_clean in H. }
  assert (Hdef : safe = match strip_by is_dot_or_space replaced with
                        | [] => $"output"
                        | _ :: _ => strip_by is_dot_or_space replaced
                        end).
  { subst safe replaced. unfold sanitize_filename. now rewrite re_sub_invalid. }
  split; [| split; [| split; [| split; [| split; [| split; [| split; [| split]]]]]]].
  - rewrite Hdef. destruct (strip_by is_dot_or_space replaced); discriminate.
  - intros c. unfold is_invalid_char. rewrite existsb_exists. split.
    + intros (x & Hx & E). apply Ascii.eqb_eq in E. now subst x.
    + intros H. exists c. split; [exact H | apply Ascii.eqb_refl].
  - destruct (strip_by_split is_dot_or_space replaced) as (dots & dots' & E & D1 & D2).
    exists dots, (strip_by is_dot_or_space replaced), dots'. auto.
  - exact Hclean.
  - intros c H. apply Hclean in H. split; intros ->; discriminate H.
  - subst safe. unfold sanitize_filename. intros c r.
    destruct (strip_by is_dot_or_space (re_sub re_invalid $"_" filename)) as [| y u] eqn:E.
    + intros H. inversion H. reflexivity.
    + rewrite <- E. apply strip_by_head.
  - subst safe. unfold sanitize_filename. intros c r.
    destruct (strip_by is_dot_or_space (re_sub re_invalid $"_" filename)) as [| y u] eqn:E.
    + intros H. inversion H. reflexivity.
    + rewrite <- E. apply strip_by_last.
  - intros H. rewrite Hdef. unfold strip_by.
    now rewrite (lstrip_by_all _ _ H).
  - intros w content st p x. apply save_result_path.
Qed.

(** ** Blank texts and the lines of a text *)

Lemma newline_is_space : is_space newline = true.
Proof. reflexivity. Qed.

Lemma strip_empty (s : str) : is_empty (strip s) = is_blank s.
Proof.
  unfold is_blank, is_empty, strip, strip_by.
  destruct (forallb is_space s) eqn:E.
  - now rewrite (lstrip_by_all _ _ E).
  - destruct (rstrip_by is_space (lstrip_by is_space s)) eqn:R; [| reflexivity].
    apply rstrip_by_nil_all in R.
    destruct (lstrip_by is_space s) as [| c u] eqn:L.
    + apply lstrip_by_nil_all in L. congruence.
    + apply lstrip_by_head in L. simpl in R. rewrite L in R. discriminate.
Qed.

Lemma split_profile (s : str) :
  exists l ls, split newline s = l :: ls /\
    line_profile s = (negb (is_blank l),
                      length (filter (fun line => negb (is_blank line)) ls)).
Proof.
  induction s as [| c s (l & ls & Hs & Hp)].
  - exists [], []. split; reflexivity.
  - cbn [split line_profile fold_right]. fold (line_profile s).
    rewrite Hs, Hp. unfold line_step. destruct (Ascii.eqb c newline) eqn:E.
    + exists [], (l :: ls). split; [reflexivity|]. cbn [fst snd filter].
      destruct (negb (is_blank l)); reflexivity.
    + exists (c :: l), ls. split; [reflexivity|]. cbn [fst snd]. unfold is_blank.
      cbn [forallb]. now rewrite negb_andb.
Qed.

Lemma count_profile (s : str) :
  count_nonblank_lines s = Nat.b2n (fst (line_profile s)) + snd (line_profile s).
Proof.
  unfold count_nonblank_lines. destruct (split_profile s) as (l & ls & -> & ->).
  cbn [filter fst snd]. destruct (negb (is_blank l)); reflexivity.
Qed.

Lemma line_profile_blank (s : str) : is_blank s = true -> line_profile s = (false, 0).
Proof.
  induction s as [| c s IH]; [reflexivity|]. cbn [is_blank forallb]. intros H.
  apply andb_true_iff in H. destruct H as [Hc Hs].
  cbn [line_profile fold_right]. fold (line_profile s). rewrite (IH Hs).
  unfold line_step. rewrite Hc. destruct (Ascii.eqb c newline); reflexivity.
Qed.

Lemma line_profile_rstrip (s : str) :
  line_profile (rstrip_by is_space s) = line_profile s.
Proof.
  induction s as [| c s IH]; [reflexivity|]. rewrite rstrip_by_cons.
  destruct (rstrip_by is_space s) as [| y r] eqn:R.
  - apply rstrip_by_nil_all in R. change (line_profile (c :: s)) with (line_step c (line_profile s)).
    rewrite (line_profile_blank s R). destruct (is_space c) eqn:Hc; [| reflexivity].
    unfold line_step. rewrite Hc. destruct (Ascii.eqb c newline); reflexivity.
  - change (line_profile (c :: y :: r)) with (line_step c (line_profile (y :: r))).
    now rewrite IH.
Qed.

Lemma count_lstrip (s : str) :
  count_nonblank_lines (lstrip_by is_space s) = count_nonblank_lines s.
Proof.
  induction s as [| c s IH]; [reflexivity|]. cbn [lstrip_by].
  destruct (is_space c) eqn:Hc; [| reflexivity]. rewrite IH, !count_profile.
  change (line_profile (c :: s)) with (line_step c (line_profile s)).
  unfold line_step. rewrite Hc. destruct (Ascii.eqb c newline); cbn [fst snd negb orb];
    [| reflexivity].
  reflexivity.
Qed.

Lemma count_strip (s : str) : count_nonblank_lines (strip s) = count_nonblank_lines s.
Proof.
  unfold strip, strip_by. rewrite count_profile, line_profile_rstrip, <- count_profile.
  apply count_lstrip.
Qed.

Lemma lstrip_by_length p (s : str) : length (lstrip_by p s) <= length s.
Proof.
  induction s as [| c s IH]; simpl; [lia|]. destruct (p c); simpl; lia.
Qed.

Lemma strip_length (s : str) : length (strip s) <= length s.
Proof.
  unfold strip, strip_by, rstrip_by. rewrite length_rev.
  etransitivity; [apply lstrip_by_length|]. rewrite length_rev. apply lstrip_by_length.
Qed.

(** The validator is the rejection rule, negated. *)
Lemma validate_discussion_content_rule (content : str) :
  validate_discussion_content content = negb (content_rejected content).
Proof.
  unfold validate_discussion_content, content_rejected.
  destruct content as [| c s]; [reflexivity|]. set (x := c :: s).
  pose proof (strip_empty x) as Hb. unfold is_empty in Hb.
  destruct (strip x) as [| y u] eqn:E.
  - cbn [length Nat.eqb] in Hb. now rewrite <- Hb.
  - cbn [length Nat.eqb] in Hb. rewrite <- Hb. cbn [orb]. rewrite <- E.
    destruct (Nat.ltb (length (strip x)) 100); [reflexivity|]. cbn [orb].
    rewrite length_map, <- (count_strip x). unfold count_nonblank_lines.
    replace (filter (fun line => negb (Nat.eqb (length (strip line)) 0))
               (split newline (strip x)))
      with (filter (fun line => negb (is_blank line)) (split newline (strip x))).
    + destruct (Nat.ltb _ 3); reflexivity.
    + apply filter_ext. intros l. now rewrite <- strip_empty.
Qed.

(** C6. [validate_discussion_content] returns false exactly when the
    input is empty or whitespace-only, or has fewer than 100 characters
    once trimmed, or has fewer than 3 lines that are not blank.  A text of
    99 characters is rejected, whatever it is (so is the single line of 99
    letters); the sample discussion, 150 characters in 4 lines, is
    accepted. *)
Theorem validate_discussion_content_exact :
  (forall content,
     validate_discussion_content content = false <->
     is_blank content = true \/
     length (strip content) < 100 \/
     count_nonblank_lines content < 3) /\
  (forall content, length content = 99 -> validate_discussion_content content = false) /\
  (length (repeat "a"%char 99) = 99 /\
   length (split newline (repeat "a"%char 99)) = 1 /\
   validate_discussion_content (repeat "a"%char 99) = false) /\
  (length sample_content = 150 /\
   length (split newline sample_content) = 4 /\
   validate_discussion_content sample_content = true).
Proof.
  split; [| split; [| split]].
  - intros content. rewrite validate_discussion_content_rule. unfold content_rejected.
    rewrite negb_false_iff, !orb_true_iff, !Nat.ltb_lt. tauto.
  - intros content H. rewrite validate_discussion_content_rule. unfold content_rejected.
    pose proof (strip_length content) as L.
    replace (Nat.ltb (length (strip content)) 100) with true
      by (symmetry; apply Nat.ltb_lt; lia).
    now rewrite orb_true_r.
  - repeat split.
  - repeat split.
Qed.

(** ** Greedy repetition *)

Section Greedy.
Context {R : Type}.
Variable p : ascii -> bool.

Lemma take_while_lstrip (s : str) : take_while p s ++ lstrip_by p s = s.
Proof.
  induction s as [| c s IH]; [reflexivity|]. simpl.
  destruct (p c); [simpl; now rewrite IH | reflexivity].
Qed.

Lemma firstn_take_while (s : str) :
  firstn (length (take_while p s)) s = take_while p s.
Proof.
  induction s as [| c s IH]; [reflexivity|]. simpl.
  destruct (p c); [simpl; now rewrite IH | reflexivity].
Qed.

(** When what follows the repetition accepts the longest run, that is
    the match. *)
Lemma star_c_greedy (k : nat -> str -> option R) i s x :
  k (i + length (take_while p s)) (lstrip_by p s) = Some x ->
  star_c p i s k = Some x.
Proof.
  revert i. induction s as [| c s IH]; intros i; simpl.
  - now rewrite Nat.add_0_r.
  - destruct (p c); simpl.
    + rewrite <- plus_n_Sm. intros H. now rewrite (IH (S i) H).
    + now rewrite Nat.add_0_r.
Qed.

(** When what follows the repetition rejects every text that starts
    with a character of the class, giving back characters cannot help:
    only the longest run is tried with a chance. *)
Lemma star_c_longest (k : nat -> str -> option R) i s :
  (forall j d t, p d = true -> k j (d :: t) = None) ->
  star_c p i s k = k (i + length (take_while p s)) (lstrip_by p s).
Proof.
  intros K. revert i. induction s as [| c s IH]; intros i; simpl.
  - now rewrite Nat.add_0_r.
  - destruct (p c) eqn:E; simpl.
    + rewrite IH, <- plus_n_Sm. simpl. rewrite (K i c s E).
      now destruct (k (S (i + length (take_while p s))) (lstrip_by p s)).
    + now rewrite Nat.add_0_r.
Qed.
End Greedy.

(** ** The three patterns of the score extractor *)

Section GroupPlus.
Context {R : Type}.
Variable p : ascii -> bool.

Lemma group_length i (c : ascii) (s : str) :
  firstn (S i + length (take_while p s) - i) (c :: s) = c :: take_while p s.
Proof.
  replace (S i + length (take_while p s) - i) with (S (length (take_while p s))) by lia.
  simpl. now rewrite firstn_take_while.
Qed.

Lemma rmatch_group_plus_longest i s caps (k : nat -> str -> list str -> option R) :
  (forall j x t cs, p x = true -> k j (x :: t) cs = None) ->
  rmatch (Group (PlusC p)) i s caps k =
  match s with
  | c :: s' =>
      if p c then k (S i + length (take_while p s')) (lstrip_by p s')
                    (caps ++ [c :: take_while p s'])
      else None
  | [] => None
  end.
Proof.
  intros K. destruct s as [| c s']; [reflexivity|]. cbn [rmatch].
  destruct (p c); [| reflexivity].
  rewrite star_c_longest by (intros; now apply K).
  now rewrite group_length.
Qed.

Lemma rmatch_group_plus_greedy i c s' caps (k : nat -> str -> list str -> option R) x :
  p c = true ->
  k (S i + length (take_while p s')) (lstrip_by p s') (caps ++ [c :: take_while p s'])
    = Some x ->
  rmatch (Group (PlusC p)) i (c :: s') caps k = Some x.
Proof.
  intros Hc H. cbn [rmatch]. rewrite Hc. apply star_c_greedy.
  now rewrite group_length.
Qed.
End GroupPlus.

Lemma digit_not_slash c : is_digit c = true -> Ascii.eqb c "/" = false.
Proof.
  intros H. apply Ascii.eqb_neq. intros ->. discriminate H.
Qed.

Lemma digit_not_newline c : is_digit c = true -> Ascii.eqb c newline = false.
Proof.
  intros H. apply Ascii.eqb_neq. intros ->. discriminate H.
Qed.

Lemma rmatch_cat {R} r1 r2 i s caps (k : nat -> str -> list str -> option R) :
  rmatch (Cat r1 r2) i s caps k
  = rmatch r1 i s caps (fun i' s' caps' => rmatch r2 i' s' caps' k).
Proof. reflexivity. Qed.

(** r"(\d+)" at one offset. *)
Lemma match_at_number i s :
  option_map group1 (match_at re_number i s) =
  match s with
  | c :: _ => if is_digit c then Some (take_while is_digit s) else None
  | [] => None
  end.
Proof.
  destruct s as [| c s']; [reflexivity|]. unfold match_at, re_number.
  destruct (is_digit c) eqn:E.
  - erewrite rmatch_group_plus_greedy; [| exact E | reflexivity].
    simpl. now rewrite E.
  - cbn [rmatch]. now rewrite E.
Qed.

Lemma search_number i s :
  option_map group1 (search_from re_number i s) = first_digit_run s.
Proof.
  revert i. induction s as [| c s IH]; intros i; [reflexivity|].
  cbn [search_from first_digit_run]. pose proof (match_at_number i (c :: s)) as M.
  destruct (match_at re_number i (c :: s)) as [m |]; cbn [option_map] in *.
  - destruct (is_digit c); [exact M | discriminate].
  - destruct (is_digit c); [discriminate | apply IH].
Qed.

(** r"(\d+)(?:/10|/\d+)" at one offset. *)
Lemma match_at_fraction i s :
  option_map group1 (match_at re_fraction i s) =
  match s with
  | c :: _ =>
      if is_digit c && slash_digit (lstrip_by is_digit s)
      then Some (take_while is_digit s) else None
  | [] => None
  end.
Proof.
  destruct s as [| c s']; [reflexivity|]. unfold match_at, re_fraction.
  rewrite rmatch_cat, rmatch_group_plus_longest.
  2:{ intros j x t cs Hx. cbn [rmatch]. now rewrite (digit_not_slash x Hx). }
  cbn [lstrip_by take_while]. destruct (is_digit c) eqn:E; [| reflexivity].
  cbn [andb app]. destruct (lstrip_by is_digit s') as [| a [| d t]]; try reflexivity.
  - cbn [rmatch slash_digit]. destruct (Ascii.eqb a "/"); reflexivity.
  - cbn [rmatch slash_digit]. destruct (Ascii.eqb a "/"); [| reflexivity].
    cbn [andb]. destruct (is_digit d) eqn:D.
    + destruct (Ascii.eqb d "1");
        [destruct t as [| z t']; [| destruct (Ascii.eqb z "0")] |];
        try reflexivity; (erewrite star_c_greedy by reflexivity; reflexivity).
    + assert (N1 : Ascii.eqb d "1" = false).
      { apply Ascii.eqb_neq. intros ->. discriminate D. }
      now rewrite N1.
Qed.

Lemma search_fraction i s :
  option_map group1 (search_from re_fraction i s) = first_numerator s.
Proof.
  revert i. induction s as [| c s IH]; intros i; [reflexivity|].
  cbn [search_from first_numerator]. pose proof (match_at_fraction i (c :: s)) as M.
  destruct (match_at re_fraction i (c :: s)) as [m |]; cbn [option_map] in *.
  - destruct (is_digit c && slash_digit _); [exact M | discriminate].
  - destruct (is_digit c && slash_digit _); [discriminate | apply IH].
Qed.

Lemma strip_trimmed (s : str) : trimmed (strip s).
Proof. intros c r. apply strip_by_last. Qed.

Lemma lstrip_by_nil_take p (s : str) : lstrip_by p s = [] -> take_while p s = s.
Proof.
  intros H. pose proof (take_while_lstrip p s) as E. rewrite H, app_nil_r in E. exact E.
Qed.

Lemma rmatch_bol {R} s caps (k : nat -> str -> list str -> option R) :
  rmatch Bol 0 s caps k = k 0 s caps.
Proof. reflexivity. Qed.

Lemma not_all_digits (s : str) z t :
  lstrip_by is_digit s = z :: t -> forallb is_digit s = false.
Proof.
  intros L. destruct (forallb is_digit s) eqn:F; [| reflexivity].
  rewrite (lstrip_by_all _ _ F) in L. discriminate.
Qed.

(** r"^(\d+)$" on a trimmed line. *)
Lemma match_standalone line :
  trimmed line ->
  option_map group1 (re_match re_standalone line) =
  if whole_number line then Some line else None.
Proof.
  intros T. unfold re_match, match_at, re_standalone.
  rewrite rmatch_cat, rmatch_bol, rmatch_cat, rmatch_group_plus_longest.
  2:{ intros j x [| y t] cs Hx; [| reflexivity]. cbn [rmatch].
      now rewrite (digit_not_newline x Hx). }
  destruct line as [| c s']; [reflexivity|]. unfold whole_number.
  cbn [is_empty length Nat.eqb negb forallb andb]. destruct (is_digit c); [| reflexivity].
  cbn [andb app]. destruct (lstrip_by is_digit s') as [| z [| y t]] eqn:L.
  - rewrite (lstrip_by_nil_take _ _ L). apply lstrip_by_nil_all in L. now rewrite L.
  - rewrite (not_all_digits _ _ _ L). cbn [rmatch].
    assert (Hz : is_space z = false).
    { apply (T z (rev (c :: take_while is_digit s'))).
      rewrite <- (take_while_lstrip is_digit s') at 1. rewrite L.
      change (c :: take_while is_digit s' ++ [z])
        with ((c :: take_while is_digit s') ++ [z]).
      now rewrite rev_app_distr. }
    destruct (Ascii.eqb z newline) eqn:N; [| reflexivity].
    apply Ascii.eqb_eq in N. subst z. discriminate Hz.
  - now rewrite (not_all_digits _ _ _ L).
Qed.

(** ** Printing a number and reading it back *)

Lemma digits_value_revapp (d d' : Decimal.uint) :
  fold_left (fun acc c => (10 * acc + digit_val c)%N)
    (String.list_ascii_of_string (DecimalString.NilEmpty.string_of_uint d))
    (DecimalPos.Unsigned.of_lu d')
  = DecimalPos.Unsigned.of_lu (Decimal.revapp d d').
Proof.
  revert d'.
  induction d as [| d IH | d IH | d IH | d IH | d IH | d IH | d IH | d IH | d IH | d IH];
    intros d'; [reflexivity | ..];
    cbn [DecimalString.NilEmpty.string_of_uint String.list_ascii_of_string fold_left
         Decimal.revapp];
    rewrite <- IH; f_equal; cbn [DecimalPos.Unsigned.of_lu];
    match goal with
    | |- context [digit_val ?c] =>
        let v := eval vm_compute in (digit_val c) in change (digit_val c) with v
    end; lia.
Qed.

Lemma digits_value_str_of_N (n : N) : digits_value (str_of_N n) = n.
Proof.
  unfold digits_value, str_of_N.
  pose proof (digits_value_revapp (N.to_uint n) Decimal.Nil) as H.
  change (DecimalPos.Unsigned.of_lu Decimal.Nil) with 0%N in H. rewrite H.
  fold (Decimal.rev (N.to_uint n)). rewrite <- DecimalPos.Unsigned.of_uint_alt.
  apply DecimalN.Unsigned.of_to.
Qed.

Lemma clamp_str_range (n : N) :
  In (clamp_str n) [$"1"; $"2"; $"3"; $"4"; $"5"; $"6"; $"7"; $"8"; $"9"; $"10"].
Proof.
  unfold clamp_str.
  remember (N.min (N.max n 1) 10) as m eqn:E.
  assert (H : (m = 1 \/ m = 2 \/ m = 3 \/ m = 4 \/ m = 5 \/ m = 6 \/ m = 7 \/ m = 8
               \/ m = 9 \/ m = 10)%N) by lia.
  clear E. repeat (destruct H as [-> | H]; [simpl; tauto|]). subst m. simpl. tauto.
Qed.

(** [int] converts up to the limit and raises beyond it. *)
Lemma int_of_digits_small (s : str) :
  length s <= int_max_str_digits -> int_of_digits s = Returned (digits_value s).
Proof.
  intros H. unfold int_of_digits.
  destruct (Nat.ltb int_max_str_digits (length s)) eqn:E; [| reflexivity].
  apply Nat.ltb_lt in E. lia.
Qed.

Lemma int_of_digits_large (s : str) :
  int_max_str_digits < length s -> exists msg, int_of_digits s = Raised msg.
Proof.
  intros H. unfold int_of_digits.
  destruct (Nat.ltb int_max_str_digits (length s)) eqn:E; [eauto|].
  apply Nat.ltb_ge in E. lia.
Qed.

Lemma int_of_digits_returned (s : str) (n : N) :
  int_of_digits s = Returned n -> n = digits_value s /\ length s <= int_max_str_digits.
Proof.
  unfold int_of_digits.
  destruct (Nat.ltb int_max_str_digits (length s)) eqn:E; [discriminate|].
  apply Nat.ltb_ge in E. intros H. inversion H. auto.
Qed.

Lemma clamped_range (digits score : str) :
  outcome_map clamp_str (int_of_digits digits) = Returned score ->
  In score [$"0"; $"1"; $"2"; $"3"; $"4"; $"5"; $"6"; $"7"; $"8"; $"9"; $"10"].
Proof.
  destruct (int_of_digits digits) as [n | e]; cbn [outcome_map]; intros H; inversion H.
  right. apply clamp_str_range.
Qed.

Lemma score_of_line_range (line score : str) :
  score_of_line line = Returned score ->
  In score [$"0"; $"1"; $"2"; $"3"; $"4"; $"5"; $"6"; $"7"; $"8"; $"9"; $"10"].
Proof.
  unfold score_of_line.
  destruct (whole_number line); [apply clamped_range|].
  destruct (first_numerator line); [apply clamped_range|].
  destruct (first_digit_run line); [apply clamped_range|].
  intros H. inversion H. now left.
Qed.

Lemma take_while_length p (s : str) : length (take_while p s) <= length s.
Proof.
  induction s as [| c s IH]; [reflexivity|]. cbn [take_while].
  destruct (p c); cbn [length]; lia.
Qed.

Lemma first_digit_run_length (s n : str) :
  first_digit_run s = Some n -> length n <= length s.
Proof.
  induction s as [| c s IH]; [discriminate|]. cbn [first_digit_run].
  destruct (is_digit c).
  - intros H. injection H as <-. apply (take_while_length is_digit (c :: s)).
  - intros H. apply IH in H. cbn [length]. lia.
Qed.

Lemma first_numerator_length (s n : str) :
  first_numerator s = Some n -> length n <= length s.
Proof.
  induction s as [| c s IH]; [discriminate|]. cbn [first_numerator].
  destruct (is_digit c && slash_digit (lstrip_by is_digit (c :: s))).
  - intros H. injection H as <-. apply (take_while_length is_digit (c :: s)).
  - intros H. apply IH in H. cbn [length]. lia.
Qed.

(** A line within the limit of [int] always gets a score. *)
Lemma score_of_line_returns (line : str) :
  length line <= int_max_str_digits -> exists score, score_of_line line = Returned score.
Proof.
  intros H. unfold score_of_line.
  destruct (whole_number line).
  - rewrite int_of_digits_small by exact H. cbn [outcome_map]. eauto.
  - destruct (first_numerator line) as [n |] eqn:E1.
    + apply first_numerator_length in E1.
      rewrite int_of_digits_small by lia. cbn [outcome_map]. eauto.
    + destruct (first_digit_run line) as [n |] eqn:E2; [| eauto].
      apply first_digit_run_length in E2.
      rewrite int_of_digits_small by lia. cbn [outcome_map]. eauto.
Qed.

(** The extractor computes the score of the first line. *)
Lemma extract_score_first_line (text : str) :
  extract_score text = score_of_line (first_line text).
Proof.
  unfold extract_score, first_line. destruct text as [| c0 s0]; [reflexivity|].
  destruct (split newline (strip (c0 :: s0))) as [| line0 rest]; [reflexivity|].
  cbn [hd]. set (line := strip line0). unfold score_of_line.
  pose proof (match_standalone line (strip_trimmed line0)) as M1.
  pose proof (search_fraction 0 line) as M2. pose proof (search_number 0 line) as M3.
  fold (re_search re_fraction line) in M2. fold (re_search re_number line) in M3.
  destruct (re_match re_standalone line) as [m1 |]; cbn [option_map] in M1.
  - destruct (whole_number line); [| discriminate]. now inversion M1.
  - destruct (whole_number line); [discriminate|].
    destruct (re_search re_fraction line) as [m2 |]; cbn [option_map] in M2.
    + rewrite <- M2. reflexivity.
    + rewrite <- M2.
      destruct (re_search re_number line) as [m3 |]; cbn [option_map] in M3;
        rewrite <- M3; reflexivity.
Qed.

(** ** The first line *)

Lemma split_line (line : str) : no_newline line = true -> split newline line = [line].
Proof.
  induction line as [| c s IH]; [reflexivity|]. cbn [no_newline forallb]. intros H.
  apply andb_true_iff in H. destruct H as [Hc Hs]. unfold not_char in Hc.
  apply negb_true_iff in Hc. cbn [split]. rewrite Hc. now rewrite (IH Hs).
Qed.

Lemma split_line_app (line rest : str) :
  no_newline line = true ->
  split newline (line ++ newline :: rest) = line :: split newline rest.
Proof.
  induction line as [| c s IH]; intros H.
  - cbn [app split]. now rewrite Ascii.eqb_refl.
  - cbn [no_newline forallb] in H. apply andb_true_iff in H. destruct H as [Hc Hs].
    unfold not_char in Hc. apply negb_true_iff in Hc.
    cbn [app split]. rewrite Hc. now rewrite (IH Hs).
Qed.

(** A text is its first line, alone or followed by a line feed and the
    rest. *)
Lemma split_first (text : str) :
  let line := hd [] (split newline text) in
  no_newline line = true /\
  (text = line \/ exists rest, text = line ++ newline :: rest).
Proof.
  induction text as [| c s IH]; [split; [reflexivity | now left]|].
  cbn [split]. destruct (Ascii.eqb c newline) eqn:E.
  - apply Ascii.eqb_eq in E. subst c. split; [reflexivity|]. right. now exists s.
  - cbv zeta in IH. destruct (split newline s) as [| l ls]; cbn [hd] in *.
    + split; [unfold no_newline; cbn [forallb]; unfold not_char; now rewrite E|].
      destruct IH as [_ [-> | [rest ->]]]; [now left | right; now exists rest].
    + destruct IH as [Hl IH].
      split; [unfold no_newline in *; cbn [forallb]; unfold not_char at 1; now rewrite E|].
      destruct IH as [-> | [rest ->]]; [now left | right; now exists rest].
Qed.

Lemma lstrip_by_app p (a b : str) :
  forallb p a = false -> lstrip_by p (a ++ b) = lstrip_by p a ++ b.
Proof.
  induction a as [| c a IH]; [discriminate|]. cbn [forallb app lstrip_by].
  destruct (p c); [exact IH | reflexivity].
Qed.

Lemma rstrip_by_app p (a b : str) :
  rstrip_by p (a ++ b) =
  match rstrip_by p b with
  | [] => rstrip_by p a
  | r => a ++ r
  end.
Proof.
  induction a as [| c a IH].
  - cbn [app]. now destruct (rstrip_by p b).
  - cbn [app]. rewrite rstrip_by_cons, IH. destruct (rstrip_by p b) as [| y r].
    + now rewrite rstrip_by_cons.
    + now destruct a.
Qed.

Lemma no_newline_incl (a b : str) :
  (forall c, In c a -> In c b) -> no_newline b = true -> no_newline a = true.
Proof.
  unfold no_newline. rewrite !forallb_forall. auto.
Qed.

Lemma strip_line (line : str) :
  no_newline line = true -> first_line line = strip line.
Proof.
  intros H. unfold first_line. rewrite split_line.
  - apply strip_by_idem.
  - eapply no_newline_incl; [| exact H]. intros c. apply strip_by_incl.
Qed.

(** What comes after a first line that is not blank does not count. *)
Lemma first_line_app (line rest : str) :
  no_newline line = true -> is_blank line = false ->
  first_line (line ++ newline :: rest) = strip line.
Proof.
  intros Hn Hb. unfold first_line, strip at 2, strip_by.
  rewrite lstrip_by_app by exact Hb. rewrite rstrip_by_app.
  set (u := lstrip_by is_space line).
  assert (Hu : no_newline u = true).
  { eapply no_newline_incl; [| exact Hn]. intros c. apply lstrip_by_incl. }
  rewrite rstrip_by_cons. rewrite newline_is_space.
  destruct (rstrip_by is_space rest) as [| y r].
  - fold (strip_by is_space line). fold (strip line). apply strip_line in Hn.
    exact Hn.
  - rewrite split_line_app by exact Hu. cbn [hd]. unfold strip, strip_by.
    subst u. now rewrite lstrip_by_idem.
Qed.

(** When the first line of a text is not blank, it is the line the
    extractor reads. *)
Lemma first_line_literal (text : str) :
  is_blank (hd [] (split newline text)) = false ->
  first_line text = literal_first_line text.
Proof.
  intros Hb. unfold literal_first_line.
  destruct (split_first text) as [Hn [E | [rest E]]];
    set (line := hd [] (split newline text)) in *.
  - rewrite E at 1. now apply strip_line.
  - rewrite E at 1. now apply first_line_app.
Qed.

Lemma not_space_not_newline x : is_space x = false -> not_char newline x = true.
Proof.
  intros H. unfold not_char. apply negb_true_iff. apply Ascii.eqb_neq. intros ->.
  discriminate H.
Qed.

(** ** The digits of a printed number *)

Lemma digits_of_uint (d : Decimal.uint) :
  forallb is_digit
    (String.list_ascii_of_string (DecimalString.NilEmpty.string_of_uint d)) = true.
Proof. induction d; cbn; auto. Qed.

Lemma str_of_N_digits (n : N) : forallb is_digit (str_of_N n) = true.
Proof. apply digits_of_uint. Qed.

Lemma str_of_N_nonempty (n : N) : str_of_N n <> [].
Proof.
  unfold str_of_N. destruct n as [| p]; [discriminate|].
  pose proof (DecimalPos.Unsigned.to_uint_nonnil p) as H. cbn [N.to_uint].
  destruct (Pos.to_uint p); [congruence | discriminate ..].
Qed.

Lemma digit_not_space c : is_digit c = true -> is_space c = false.
Proof.
  intros H. apply ascii_in_spec in H. unfold is_space.
  apply orb_false_iff. split; apply not_true_is_false; intros E;
    apply ascii_in_spec in E; lia.
Qed.

Lemma strip_fixed (s : str) :
  forallb (fun c => negb (is_space c)) s = true -> strip s = s.
Proof.
  intros H. destruct s as [| c s]; [reflexivity|].
  rewrite forallb_forall in H. unfold strip, strip_by.
  rewrite lstrip_by_fix by (apply negb_true_iff, H; now left).
  destruct (rev (c :: s)) as [| y r] eqn:E.
  - apply (f_equal (@length ascii)) in E. rewrite length_rev in E. discriminate.
  - apply (rstrip_by_fix _ _ y r E). apply negb_true_iff, H.
    apply in_rev. rewrite E. now left.
Qed.

Lemma digits_line (s : str) :
  s <> [] -> forallb is_digit s = true ->
  strip s = s /\ no_newline s = true /\ is_blank s = false /\ whole_number s = true.
Proof.
  intros N D. rewrite forallb_forall in D. split; [| split; [| split]].
  - apply strip_fixed. apply forallb_forall. intros c Hc.
    apply negb_true_iff, digit_not_space, D, Hc.
  - apply forallb_forall. intros c Hc. apply not_space_not_newline, digit_not_space, D, Hc.
  - destruct s as [| c s]; [congruence|]. unfold is_blank. cbn [forallb].
    rewrite (digit_not_space c) by (apply D; now left). reflexivity.
  - unfold whole_number. destruct s as [| c s]; [congruence|].
    cbn [is_empty length Nat.eqb negb andb]. apply forallb_forall, D.
Qed.

(** A text that is a number, alone or as the first line of a longer text,
    is read as a whole by [int]. *)
Lemma extract_score_digits (s rest : str) :
  s <> [] -> forallb is_digit s = true ->
  extract_score s = outcome_map clamp_str (int_of_digits s) /\
  extract_score (s ++ newline :: rest) = outcome_map clamp_str (int_of_digits s).
Proof.
  intros N D. destruct (digits_line s N D) as (S & L & B & W).
  assert (E : score_of_line s = outcome_map clamp_str (int_of_digits s)).
  { unfold score_of_line. now rewrite W. }
  rewrite !extract_score_first_line.
  now rewrite (strip_line _ L), (first_line_app _ rest L B), S, E.
Qed.

Lemma forallb_repeat (p : ascii -> bool) c n :
  p c = true -> forallb p (repeat c n) = true.
Proof.
  intros H. induction n as [| n IH]; [reflexivity|]. cbn [repeat forallb].
  now rewrite H, IH.
Qed.

(** The number written with [k] digits 1, whose decimal text has [k]
    characters. *)
Lemma string_of_ones k :
  String.list_ascii_of_string (DecimalString.NilEmpty.string_of_uint (ones k))
  = repeat "1"%char k.
Proof.
  induction k as [| k IH]; [reflexivity|].
  cbn [ones DecimalString.NilEmpty.string_of_uint String.list_ascii_of_string repeat].
  now rewrite IH.
Qed.

Lemma str_of_N_repunit k : length (str_of_N (repunit (S k))) = S k.
Proof.
  unfold str_of_N, repunit. rewrite DecimalN.Unsigned.to_of.
  change (Decimal.unorm (ones (S k))) with (ones (S k)).
  rewrite string_of_ones. apply repeat_length.
Qed.

(** C3, as stated, fails in two ways.  A text whose first line is empty
    and whose second line is 7 gets the score 7, where scoring its first
    line only gives the sentinel 0.  And a text of 4301 digits gets no
    score at all: [int] raises ValueError. *)
Lemma extract_score_first_line_counterexample :
  extract_score (newline :: $"7") = Returned $"7" /\
  score_of_line (literal_first_line (newline :: $"7")) = Returned $"0" /\
  ~ (forall text, extract_score text = score_of_line (literal_first_line text)) /\
  (exists msg, extract_score (repeat "7" 4301) = Raised msg) /\
  ~ (forall text, exists score, extract_score text = Returned score).
Proof.
  assert (R : exists msg, extract_score (repeat "7" 4301) = Raised msg).
  { destruct (extract_score_digits (repeat "7" 4301) []) as [E _];
      [discriminate | now apply forallb_repeat |].
    destruct (int_of_digits_large (repeat "7" 4301)) as [msg M].
    - rewrite repeat_length. apply Nat.lt_succ_diag_r.
    - exists msg. now rewrite E, M. }
  split; [reflexivity|]. split; [reflexivity|]. split.
  - intros H. specialize (H (newline :: $"7")). discriminate H.
  - split; [exact R|]. intros H. destruct R as [msg R].
    destruct (H (repeat "7" 4301)) as [score E]. rewrite R in E. discriminate E.
Qed.

(** C3, amended. [extract_score] reads only the first line of the trimmed
    text (the first line of the text itself whenever that line is not blank)
    and scores it, trimmed, by priority: the whole line when it is a bare
    integer; else the digits before the slash of the first
    digits-slash-digits; else the first run of digits; else the sentinel 0.
    The digits are read by [int], which gives the number they denote when
    there are at most 4300 of them and raises ValueError when there are
    more; so the extractor returns whenever that line has at most 4300
    characters.  Every integer it extracts is clamped into 1..10, so a
    result it returns is the text 0 or the decimal text of a number from 1
    to 10.  In particular 7 gives 7, 12/10 explanation gives 10, and the
    empty text and no numbers here give 0. *)
Theorem extract_score_spec :
  (forall text, extract_score text = score_of_line (first_line text)) /\
  (forall text, is_blank (hd [] (split newline text)) = false ->
     extract_score text = score_of_line (literal_first_line text)) /\
  (forall text score, extract_score text = Returned score ->
     In score [$"0"; $"1"; $"2"; $"3"; $"4"; $"5"; $"6"; $"7"; $"8"; $"9"; $"10"]) /\
  (forall text, length (first_line text) <= int_max_str_digits ->
     exists score, extract_score text = Returned score) /\
  (forall digits,
     (length digits <= int_max_str_digits ->
      int_of_digits digits = Returned (digits_value digits)) /\
     (int_max_str_digits < length digits ->
      exists msg, int_of_digits digits = Raised msg)) /\
  (forall n, digits_value (str_of_N n) = n /\
             clamp_str n = str_of_N (N.min (N.max n 1) 10) /\
             (1 <= N.min (N.max n 1) 10 <= 10)%N) /\
  extract_score $"7" = Returned $"7" /\
  extract_score $"12/10 explanation" = Returned $"10" /\
  extract_score $"" = Returned $"0" /\
  extract_score $"no numbers here" = Returned $"0".
Proof.
  split; [exact extract_score_first_line|].
  split; [intros text H; rewrite extract_score_first_line; now rewrite first_line_literal|].
  split; [intros text score; rewrite extract_score_first_line; apply score_of_line_range|].
  split; [intros text H; rewrite extract_score_first_line; now apply score_of_line_returns|].
  split; [intros digits; split; [apply int_of_digits_small | apply int_of_digits_large]|].
  split; [intros n; split; [apply digits_value_str_of_N | split; [reflexivity | lia]]|].
  repeat split.
Qed.

Lemma extract_score_spec_witness :
  extract_score ($"12/10 explanation" ++ newline :: $"and 3 more lines")
  = score_of_line
      (literal_first_line ($"12/10 explanation" ++ newline :: $"and 3 more lines")) /\
  exists score,
    extract_score ($"12/10 explanation" ++ newline :: $"and 3 more lines") = Returned score.
Proof.
  destruct extract_score_spec as (_ & H & _ & R & _). split.
  - apply H. reflexivity.
  - apply R. vm_compute. lia.
Defined.

(** ** The substitutions of the cleaner *)

Lemma sub_from_skip_cons r repl n i x s :
  sub_from r repl (S n) i (x :: s) = sub_from r repl n (S i) s.
Proof. reflexivity. Qed.

Lemma lstrip_not_char c (s : str) :
  existsb (Ascii.eqb c) s = negb (is_empty (lstrip_by (not_char c) s)).
Proof.
  induction s as [| x s IH]; [reflexivity|]. cbn [existsb lstrip_by]. unfold not_char at 1.
  rewrite (Ascii.eqb_sym c x). destruct (Ascii.eqb x c); [reflexivity | exact IH].
Qed.

(** r"\(o[^c]*\c" at one offset. *)
Lemma match_at_delimited o c i x s :
  match_at (re_delimited o c) i (x :: s) =
  if Ascii.eqb x o && existsb (Ascii.eqb c) s
  then Some (S (S i + length (take_while (not_char c) s)), [])
  else None.
Proof.
  unfold match_at, re_delimited. cbn [rmatch]. destruct (Ascii.eqb x o); [| reflexivity].
  cbn [andb]. rewrite star_c_longest.
  2:{ intros j d t Hd. unfold not_char in Hd. apply negb_true_iff in Hd. now rewrite Hd. }
  rewrite lstrip_not_char.
  pose proof (lstrip_by_head (not_char c) ) as Hh.
  destruct (lstrip_by (not_char c) s) as [| y t] eqn:L; [reflexivity|].
  specialize (Hh y t s L). unfold not_char in Hh. apply negb_false_iff in Hh.
  now rewrite Hh.
Qed.

Lemma remove_groups_sub o c (s : str) :
  forall i,
    sub_from (re_delimited o c) [] 0 i s = remove_groups o c false s /\
    (existsb (Ascii.eqb c) s = true ->
     sub_from (re_delimited o c) [] (S (length (take_while (not_char c) s))) i s
     = remove_groups o c true s).
Proof.
  induction s as [| x s IH]; intros i; [split; [reflexivity | discriminate]|].
  destruct (IH (S i)) as [IH0 IH1]. split.
  - cbn [sub_from remove_groups]. rewrite match_at_delimited.
    destruct (Ascii.eqb x o && existsb (Ascii.eqb c) s) eqn:E.
    + apply andb_true_iff in E. destruct E as [_ E].
      replace (Nat.ltb i (S (S i + length (take_while (not_char c) s)))) with true
        by (symmetry; apply Nat.ltb_lt; lia).
      replace (S (S i + length (take_while (not_char c) s)) - i - 1)
        with (S (length (take_while (not_char c) s))) by lia.
      cbn [app]. now apply IH1.
    + now rewrite IH0.
  - intros E. cbn [take_while remove_groups]. unfold not_char at 1.
    cbn [existsb] in E. rewrite (Ascii.eqb_sym c x) in E.
    destruct (Ascii.eqb x c); cbn [negb length].
    + rewrite sub_from_skip_cons. exact IH0.
    + rewrite sub_from_skip_cons. apply IH1. exact E.
Qed.

Lemma re_sub_delimited o c (s : str) :
  re_sub (re_delimited o c) [] s = remove_groups o c false s.
Proof. unfold re_sub. apply remove_groups_sub. Qed.

(** r"\s+" at one offset. *)
Lemma match_at_spaces i x s :
  match_at re_spaces i (x :: s) =
  if is_space x then Some (S i + length (take_while is_space s), []) else None.
Proof.
  unfold match_at, re_spaces. cbn [rmatch]. destruct (is_space x); [| reflexivity].
  now apply star_c_greedy.
Qed.

Lemma collapse_spaces_sub (s : str) :
  forall i,
    sub_from re_spaces $" " 0 i s = collapse_spaces false s /\
    sub_from re_spaces $" " (length (take_while is_space s)) i s = collapse_spaces true s.
Proof.
  induction s as [| x s IH]; intros i; [split; reflexivity|].
  destruct (IH (S i)) as [IH0 IH1].
  assert (Z : sub_from re_spaces $" " 0 i (x :: s) = collapse_spaces false (x :: s)).
  { cbn [sub_from collapse_spaces]. rewrite match_at_spaces. destruct (is_space x).
    - replace (Nat.ltb i (S i + length (take_while is_space s))) with true
        by (symmetry; apply Nat.ltb_lt; lia).
      replace (S i + length (take_while is_space s) - i - 1)
        with (length (take_while is_space s)) by lia.
      now rewrite IH1.
    - now rewrite IH0. }
  split; [exact Z|]. cbn [take_while]. destruct (is_space x) eqn:E.
  - cbn [length]. rewrite sub_from_skip_cons. cbn [collapse_spaces]. now rewrite E.
  - cbn [length]. rewrite Z. cbn [collapse_spaces]. now rewrite E.
Qed.

Lemma re_sub_spaces (s : str) : re_sub re_spaces $" " s = collapse_spaces false s.
Proof. unfold re_sub. apply collapse_spaces_sub. Qed.

(** r"\n\s*\n\s*\n+" starts with a line feed. *)
Lemma match_at_blank_lines i x s :
  Ascii.eqb x newline = false -> match_at re_blank_lines i (x :: s) = None.
Proof. intros H. unfold match_at, re_blank_lines. cbn [rmatch]. now rewrite H. Qed.

Lemma sub_from_blank_lines repl (s : str) i :
  no_newline s = true -> sub_from re_blank_lines repl 0 i s = s.
Proof.
  revert i. induction s as [| x s IH]; intros i H; [reflexivity|].
  unfold no_newline in H. cbn [forallb] in H. apply andb_true_iff in H.
  destruct H as [Hx Hs]. unfold not_char in Hx. apply negb_true_iff in Hx.
  cbn [sub_from]. rewrite (match_at_blank_lines i x s Hx).
  now rewrite (IH (S i) Hs).
Qed.

Lemma re_sub_blank_lines repl (s : str) :
  no_newline s = true -> re_sub re_blank_lines repl s = s.
Proof. apply sub_from_blank_lines. Qed.

(** ** The cleaner, in one line *)

Lemma collapse_spaces_no_newline b (s : str) : no_newline (collapse_spaces b s) = true.
Proof.
  revert b. induction s as [| x s IH]; intros b; [reflexivity|]. cbn [collapse_spaces].
  destruct (is_space x) eqn:E.
  - destruct b; [apply IH|]. unfold no_newline. cbn [forallb]. apply (IH true).
  - unfold no_newline. cbn [forallb]. rewrite (not_space_not_newline x E). apply (IH false).
Qed.

(** What the cleaner computes: the three kinds of groups removed, the
    whitespace collapsed, the ends trimmed.  The substitution for blank
    lines and the handling of lines find a single line and leave it as it
    is. *)
Lemma clean_dialogue_direct (text : str) :
  clean_dialogue text =
  strip (collapse_spaces false
           (remove_groups "{" "}" false
              (remove_groups "[" "]" false
                 (remove_groups "(" ")" false text)))).
Proof.
  unfold clean_dialogue. destruct text as [| c0 s0]; [reflexivity|].
  cbv zeta. rewrite !re_sub_delimited, re_sub_spaces.
  set (t := collapse_spaces false _).
  pose proof (collapse_spaces_no_newline false
                (remove_groups "{" "}" false
                   (remove_groups "[" "]" false
                      (remove_groups "(" ")" false (c0 :: s0))))) as Hn.
  fold t in Hn. rewrite (re_sub_blank_lines _ t Hn), (split_line t Hn).
  cbn [map filter]. pose proof (strip_empty t) as Hb. unfold is_empty in Hb.
  destruct (strip t) as [| y u] eqn:E.
  - reflexivity.
  - cbn [length Nat.eqb negb join]. rewrite <- E. apply strip_by_idem.
Qed.

(** The result of the cleaner has no line feed in it. *)
Lemma clean_dialogue_one_line (text : str) : no_newline (clean_dialogue text) = true.
Proof.
  rewrite clean_dialogue_direct. eapply no_newline_incl.
  - intros c. apply strip_by_incl.
  - apply collapse_spaces_no_newline.
Qed.

(** C5. The cleaner does not keep paragraph breaks: the substitution of
    whitespace runs turns every line feed into a space before the
    substitution meant for paragraph breaks runs, so that one finds
    nothing to replace, and the result never has a line feed.  On
    a, three line feeds, b the result is a b, on one line. *)
Theorem clean_dialogue_loses_paragraphs :
  clean_dialogue ($"a" ++ [newline; newline; newline] ++ $"b") = $"a b" /\
  (forall text, ~ In newline (clean_dialogue text)) /\
  (forall text repl,
     re_sub re_blank_lines repl (re_sub re_spaces $" " text)
     = re_sub re_spaces $" " text).
Proof.
  split; [reflexivity|]. split.
  - intros text H. pose proof (clean_dialogue_one_line text) as N.
    unfold no_newline in N. rewrite forallb_forall in N. specialize (N newline H).
    unfold not_char in N. now rewrite Ascii.eqb_refl in N.
  - intros text repl. apply re_sub_blank_lines. rewrite re_sub_spaces.
    apply collapse_spaces_no_newline.
Qed.

(** ** Cleaning twice *)

Section Groups.
Variables o c : ascii.

Lemma thin_exists ok (s t : str) :
  thin ok s t -> ok c = false ->
  existsb (Ascii.eqb c) t = true -> existsb (Ascii.eqb c) s = true.
Proof.
  intros T Hc. induction T as [| x s t T IH | x s t T IH | y s t Hy T IH]; cbn [existsb].
  - auto.
  - intros H. apply orb_true_iff in H. apply orb_true_iff.
    destruct H; [now left | right; auto].
  - intros H. apply orb_true_iff. right. auto.
  - intros H. apply orb_true_iff in H. destruct H as [H | H]; [| auto].
    apply Ascii.eqb_eq in H. subst y. congruence.
Qed.

Lemma thin_has_group ok (s t : str) :
  thin ok s t -> ok o = false -> ok c = false ->
  has_group o c s = false -> has_group o c t = false.
Proof.
  intros T Ho Hc. induction T as [| x s t T IH | x s t T IH | y s t Hy T IH];
    cbn [has_group]; intros H.
  - reflexivity.
  - apply orb_false_iff in H. destruct H as [H1 H2]. apply orb_false_iff.
    split; [| auto]. destruct (Ascii.eqb x o); [| reflexivity]. cbn [andb] in *.
    destruct (existsb (Ascii.eqb c) t) eqn:E; [| reflexivity].
    now rewrite (thin_exists ok s t T Hc E) in H1.
  - apply orb_false_iff in H. destruct H as [_ H2]. auto.
  - apply orb_false_iff. split; [| auto].
    destruct (Ascii.eqb y o) eqn:E; [| reflexivity].
    apply Ascii.eqb_eq in E. subst y. congruence.
Qed.

Lemma remove_groups_thin ok b (s : str) : thin ok s (remove_groups o c b s).
Proof.
  revert b. induction s as [| x s IH]; intros b; [constructor|]. cbn [remove_groups].
  destruct b.
  - destruct (Ascii.eqb x c); constructor; apply IH.
  - destruct (Ascii.eqb x o && existsb (Ascii.eqb c) s); constructor; apply IH.
Qed.

Lemma remove_groups_no_group b (s : str) :
  has_group o c (remove_groups o c b s) = false.
Proof.
  revert b. induction s as [| x s IH]; intros b; [reflexivity|]. cbn [remove_groups].
  destruct b.
  - destruct (Ascii.eqb x c); apply IH.
  - destruct (Ascii.eqb x o && existsb (Ascii.eqb c) s) eqn:E; [apply IH|].
    cbn [has_group]. rewrite IH, orb_false_r.
    destruct (Ascii.eqb x o); [| reflexivity]. cbn [andb] in *.
    destruct (existsb (Ascii.eqb c) (remove_groups o c false s)) eqn:F; [| reflexivity].
    rewrite (thin_exists (fun _ => false) s _ (remove_groups_thin _ false s) eq_refl F) in E.
    discriminate.
Qed.

Lemma remove_groups_fix (s : str) :
  has_group o c s = false -> remove_groups o c false s = s.
Proof.
  induction s as [| x s IH]; [reflexivity|]. cbn [has_group remove_groups]. intros H.
  apply orb_false_iff in H. destruct H as [H1 H2]. now rewrite H1, (IH H2).
Qed.
End Groups.

Lemma collapse_spaces_thin b (s : str) :
  thin (Ascii.eqb " ") s (collapse_spaces b s).
Proof.
  revert b. induction s as [| x s IH]; intros b; [constructor|]. cbn [collapse_spaces].
  destruct (is_space x).
  - destruct b.
    + apply thin_drop, IH.
    + apply thin_add; [reflexivity|]. apply thin_drop, IH.
  - apply thin_keep, IH.
Qed.

Lemma lstrip_by_thin ok p (s : str) : thin ok s (lstrip_by p s).
Proof.
  induction s as [| x s IH]; [constructor|]. cbn [lstrip_by].
  destruct (p x); [now apply thin_drop|]. clear IH.
  induction (x :: s) as [| y u IHu]; constructor; exact IHu.
Qed.

Lemma rstrip_by_thin ok p (s : str) : thin ok s (rstrip_by p s).
Proof.
  induction s as [| x s IH]; [constructor|]. rewrite rstrip_by_cons.
  destruct (rstrip_by p s) as [| y r].
  - destruct (p x); [now apply thin_drop | now apply thin_keep].
  - now apply thin_keep.
Qed.

Lemma strip_has_group o c (s : str) :
  has_group o c s = false -> has_group o c (strip s) = false.
Proof.
  intros H. unfold strip, strip_by.
  apply (thin_has_group o c (fun _ => false) _ _ (rstrip_by_thin _ _ _) eq_refl eq_refl).
  now apply (thin_has_group o c (fun _ => false) _ _ (lstrip_by_thin _ _ _) eq_refl eq_refl).
Qed.

(** ** Single spacing *)

Lemma single_spaced_weaken b (s : str) :
  single_spaced b s = true -> single_spaced false s = true.
Proof.
  destruct s as [| x s]; [reflexivity|]. cbn [single_spaced].
  destruct (is_space x); [| auto]. destruct b; [| auto].
  rewrite andb_false_r. discriminate.
Qed.

Lemma collapse_spaces_single b (s : str) :
  single_spaced b (collapse_spaces b s) = true.
Proof.
  revert b. induction s as [| x s IH]; intros b; [reflexivity|]. cbn [collapse_spaces].
  destruct (is_space x) eqn:E.
  - destruct b; [apply IH|]. cbn [single_spaced]. apply (IH true).
  - cbn [single_spaced]. rewrite E. apply (IH false).
Qed.

Lemma collapse_spaces_fix b (s : str) :
  single_spaced b s = true -> collapse_spaces b s = s.
Proof.
  revert b. induction s as [| x s IH]; intros b; [reflexivity|].
  cbn [single_spaced collapse_spaces]. destruct (is_space x).
  - intros H. apply andb_true_iff in H. destruct H as [H Hs].
    apply andb_true_iff in H. destruct H as [Hx Hb].
    apply Ascii.eqb_eq in Hx. subst x. apply negb_true_iff in Hb. subst b.
    now rewrite (IH true Hs).
  - intros H. now rewrite (IH false H).
Qed.

Lemma lstrip_by_single p b (s : str) :
  single_spaced b s = true -> single_spaced false (lstrip_by p s) = true.
Proof.
  revert b. induction s as [| x s IH]; intros b H; [reflexivity|]. cbn [lstrip_by].
  destruct (p x); [| now apply single_spaced_weaken in H].
  cbn [single_spaced] in H. destruct (is_space x).
  - apply andb_true_iff in H. destruct H as [_ H]. now apply IH in H.
  - now apply IH in H.
Qed.

Lemma rstrip_single b (s : str) :
  single_spaced b s = true -> single_spaced b (rstrip_by is_space s) = true.
Proof.
  revert b. induction s as [| x s IH]; intros b H; [reflexivity|]. rewrite rstrip_by_cons.
  cbn [single_spaced] in H. destruct (is_space x) eqn:E.
  - apply andb_true_iff in H. destruct H as [Hx Hs]. apply IH in Hs.
    destruct (rstrip_by is_space s) as [| y r]; [reflexivity|].
    cbn [single_spaced]. rewrite E, Hx. exact Hs.
  - apply IH in H. destruct (rstrip_by is_space s) as [| y r].
    + cbn [single_spaced]. now rewrite E.
    + cbn [single_spaced]. rewrite E. exact H.
Qed.

Lemma strip_single (s : str) :
  single_spaced false s = true -> single_spaced false (strip s) = true.
Proof.
  intros H. unfold strip, strip_by. apply rstrip_single.
  now apply (lstrip_by_single is_space false).
Qed.

(** C4. The cleaner is idempotent: cleaning a cleaned text changes
    nothing. *)
Theorem clean_dialogue_idempotent (x : str) :
  clean_dialogue (clean_dialogue x) = clean_dialogue x.
Proof.
  rewrite (clean_dialogue_direct (clean_dialogue x)).
  rewrite (clean_dialogue_direct x).
  set (r1 := remove_groups "(" ")" false x).
  set (r2 := remove_groups "[" "]" false r1).
  set (r3 := remove_groups "{" "}" false r2).
  set (y := strip (collapse_spaces false r3)).
  assert (T : forall o c, is_space o = false -> is_space c = false ->
                has_group o c r3 = false -> has_group o c y = false).
  { intros o c Ho Hc H. subst y. apply strip_has_group.
    apply (thin_has_group o c _ _ _ (collapse_spaces_thin false r3)); [| | exact H].
    - apply Ascii.eqb_neq. intros <-. discriminate Ho.
    - apply Ascii.eqb_neq. intros <-. discriminate Hc. }
  assert (G1 : has_group "(" ")" y = false).
  { apply T; [reflexivity | reflexivity |]. subst r3 r2.
    apply (thin_has_group _ _ (fun _ => false) _ _ (remove_groups_thin _ _ _ _ _) eq_refl eq_refl).
    apply (thin_has_group _ _ (fun _ => false) _ _ (remove_groups_thin _ _ _ _ _) eq_refl eq_refl).
    apply remove_groups_no_group. }
  assert (G2 : has_group "[" "]" y = false).
  { apply T; [reflexivity | reflexivity |]. subst r3.
    apply (thin_has_group _ _ (fun _ => false) _ _ (remove_groups_thin _ _ _ _ _) eq_refl eq_refl).
    apply remove_groups_no_group. }
  assert (G3 : has_group "{" "}" y = false).
  { apply T; [reflexivity | reflexivity |]. apply remove_groups_no_group. }
  rewrite (remove_groups_fix _ _ y G1), (remove_groups_fix _ _ y G2),
    (remove_groups_fix _ _ y G3).
  assert (S : single_spaced false y = true).
  { subst y. apply strip_single, collapse_spaces_single. }
  rewrite (collapse_spaces_fix false y S). subst y. apply strip_by_idem.
Qed.

(** ** What the cleaner returns *)

Lemma clean_dialogue_no_group (x : str) :
  has_group "(" ")" (clean_dialogue x) = false /\
  has_group "[" "]" (clean_dialogue x) = false /\
  has_group "{" "}" (clean_dialogue x) = false.
Proof.
  rewrite clean_dialogue_direct.
  set (r1 := remove_groups "(" ")" false x).
  set (r2 := remove_groups "[" "]" false r1).
  set (r3 := remove_groups "{" "}" false r2).
  assert (T : forall o c, is_space o = false -> is_space c = false ->
                has_group o c r3 = false ->
                has_group o c (strip (collapse_spaces false r3)) = false).
  { intros o c Ho Hc H. apply strip_has_group.
    apply (thin_has_group o c _ _ _ (collapse_spaces_thin false r3)); [| | exact H].
    - apply Ascii.eqb_neq. intros <-. discriminate Ho.
    - apply Ascii.eqb_neq. intros <-. discriminate Hc. }
  split; [| split]; (apply T; [reflexivity | reflexivity |]).
  - subst r3 r2.
    apply (thin_has_group _ _ (fun _ => false) _ _ (remove_groups_thin _ _ _ _ _) eq_refl eq_refl).
    apply (thin_has_group _ _ (fun _ => false) _ _ (remove_groups_thin _ _ _ _ _) eq_refl eq_refl).
    apply remove_groups_no_group.
  - subst r3.
    apply (thin_has_group _ _ (fun _ => false) _ _ (remove_groups_thin _ _ _ _ _) eq_refl eq_refl).
    apply remove_groups_no_group.
  - apply remove_groups_no_group.
Qed.

Lemma clean_dialogue_is_clean (x : str) : is_clean (clean_dialogue x) = true.
Proof.
  unfold is_clean. destruct (clean_dialogue_no_group x) as (G1 & G2 & G3).
  rewrite G1, G2, G3. cbn [negb andb]. rewrite clean_dialogue_direct.
  rewrite strip_single by apply collapse_spaces_single.
  unfold strip at 1. rewrite strip_by_idem. apply str_eqb_refl.
Qed.

Lemma is_clean_fixed (x : str) : is_clean x = true -> clean_dialogue x = x.
Proof.
  unfold is_clean. intros H.
  apply andb_true_iff in H. destruct H as [H H5].
  apply andb_true_iff in H. destruct H as [H H4].
  apply andb_true_iff in H. destruct H as [H H3].
  apply andb_true_iff in H. destruct H as [H1 H2].
  apply negb_true_iff in H1, H2, H3. apply str_eqb_eq in H5.
  rewrite clean_dialogue_direct.
  rewrite (remove_groups_fix _ _ x H1), (remove_groups_fix _ _ x H2),
    (remove_groups_fix _ _ x H3), (collapse_spaces_fix false x H4).
  exact H5.
Qed.

(** X1. The results of the cleaner are exactly the clean texts: every
    result has no opening parenthesis, bracket or brace with its closing
    one after it, has single spaces as its only whitespace and is trimmed;
    and a text is left as it is if and only if it is of that kind. *)
Theorem clean_dialogue_image :
  (forall x, is_clean (clean_dialogue x) = true) /\
  (forall x, clean_dialogue x = x <-> is_clean x = true).
Proof.
  split; [exact clean_dialogue_is_clean|]. intros x. split.
  - intros E. rewrite <- E. apply clean_dialogue_is_clean.
  - apply is_clean_fixed.
Qed.

Lemma remove_groups_length o c b (s : str) :
  length (remove_groups o c b s) <= length s.
Proof.
  revert b. induction s as [| x s IH]; intros b; [apply Nat.le_refl|].
  cbn [remove_groups length]. destruct b.
  - destruct (Ascii.eqb x c); [specialize (IH false) | specialize (IH true)]; lia.
  - destruct (Ascii.eqb x o && existsb (Ascii.eqb c) s);
      [specialize (IH true) | specialize (IH false); cbn [length]]; lia.
Qed.

Lemma collapse_spaces_length b (s : str) :
  length (collapse_spaces b s) <= length s.
Proof.
  revert b. induction s as [| x s IH]; intros b; [apply Nat.le_refl|].
  cbn [collapse_spaces length]. destruct (is_space x).
  - destruct b; [specialize (IH true) | specialize (IH true); cbn [length]]; lia.
  - specialize (IH false). cbn [length]. lia.
Qed.

Lemma thin_space_in ok (s t : str) x :
  thin ok s t -> In x t -> In x s \/ ok x = true.
Proof.
  intros T. induction T as [| y s t T IH | y s t T IH | y s t Hy T IH]; cbn [In].
  - auto.
  - intros [-> | H]; [left; now left|]. destruct (IH H); [left; now right | now right].
  - intros H. destruct (IH H); [left; now right | now right].
  - intros [<- | H]; [now right | auto].
Qed.

(** X2. Cleaning never makes a text longer, and it invents no character
    but the space: every character of the result is a character of the
    text or a space. *)
Theorem clean_dialogue_shrinks (x : str) :
  length (clean_dialogue x) <= length x /\
  (forall c, In c (clean_dialogue x) -> In c x \/ c = " "%char).
Proof.
  rewrite clean_dialogue_direct. split.
  - etransitivity; [apply strip_length|].
    etransitivity; [apply collapse_spaces_length|].
    etransitivity; [apply remove_groups_length|].
    etransitivity; [apply remove_groups_length|]. apply remove_groups_length.
  - intros c H. apply strip_by_incl in H.
    destruct (thin_space_in _ _ _ c (collapse_spaces_thin false _) H) as [H1 | H1].
    + left.
      destruct (thin_space_in (fun _ => false) _ _ c (remove_groups_thin _ _ _ _ _) H1)
        as [H2 | H2]; [| discriminate].
      destruct (thin_space_in (fun _ => false) _ _ c (remove_groups_thin _ _ _ _ _) H2)
        as [H3 | H3]; [| discriminate].
      destruct (thin_space_in (fun _ => false) _ _ c (remove_groups_thin _ _ _ _ _) H3)
        as [H4 | H4]; [exact H4 | discriminate].
    + right. apply Ascii.eqb_eq in H1. now subst c.
Qed.

(** ** Removing one group *)

Section OneGroup.
Variables o c : ascii.

Lemma remove_groups_prefix (p s : str) :
  existsb (Ascii.eqb o) p = false ->
  remove_groups o c false (p ++ s) = p ++ remove_groups o c false s.
Proof.
  induction p as [| x p IH]; [reflexivity|]. cbn [existsb app remove_groups]. intros H.
  apply orb_false_iff in H. destruct H as [Hx Hp].
  rewrite (Ascii.eqb_sym x o), Hx. cbn [andb]. now rewrite (IH Hp).
Qed.

Lemma remove_groups_inside (g b : str) :
  existsb (Ascii.eqb c) g = false ->
  remove_groups o c true (g ++ c :: b) = remove_groups o c false b.
Proof.
  induction g as [| x g IH]; cbn [existsb app remove_groups]; intros H.
  - now rewrite Ascii.eqb_refl.
  - apply orb_false_iff in H. destruct H as [Hx Hg].
    rewrite (Ascii.eqb_sym x c), Hx. now apply IH.
Qed.

Lemma existsb_closing (g b : str) : existsb (Ascii.eqb c) (g ++ c :: b) = true.
Proof.
  rewrite existsb_app. cbn [existsb]. now rewrite Ascii.eqb_refl, orb_true_r.
Qed.

(** A group whose inside has no closing character, after a text that has
    no opening one, goes away. *)
Lemma remove_groups_group (a g b : str) :
  existsb (Ascii.eqb o) a = false -> existsb (Ascii.eqb c) g = false ->
  remove_groups o c false (a ++ o :: g ++ c :: b) = remove_groups o c false (a ++ b).
Proof.
  intros Ha Hg. rewrite !remove_groups_prefix by exact Ha. f_equal.
  cbn [remove_groups]. rewrite Ascii.eqb_refl, existsb_closing. cbn [andb].
  now apply remove_groups_inside.
Qed.
End OneGroup.

Lemma no_brackets_free (s : str) c :
  no_brackets s = true -> is_bracket c = true -> existsb (Ascii.eqb c) s = false.
Proof.
  intros Hs Hc. induction s as [| x s IH]; [reflexivity|].
  unfold no_brackets in Hs. cbn [forallb] in Hs. apply andb_true_iff in Hs.
  destruct Hs as [Hx Hs]. cbn [existsb]. rewrite (IH Hs), orb_false_r.
  apply Ascii.eqb_neq. intros <-. rewrite Hc in Hx. discriminate.
Qed.

Lemma no_brackets_app (a b : str) :
  no_brackets a = true -> no_brackets b = true -> no_brackets (a ++ b) = true.
Proof. unfold no_brackets. intros Ha Hb. now rewrite forallb_app, Ha, Hb. Qed.

(** X3. A remark in parentheses, square brackets or braces is removed as
    if it had not been written: when the text before the remark and the
    remark itself have none of the six characters in them, cleaning the
    text with the remark gives what cleaning the text without it gives. *)
Theorem clean_dialogue_drops_remark (a g b : str) :
  no_brackets a = true -> no_brackets g = true ->
  clean_dialogue (a ++ "(" :: g ++ ")" :: b) = clean_dialogue (a ++ b) /\
  clean_dialogue (a ++ "[" :: g ++ "]" :: b) = clean_dialogue (a ++ b) /\
  clean_dialogue (a ++ "{" :: g ++ "}" :: b) = clean_dialogue (a ++ b).
Proof.
  intros Ha Hg. rewrite !clean_dialogue_direct.
  assert (F : forall s c, is_bracket c = true -> s = a \/ s = g ->
                existsb (Ascii.eqb c) s = false).
  { intros s c Hc [-> | ->]; now apply no_brackets_free. }
  split; [| split].
  - now rewrite remove_groups_group by (apply F; auto).
  - do 2 f_equal. f_equal.
    replace (a ++ "[" :: g ++ "]" :: b) with ((a ++ "[" :: g ++ ["]"]) ++ b)
      by (rewrite <- !app_assoc; cbn [app]; now rewrite <- app_assoc).
    assert (P : existsb (Ascii.eqb "(") (a ++ "[" :: g ++ ["]"]) = false).
    { rewrite existsb_app. cbn [existsb]. rewrite existsb_app. cbn [existsb].
      rewrite !F by auto. reflexivity. }
    rewrite (remove_groups_prefix _ _ _ b P), <- app_assoc. cbn [app].
    rewrite <- app_assoc. cbn [app].
    rewrite remove_groups_group by (apply F; auto).
    now rewrite <- (remove_groups_prefix "(" ")" a b) by (apply F; auto).
  - do 2 f_equal.
    replace (a ++ "{" :: g ++ "}" :: b) with ((a ++ "{" :: g ++ ["}"]) ++ b)
      by (rewrite <- !app_assoc; cbn [app]; now rewrite <- app_assoc).
    assert (P : forall o, is_bracket o = true -> o <> "{"%char -> o <> "}"%char ->
                  existsb (Ascii.eqb o) (a ++ "{" :: g ++ ["}"]) = false).
    { intros o Ho N1 N2. rewrite existsb_app. cbn [existsb]. rewrite existsb_app.
      cbn [existsb]. rewrite !F by auto.
      apply Ascii.eqb_neq in N1, N2. now rewrite N1, N2. }
    rewrite (remove_groups_prefix "(" ")" _ b) by (apply P; [reflexivity | |]; discriminate).
    rewrite (remove_groups_prefix "[" "]" _ _) by (apply P; [reflexivity | |]; discriminate).
    rewrite <- app_assoc. cbn [app]. rewrite <- app_assoc. cbn [app].
    rewrite remove_groups_group by (apply F; auto).
    rewrite <- (remove_groups_prefix "[" "]" a) by (apply F; auto).
    now rewrite <- (remove_groups_prefix "(" ")" a b) by (apply F; auto).
Qed.

Lemma clean_dialogue_drops_remark_witness :
  clean_dialogue ($"Bob: " ++ "(" :: $"smiling" ++ ")" :: $" Hello [waves] there.")
    = clean_dialogue ($"Bob: " ++ $" Hello [waves] there.") /\
  clean_dialogue ($"Bob: " ++ "[" :: $"smiling" ++ "]" :: $" Hello [waves] there.")
    = clean_dialogue ($"Bob: " ++ $" Hello [waves] there.") /\
  clean_dialogue ($"Bob: " ++ "{" :: $"smiling" ++ "}" :: $" Hello [waves] there.")
    = clean_dialogue ($"Bob: " ++ $" Hello [waves] there.").
Proof.
  apply (clean_dialogue_drops_remark $"Bob: " $"smiling" $" Hello [waves] there.");
    reflexivity.
Defined.

(** ** Safe file names *)

Lemma re_sub_invalid_fixed (f : str) :
  forallb (fun c => negb (is_invalid_char c)) f = true ->
  re_sub re_invalid $"_" f = f.
Proof.
  rewrite re_sub_invalid. induction f as [| c f IH]; [reflexivity|].
  cbn [forallb map]. intros H. apply andb_true_iff in H. destruct H as [Hc Hf].
  apply negb_true_iff in Hc. now rewrite Hc, (IH Hf).
Qed.

Lemma is_safe_name_fixed (f : str) : is_safe_name f = true -> sanitize_filename f = f.
Proof.
  unfold is_safe_name. intros H.
  apply andb_true_iff in H. destruct H as [H H3].
  apply andb_true_iff in H. destruct H as [H1 H2]. apply str_eqb_eq in H3.
  unfold sanitize_filename. rewrite (re_sub_invalid_fixed f H2), H3.
  destruct f; [discriminate | reflexivity].
Qed.

Lemma sanitize_filename_is_safe (f : str) : is_safe_name (sanitize_filename f) = true.
Proof.
  unfold sanitize_filename.
  destruct (strip_by is_dot_or_space (re_sub re_invalid $"_" f)) as [| y u] eqn:E;
    [reflexivity|].
  rewrite <- E. unfold is_safe_name. rewrite strip_by_idem, str_eqb_refl, andb_true_r.
  rewrite E at 1. cbn [is_empty length Nat.eqb negb andb].
  apply forallb_forall. intros c Hc. apply strip_by_incl in Hc.
  now rewrite (re_sub_invalid_clean f c Hc).
Qed.

(** X4. Sanitizing a file name twice is sanitizing it once, and the names
    that sanitizing leaves as they are are exactly the safe ones: not empty,
    with none of the nine characters, and with neither a dot nor a space at
    either end. *)
Theorem sanitize_filename_idempotent :
  (forall f, sanitize_filename (sanitize_filename f) = sanitize_filename f) /\
  (forall f, sanitize_filename f = f <-> is_safe_name f = true).
Proof.
  split.
  - intros f. apply is_safe_name_fixed, sanitize_filename_is_safe.
  - intros f. split.
    + intros E. rewrite <- E. apply sanitize_filename_is_safe.
    + apply is_safe_name_fixed.
Qed.

(** ** The validators *)

Lemma is_blank_strip (s : str) : is_blank (strip s) = is_blank s.
Proof.
  rewrite <- !strip_empty. unfold strip. now rewrite strip_by_idem.
Qed.

(** X5. The content validator does not see whitespace around a text:
    a text and its trimmed form are accepted or rejected alike. *)
Theorem validate_discussion_content_strip (content : str) :
  validate_discussion_content (strip content) = validate_discussion_content content.
Proof.
  rewrite !validate_discussion_content_rule. unfold content_rejected.
  rewrite is_blank_strip, count_strip. unfold strip at 1. now rewrite strip_by_idem.
Qed.

(** A response is valid exactly when its trimmed form has at least
    10 characters (an empty or blank response has none). *)
Theorem validate_agent_response_exact (response : str) :
  validate_agent_response response = true <-> 10 <= length (strip response).
Proof.
  unfold validate_agent_response.
  assert (E : is_empty response || is_empty (strip response) = is_empty (strip response)).
  { destruct response; reflexivity. }
  rewrite E. unfold is_empty.
  destruct (Nat.eqb (length (strip response)) 0) eqn:Z.
  - apply Nat.eqb_eq in Z. split; [discriminate | lia].
  - destruct (Nat.ltb (length (strip response)) 10) eqn:L.
    + apply Nat.ltb_lt in L. split; [discriminate | lia].
    + apply Nat.ltb_ge in L. split; [intros _; exact L | reflexivity].
Qed.

(** X6. Reading back a printed number.  For every natural number n whose
    decimal text has at most 4300 digits, the score extracted from that
    text, alone or as the first line of a longer answer, is n clamped into
    1..10; for a longer number the extractor raises the ValueError of
    [int]. *)
Theorem extract_score_of_number (n : N) (rest : str) :
  let digits := str_of_N n in
  (length digits <= int_max_str_digits ->
   extract_score digits = Returned (str_of_N (N.min (N.max n 1) 10)) /\
   extract_score (digits ++ newline :: rest)
     = Returned (str_of_N (N.min (N.max n 1) 10))) /\
  (int_max_str_digits < length digits ->
   exists msg, extract_score digits = Raised msg /\
               extract_score (digits ++ newline :: rest) = Raised msg).
Proof.
  intros digits. subst digits.
  destruct (extract_score_digits (str_of_N n) rest (str_of_N_nonempty n)
              (str_of_N_digits n)) as [E1 E2].
  rewrite E1, E2. split.
  - intros H. rewrite int_of_digits_small by exact H. cbn [outcome_map].
    rewrite digits_value_str_of_N. split; reflexivity.
  - intros H. destruct (int_of_digits_large _ H) as [msg R]. rewrite R.
    exists msg. split; reflexivity.
Qed.

Lemma extract_score_of_number_witness :
  (extract_score (str_of_N 12) = Returned $"10" /\
   extract_score (str_of_N 12 ++ newline :: $"Lively, but a little long.")
     = Returned $"10") /\
  (exists msg,
     extract_score (str_of_N (repunit 4301)) = Raised msg /\
     extract_score (str_of_N (repunit 4301) ++ newline :: $"Lively, but a little long.")
       = Raised msg).
Proof.
  split.
  - apply (proj1 (extract_score_of_number 12 $"Lively, but a little long.")).
    apply Nat.leb_le. reflexivity.
  - apply (proj2 (extract_score_of_number (repunit 4301) $"Lively, but a little long.")).
    rewrite str_of_N_repunit. apply Nat.lt_succ_diag_r.
Defined.

(** ** The stages on their own *)

Lemma grows_stage_step (P : call -> bool) st st' :
  (forall p x, P (CallWrite p x) = false) ->
  grows P st st' -> stage_step P st st'.
Proof.
  intros HP [Hl (cs & Hc & Hcs & fs & Hf & Hin)]. split; [exact Hl|]. split.
  - exists cs. split; assumption.
  - destruct fs as [| [p x] fs]; [exact Hf|]. exfalso.
    rewrite forallb_forall in Hcs. specialize (Hcs _ (Hin p x (or_introl eq_refl))).
    rewrite HP in Hcs. discriminate.
Qed.

Lemma post_run {A} (m : M A) st (Q : outcome A -> state -> Prop) :
  post m st Q -> exists o st', m st = (o, st') /\ Q o st'.
Proof.
  unfold post. intros H. exists (fst (m st)), (snd (m st)). split; [| exact H].
  now destruct (m st).
Qed.

Lemma run_spam_filter_returns w st :
  exists st', run_spam_filter w st = (Returned (spam_verdict w), st') /\
              stage_step is_spam_call st st'.
Proof.
  destruct (post_run _ st _ (run_spam_filter_post w st
    (fun o st' => o = Returned (spam_verdict w) /\ stage_step is_spam_call st st')
    (fun st' G => conj eq_refl (grows_stage_step _ _ _ (fun _ _ => eq_refl) G))))
    as (o & st' & E & -> & S).
  now exists st'.
Qed.

Lemma run_dialogue_transformation_returns w st :
  exists st', run_dialogue_transformation w st = (Returned (transformation_value w), st') /\
              stage_step is_transformation_call st st'.
Proof.
  destruct (post_run _ st _ (run_dialogue_transformation_post w st
    (fun o st' => o = Returned (transformation_value w) /\
                  stage_step is_transformation_call st st')
    (fun st' G => conj eq_refl (grows_stage_step _ _ _ (fun _ _ => eq_refl) G))))
    as (o & st' & E & -> & S).
  now exists st'.
Qed.

Lemma score_dialogue_returns w d st :
  exists st', score_dialogue w d st = (Returned (score_value w d), st') /\
              stage_step is_scoring_call st st'.
Proof.
  destruct (post_run _ st _ (score_dialogue_post w d st
    (fun o st' => o = Returned (score_value w d) /\ stage_step is_scoring_call st st')
    (fun st' G => conj eq_refl (grows_stage_step _ _ _ (fun _ _ => eq_refl) G))))
    as (o & st' & E & -> & S).
  now exists st'.
Qed.

(** X7. No exception of an agent, a task or the crew leaves a stage, nor
    does the ValueError of [int] on a score of more than 4300 digits. For
    every world and state, [run_spam_filter] returns the verdict of the
    filter, [run_dialogue_transformation] the cleaned dialogue or None, and
    [score_dialogue] the score, which is the sentinel 0 when the extractor
    raises; each only appends to the log, makes only calls of its own stage
    and writes no file. *)
Theorem stages_never_raise w st :
  (exists st', run_spam_filter w st = (Returned (spam_verdict w), st') /\
               stage_step is_spam_call st st') /\
  (exists st', run_dialogue_transformation w st = (Returned (transformation_value w), st') /\
               stage_step is_transformation_call st st') /\
  (forall d, exists st', score_dialogue w d st = (Returned (score_value w d), st') /\
                         stage_step is_scoring_call st st').
Proof.
  split; [apply run_spam_filter_returns|].
  split; [apply run_dialogue_transformation_returns|].
  intros d. apply score_dialogue_returns.
Qed.

Lemma short_response_invalid (r : str) : length r < 10 -> validate_agent_response r = false.
Proof.
  intros H. unfold validate_agent_response.
  destruct (is_empty r || is_empty (strip r)); [reflexivity|].
  pose proof (strip_length r) as L.
  replace (Nat.ltb (length (strip r)) 10) with true
    by (symmetry; apply Nat.ltb_lt; lia).
  reflexivity.
Qed.

(** X8. An answer of fewer than 10 characters is never used. When the
    spam filter stage answers so, whatever the answer says,
    [run_spam_filter] returns False; when the scoring stage answers so, be
    it a proper score, [score_dialogue] returns the sentinel 0. *)
Theorem short_answers_are_dropped w (r : str) :
  length r < 10 ->
  (spam_result w = Returned r ->
   forall st, fst (run_spam_filter w st) = Returned false) /\
  (forall d, score_result w d = Returned r ->
   forall st, fst (score_dialogue w d st) = Returned $"0").
Proof.
  intros L. pose proof (short_response_invalid r L) as V. split.
  - intros Hr st. destruct (run_spam_filter_returns w st) as (st' & E & _).
    rewrite E. cbn [fst]. f_equal. unfold spam_verdict. rewrite Hr, V.
    destruct (answer w CallSpamfilterAgent); [| reflexivity].
    destruct (answer w CallSpamFilterTask); reflexivity.
  - intros d Hr st. destruct (score_dialogue_returns w d st) as (st' & E & _).
    rewrite E. cbn [fst]. f_equal. unfold score_value. rewrite Hr, V.
    destruct (is_empty d || is_empty (strip d)); [reflexivity|].
    destruct (answer w CallScorerAgent); [| reflexivity].
    destruct (answer w (CallScoringTask d)); reflexivity.
Qed.

(** ** Every run *)

Lemma process_discussion_run w content save_output save_logs st :
  exists st',
    process_discussion w content save_output save_logs st
      = (Returned (pipeline_result w content save_output), st') /\
    run_shape w content save_output save_logs st st'.
Proof.
  destruct (post_run _ st _ (process_discussion_post w content save_output save_logs st))
    as (o & st' & E & -> & S).
  now exists st'.
Qed.

Lemma score_value_range w d : In (score_value w d) scores.
Proof.
  unfold score_value.
  destruct (is_empty d || is_empty (strip d)); [now left|].
  destruct (answer w CallScorerAgent); [| now left].
  destruct (answer w (CallScoringTask d)); [| now left].
  destruct (score_result w d) as [r |]; [| now left].
  destruct (validate_agent_response r); [| now left].
  destruct (extract_score r) as [score | e] eqn:E; [| now left].
  rewrite extract_score_first_line in E. exact (score_of_line_range _ _ E).
Qed.

Lemma transformation_value_clean w d :
  transformation_value w = Some d -> is_clean d = true.
Proof.
  unfold transformation_value. cbv zeta. destruct (forallb _ _); [| discriminate].
  destruct (kickoff_result w) as [result |]; [| discriminate].
  destruct (validate_crew_result result); [| discriminate].
  set (cl := clean_dialogue _). destruct (is_empty (strip cl)); [discriminate|].
  intros H. assert (C : cl = d) by congruence. rewrite <- C. apply clean_dialogue_is_clean.
Qed.

(** X9. A run never raises, and its result is of one of three kinds: an
    error result; the filtered result; or a success result, whose dialogue
    is a clean text that is not empty and whose score is one of 0 to 10. *)
Theorem process_discussion_results w content save_output save_logs st :
  exists d st',
    process_discussion w content save_output save_logs st = (Returned d, st') /\
    ((exists error_msg, d = error_result error_msg) \/
     d = filtered_result \/
     (exists dialogue score,
        d = success_result content dialogue score save_output /\
        dialogue <> [] /\ is_clean dialogue = true /\ In score scores)).
Proof.
  destruct (process_discussion_run w content save_output save_logs st) as (st' & E & _).
  exists (pipeline_result w content save_output), st'. split; [exact E|].
  unfold pipeline_result.
  destruct (negb (validate_environment w)); [left; eauto|].
  destruct (negb (validate_discussion_content content)); [left; eauto|].
  destruct (negb (spam_verdict w)); [right; now left|].
  destruct (transformation_value w) as [[| c d] |] eqn:T; [left; eauto | | left; eauto].
  right. right. exists (c :: d), (score_value w (c :: d)).
  split; [reflexivity|]. split; [discriminate|].
  split; [exact (transformation_value_clean w _ T) | apply score_value_range].
Qed.

(** X10. A run that fails a check before the stages stops there: with
    no usable key, whatever the content, the result is the error of the
    environment check; with a key and a content that is not valid, the error
    of the content check; in both cases no call is made and no file is
    written. *)
Theorem preflight_failure w content save_output save_logs st :
  validate_environment w && validate_discussion_content content = false ->
  exists st',
    process_discussion w content save_output save_logs st
      = (Returned (error_result
           (if validate_environment w
            then $"Invalid or insufficient discussion content (minimum 100 characters, meaningful content required)"
            else $"Environment validation failed - check API keys")), st') /\
    calls st' = calls st /\ files st' = files st.
Proof.
  intros H. destruct (process_discussion_run w content save_output save_logs st)
    as (st' & E & S).
  exists st'. unfold pipeline_result in E. unfold run_shape in S.
  destruct (validate_environment w); cbn [negb orb andb] in *.
  - rewrite H in *. cbn [negb] in *. split; [exact E|]. exact (grows_no_call _ _ S).
  - split; [exact E|]. exact (grows_no_call _ _ S).
Qed.

Lemma preflight_failure_witness :
  exists st',
    process_discussion no_key_world $"too short" true true initial_state
      = (Returned (error_result
           (if validate_environment no_key_world
            then $"Invalid or insufficient discussion content (minimum 100 characters, meaningful content required)"
            else $"Environment validation failed - check API keys")), st') /\
    calls st' = calls initial_state /\ files st' = files initial_state.
Proof.
  apply (preflight_failure no_key_world $"too short" true true initial_state).
  reflexivity.
Defined.

Lemma grows_calls_all P st st' :
  grows P st st' -> exists cs, calls st' = calls st ++ cs /\ forallb P cs = true.
Proof. intros [_ (cs & Hc & HP & _)]. now exists cs. Qed.

Lemma flush_if_calls b w st st' :
  flush_if b w st st' ->
  exists cs, calls st' = calls st ++ cs /\ forallb (is_flush_call w) cs = true /\
             (b = false -> cs = [] /\ files st' = files st).
Proof.
  intros F. destruct b.
  - destruct (grows_calls_all _ _ _ (flush_if_grows _ _ _ _ F)) as (cs & Hc & HP).
    exists cs. repeat split; try assumption; discriminate.
  - cbn in F. subst st'. exists []. rewrite app_nil_r. repeat split.
Qed.

(** X11. The calls of a run come in the order of the stages: the calls
    of the spam filter, then those of the transformation, then those of the
    scoring, then those that save the output, then those of the log flush;
    each part may be empty.  Without [save_output] nothing is called to save
    output, without [save_logs] nothing to flush the log, and without both
    the files are left as they were. *)
Theorem calls_in_stage_order w content save_output save_logs st :
  let st' := snd (process_discussion w content save_output save_logs st) in
  exists c1 c2 c3 c4 c5,
    calls st' = calls st ++ c1 ++ c2 ++ c3 ++ c4 ++ c5 /\
    forallb is_spam_call c1 = true /\
    forallb is_transformation_call c2 = true /\
    forallb is_scoring_call c3 = true /\
    forallb (is_output_call w) c4 = true /\
    forallb (is_flush_call w) c5 = true /\
    (save_output = false -> c4 = []) /\
    (save_logs = false -> c5 = []) /\
    (save_output = false -> save_logs = false -> files st' = files st).
Proof.
  intros st'. subst st'.
  destruct (process_discussion_run w content save_output save_logs st) as (st' & E & S).
  rewrite E. cbn [snd]. clear E. unfold run_shape in S.
  destruct (negb (validate_environment w) || negb (validate_discussion_content content)).
  { destruct (grows_no_call _ _ S) as [Hc Hf]. exists [], [], [], [], [].
    cbn [app]. rewrite app_nil_r. repeat split; auto. }
  destruct S as (st1 & G1 & S). pose proof (grows_calls_all _ _ _ G1) as (c1 & C1 & P1).
  pose proof (grows_stage_step _ _ _ (fun _ _ => eq_refl) G1) as (_ & _ & F1).
  cbn [cleared calls files] in C1, F1.
  destruct (negb (spam_verdict w)).
  { destruct (flush_if_calls _ _ _ _ S) as (c5 & C5 & P5 & Z5).
    exists c1, [], [], [], c5. cbn [app]. rewrite C5, C1, <- app_assoc.
    repeat split; auto.
    - intros ->. now apply Z5.
    - intros _ ->. destruct (Z5 eq_refl) as [_ ->]. exact F1. }
  destruct S as (st2 & G2 & S). pose proof (grows_calls_all _ _ _ G2) as (c2 & C2 & P2).
  pose proof (grows_stage_step _ _ _ (fun _ _ => eq_refl) G2) as (_ & _ & F2).
  assert (T : forall st2', flush_if save_logs w st2 st2' ->
    exists c1 c2 c3 c4 c5,
      calls st2' = calls st ++ c1 ++ c2 ++ c3 ++ c4 ++ c5 /\
      forallb is_spam_call c1 = true /\ forallb is_transformation_call c2 = true /\
      forallb is_scoring_call c3 = true /\ forallb (is_output_call w) c4 = true /\
      forallb (is_flush_call w) c5 = true /\
      (save_output = false -> c4 = []) /\ (save_logs = false -> c5 = []) /\
      (save_output = false -> save_logs = false -> files st2' = files st)).
  { intros st2' F. destruct (flush_if_calls _ _ _ _ F) as (c5 & C5 & P5 & Z5).
    exists c1, c2, [], [], c5. cbn [app]. rewrite C5, C2, C1, <- !app_assoc.
    repeat split; auto.
    - intros ->. now apply Z5.
    - intros _ ->. destruct (Z5 eq_refl) as [_ ->]. now rewrite F2. }
  destruct (transformation_value w) as [[| x d] |]; [now apply T | | now apply T].
  destruct S as (st3 & st4 & st5 & G3 & G4 & F & G5).
  apply closed_by_grows in G5.
  pose proof (grows_calls_all _ _ _ G3) as (c3 & C3 & P3).
  pose proof (grows_stage_step _ _ _ (fun _ _ => eq_refl) G3) as (_ & _ & F3).
  pose proof (grows_calls_all _ _ _ G4) as (c4 & C4 & P4).
  destruct (flush_if_calls _ _ _ _ F) as (c5 & C5 & P5 & Z5).
  destruct (grows_no_call _ _ G5) as [C6 F6].
  exists c1, c2, c3, c4, c5. rewrite C6, C5, C4, C3, C2, C1, <- !app_assoc.
  split; [reflexivity|]. split; [exact P1|]. split; [exact P2|]. split; [exact P3|].
  split; [destruct save_output; [exact P4 | now rewrite (no_call_nil _ P4)]|].
  split; [exact P5|].
  split; [intros ->; now apply no_call_nil|].
  split; [intros ->; now apply Z5|].
  intros -> ->. destruct (Z5 eq_refl) as [_ F5].
  destruct (grows_no_call _ _ G4) as [_ F4]. now rewrite F6, F5, F4, F3, F2.
Qed.

(** ** A failed transformation *)

Lemma error_run_calls w c :
  is_spam_call c || is_transformation_call c || is_flush_call w c = true ->
  is_scoring_call c = false /\ is_write_in (output_dir w) c = false.
Proof.
  destruct c; simpl; try discriminate; auto.
  unfold is_flush_call. simpl. intros H. apply str_eqb_eq in H. subst path.
  split; [reflexivity|]. apply (log_path_not_in_output w content).
Qed.

(** X12. When the transformation yields no dialogue (a call of the stage
    raised, the crew returned nothing, or nothing is left after cleaning),
    the run ends with the error result of the transformation, no scoring
    call is made and no file is written in the output directory. *)
Theorem transformation_failure w content save_output save_logs st :
  validate_environment w = true ->
  validate_discussion_content content = true ->
  spam_verdict w = true ->
  transformation_value w = None ->
  exists st',
    process_discussion w content save_output save_logs st
      = (Returned (error_result $"Dialogue transformation failed - no output generated"),
         st') /\
    (exists cs, calls st' = calls st ++ cs /\
       forall c, In c cs ->
         is_scoring_call c = false /\ is_write_in (output_dir w) c = false) /\
    (forall p x, In (p, x) (files st') -> In (p, x) (files st) \/ p = log_path w).
Proof.
  intros He Hc Hv Ht.
  destruct (process_discussion_run w content save_output save_logs st) as (st' & E & S).
  unfold pipeline_result in E. unfold run_shape in S.
  rewrite He, Hc, Hv, Ht in *. cbn [negb orb] in *.
  exists st'. split; [exact E|]. destruct S as (st1 & G1 & st2 & G2 & F).
  set (P := fun c => is_spam_call c || is_transformation_call c || is_flush_call w c).
  assert (G : grows P (cleared st) st').
  { eapply grows_trans; [| eapply grows_trans].
    - eapply grows_weaken; [| exact G1]. intros c H. unfold P. now rewrite H.
    - eapply grows_weaken; [| exact G2]. intros c H. unfold P. now rewrite H, orb_true_r.
    - eapply grows_weaken; [| exact (flush_if_grows _ _ _ _ F)].
      intros c H. unfold P. now rewrite H, orb_true_r. }
  apply cleared_grows in G. destruct G as [(cs & Hcs & HP) Hf]. split.
  - exists cs. split; [exact Hcs|]. intros c Hin. apply error_run_calls. now apply HP.
  - intros p x Hin. destruct (Hf p x Hin) as [? | H]; [now left | right].
    unfold P, is_flush_call in H. simpl in H. now apply str_eqb_eq in H.
Qed.

Lemma transformation_failure_witness :
  let w := sample_world (Returned $"This content looks fine to me")
             (Returned (Some $"(all of it was a stage direction)"))
             (Returned $"8/10 a lively dialogue") in
  exists st',
    process_discussion w sample_content true true initial_state
      = (Returned (error_result $"Dialogue transformation failed - no output generated"),
         st') /\
    (exists cs, calls st' = calls initial_state ++ cs /\
       forall c, In c cs ->
         is_scoring_call c = false /\ is_write_in (output_dir w) c = false) /\
    (forall p x, In (p, x) (files st') ->
       In (p, x) (files initial_state) \/ p = log_path w).
Proof.
  intros w. apply (transformation_failure w sample_content true true initial_state);
    reflexivity.
Defined.

(** ** The file system and the result *)

Lemma same_stages_result w1 w2 content save_output :
  same_stages w1 w2 ->
  pipeline_result w1 content save_output = pipeline_result w2 content save_output.
Proof.
  intros (He & Ha & Hs & Hk & Hd).
  assert (V : spam_verdict w1 = spam_verdict w2).
  { unfold spam_verdict. now rewrite !Ha, Hs by reflexivity. }
  assert (T : transformation_value w1 = transformation_value w2).
  { unfold transformation_value. cbn [forallb]. now rewrite !Ha, Hk by reflexivity. }
  assert (S : forall d, score_value w1 d = score_value w2 d).
  { intros d. unfold score_value. now rewrite !Ha, Hd by reflexivity. }
  unfold pipeline_result, validate_environment. rewrite He, V, T.
  destruct (transformation_value w2) as [[| c d] |]; try reflexivity.
  now rewrite S.
Qed.

(** X13. What the file system answers does not change the result of a
    run: two worlds that differ at most in the answers to directory
    creations and file writes give the same result.  So a success result
    reports [files_saved] as [save_output] even when no file could be
    written. *)
Theorem result_ignores_file_system w1 w2 content save_output save_logs st1 st2 :
  same_stages w1 w2 ->
  fst (process_discussion w1 content save_output save_logs st1)
  = fst (process_discussion w2 content save_output save_logs st2).
Proof.
  intros H.
  destruct (process_discussion_run w1 content save_output save_logs st1) as (s1 & E1 & _).
  destruct (process_discussion_run w2 content save_output save_logs st2) as (s2 & E2 & _).
  rewrite E1, E2. cbn [fst]. f_equal. now apply same_stages_result.
Qed.

Lemma result_ignores_file_system_witness :
  fst (process_discussion
         (sample_world (Returned $"This content looks fine to me")
            (Returned sample_dialogue) (Returned $"8/10 a lively dialogue"))
         sample_content true true initial_state)
  = fst (process_discussion
           (read_only_world (Returned $"This content looks fine to me")
              (Returned sample_dialogue) (Returned $"8/10 a lively dialogue"))
           sample_content true true initial_state).
Proof.
  apply result_ignores_file_system.
  repeat split; try reflexivity. intros c H. cbn. now rewrite H.
Defined.

(** ** Saving, exactly *)

Lemma ensure_directories_exact w st :
  ensure_directories w st = (Returned tt, add_calls (mkdir_calls w) st).
Proof.
  unfold ensure_directories, mkdir_calls, perform, try_except, bind, record_call, lift, ret,
    add_calls.
  cbn [fst snd calls files log_buffer].
  destruct (answer w (CallMkdir (output_dir w))) as [[] | e1]; cbn [returns].
  - destruct (answer w (CallMkdir (logs_dir w))) as [[] | e2];
      cbn [calls files log_buffer]; now rewrite <- app_assoc.
  - reflexivity.
Qed.

(** [try: write the file; return True except: return False] *)
Lemma write_attempt_exact w (p x : str) st :
  try_except (write_file w p x ;;; ret true) (fun _ => ret false) st
  = (Returned (returns (answer w (CallWrite p x))),
     if returns (answer w (CallWrite p x))
     then add_file p x (add_call (CallWrite p x) st)
     else add_call (CallWrite p x) st).
Proof.
  unfold write_file, perform, try_except, bind, record_call, lift, ret, add_file, add_call.
  cbn [fst snd calls files log_buffer].
  destruct (answer w (CallWrite p x)) as [[] | e]; reflexivity.
Qed.

Lemma save_result_exact w (content filename : str) st :
  content <> [] ->
  save_result w content filename st
  = try_except
      (write_file w (path_join (output_dir w) (sanitize_filename filename)) content ;;;
       ret true)
      (fun _ => ret false) (add_calls (mkdir_calls w) st).
Proof.
  intros N. unfold save_result. destruct content as [| c0 s0]; [congruence|].
  cbn [is_empty length Nat.eqb]. unfold bind at 1. cbv beta.
  now rewrite ensure_directories_exact.
Qed.

(** X14. Saving a content that is not empty: the directories are tried
    first, the output one, then (if that worked) the logs one, and
    whether or not they could be made the file is written under its
    sanitized name in the output directory; the result is True exactly when
    that write returns, and then the file holds the content; nothing is
    raised and the log is not touched. *)
Theorem save_result_outcome w (content filename : str) st :
  content <> [] ->
  let path := output_dir w ++ $"/" ++ sanitize_filename filename in
  let written := returns (answer w (CallWrite path content)) in
  exists st',
    save_result w content filename st = (Returned written, st') /\
    calls st' = calls st ++ mkdir_calls w ++ [CallWrite path content] /\
    files st' = (if written then (path, content) :: files st else files st) /\
    log_buffer st' = log_buffer st.
Proof.
  intros N path written. rewrite (save_result_exact w content filename st N).
  fold (path_join (output_dir w) (sanitize_filename filename)) in path.
  fold path. rewrite write_attempt_exact. fold written.
  eexists. split; [reflexivity|].
  destruct written; cbn [calls files log_buffer add_file add_call add_calls];
    rewrite <- ?app_assoc; repeat split.
Qed.

Lemma save_result_outcome_witness :
  let w := read_only_world (Returned []) (Returned None) (Returned []) in
  let path := output_dir w ++ $"/" ++ sanitize_filename $"../notes?.txt" in
  let written := returns (answer w (CallWrite path $"some text")) in
  exists st',
    save_result w $"some text" $"../notes?.txt" initial_state = (Returned written, st') /\
    calls st' = calls initial_state ++ mkdir_calls w ++ [CallWrite path $"some text"] /\
    files st' = (if written then (path, $"some text") :: files initial_state
                 else files initial_state) /\
    log_buffer st' = log_buffer initial_state.
Proof.
  intros w. apply (save_result_outcome w $"some text" $"../notes?.txt" initial_state).
  discriminate.
Defined.

(** X15. Flushing the log: with an empty buffer nothing happens and the
    result is False; otherwise the directories are tried and the buffer,
    its entries joined by line feeds under a two-line header, is written to
    logs/newsgroup_processing_<timestamp>.txt; the result is True exactly
    when that write returns, and nothing is raised. *)
Theorem save_log_to_file_outcome w st :
  (log_buffer st = [] -> save_log_to_file w st = (Returned false, st)) /\
  (log_buffer st <> [] ->
   let content := log_file_content w (log_buffer st) in
   let written := returns (answer w (CallWrite (log_path w) content)) in
   exists st',
     save_log_to_file w st = (Returned written, st') /\
     calls st' = calls st ++ mkdir_calls w ++ [CallWrite (log_path w) content] /\
     files st' = (if written then (log_path w, content) :: files st else files st) /\
     log_buffer st' = log_buffer st).
Proof.
  split.
  - intros E. unfold save_log_to_file, get_log_buffer, bind. cbn [fst snd]. now rewrite E.
  - intros N content written.
    assert (E : save_log_to_file w st
                = try_except (write_file w (log_path w) content ;;; ret true)
                    (fun _ => ret false) (add_calls (mkdir_calls w) st)).
    { subst content. unfold save_log_to_file, get_full_log.
      unfold bind at 1. unfold get_log_buffer at 1. cbv beta iota.
      destruct (log_buffer st) as [| e0 buf] eqn:B; [congruence|].
      unfold bind at 1 2. unfold get_log_buffer at 1. unfold ret at 1. cbv beta iota.
      rewrite B. unfold save_log. unfold bind at 1. cbv beta.
      now rewrite ensure_directories_exact. }
    rewrite E, write_attempt_exact. fold written. eexists. split; [reflexivity|].
    destruct written; cbn [calls files log_buffer add_file add_call add_calls];
      rewrite <- ?app_assoc; repeat split.
Qed.

(** ** The files of a successful run *)

Lemma post_save_result_written w (content filename : str) st
    (Q : outcome bool -> state -> Prop) :
  content <> [] ->
  let path := path_join (output_dir w) (sanitize_filename filename) in
  answer w (CallWrite path content) = Returned tt ->
  Q (Returned true)
    (add_file path content (add_call (CallWrite path content)
       (add_calls (mkdir_calls w) st))) ->
  post (save_result w content filename) st Q.
Proof.
  intros N path A H. unfold post.
  rewrite (save_result_exact w content filename st N). fold path.
  rewrite write_attempt_exact, A. exact H.
Qed.

Lemma output_names_safe :
  sanitize_filename $"dialogue_output.txt" = $"dialogue_output.txt" /\
  sanitize_filename $"dialogue_score.txt" = $"dialogue_score.txt".
Proof. split; reflexivity. Qed.

Lemma grows_first_entry P st st' e rest :
  grows P st st' -> log_buffer st = e :: rest ->
  exists rest', log_buffer st' = e :: rest'.
Proof. intros [[es He] _] H. rewrite He, H. now exists (rest ++ es). Qed.

Lemma flush_if_files b w st st' x :
  flush_if b w st st' -> In x (files st) -> In x (files st').
Proof.
  destruct b; cbn; [| now intros ->].
  intros [_ [_ (mk & _ & _ & Hf)]] H.
  destruct (answer w (CallWrite (log_path w) _)); rewrite Hf; [now right | exact H].
Qed.

(** X16. The files of a successful run.  When a run with [save_output]
    gets a dialogue and the two writes in the output directory return, it
    leaves the dialogue, as it is in the result, in
    output/dialogue_output.txt, and in output/dialogue_score.txt the score
    report: the score, the first entry of the log of the run (the step
    PIPELINE START) after the words Generated on, and the dialogue. *)
Theorem success_run_files w content save_logs st (d : str) :
  validate_environment w = true ->
  validate_discussion_content content = true ->
  spam_verdict w = true ->
  transformation_value w = Some d ->
  answer w (CallWrite (output_dir w ++ $"/dialogue_output.txt") d) = Returned tt ->
  answer w (CallWrite (output_dir w ++ $"/dialogue_score.txt") (score_report w d))
    = Returned tt ->
  let run := process_discussion w content true save_logs st in
  fst run = Returned (success_result content d (score_value w d) true) /\
  In (output_dir w ++ $"/dialogue_output.txt", d) (files (snd run)) /\
  In (output_dir w ++ $"/dialogue_score.txt", score_report w d) (files (snd run)).
Proof.
  intros He Hc Hv Ht A1 A2 run. subst run.
  pose proof (transformation_value_nonempty w d Ht) as Nd.
  change (post (process_discussion w content true save_logs) st (fun o st' =>
    o = Returned (success_result content d (score_value w d) true) /\
    In (output_dir w ++ $"/dialogue_output.txt", d) (files st') /\
    In (output_dir w ++ $"/dialogue_score.txt", score_report w d) (files st'))).
  unfold process_discussion.
  apply post_bind, post_clear_log. cbv beta.
  apply post_bind, post_log_step_exact. cbv beta. wp.
  rewrite He. cbn [negb]. wp. rewrite Hc. cbn [negb]. wp.
  apply run_spam_filter_post. intros st1 G1. rewrite Hv. cbn [negb]. wp.
  apply run_dialogue_transformation_post. intros st2 G2. rewrite Ht.
  destruct d as [| c d']; [congruence|]. set (d := c :: d') in *. wp.
  apply score_dialogue_post. intros st3 G3.
  assert (L1 : exists r, log_buffer st1 = step_entry $"PIPELINE START"
                 $"Beginning complete discussion processing" :: r)
    by (eapply grows_first_entry; [exact G1 | reflexivity]).
  destruct L1 as [r1 L1].
  assert (L2 : exists r, log_buffer st2 = step_entry $"PIPELINE START"
                 $"Beginning complete discussion processing" :: r)
    by (eapply grows_first_entry;
        [exact G2 | cbn [log_buffer add_log]; rewrite L1; reflexivity]).
  destruct L2 as [r2 L2].
  assert (L : exists r, log_buffer st3 = step_entry $"PIPELINE START"
                $"Beginning complete discussion processing" :: r)
    by (eapply grows_first_entry;
        [exact G3 | cbn [log_buffer add_log]; rewrite L2; reflexivity]).
  destruct L as [rest L].
  unfold when at 1. wp.
  destruct output_names_safe as [S1 S2].
  apply post_save_result_written; [exact Nd | rewrite S1; exact A1 |]. rewrite S1. wp.
  cbn [log_buffer add_file add_call add_calls add_log]. rewrite L. cbn [app hd].
  change ($"Dialogue Quality Score: " ++ score_value w d ++ $"/10" ++ [newline; newline]
          ++ $"Generated on: "
          ++ step_entry $"PIPELINE START" $"Beginning complete discussion processing"
          ++ [newline; newline] ++ $"DIALOGUE CONTENT:" ++ [newline]
          ++ repeat "="%char 50 ++ [newline] ++ d) with (score_report w d).
  apply post_save_result_written; [discriminate | rewrite S2; exact A2 |]. rewrite S2.
  cbn [negb andb]. unfold when at 1. wp.
  apply when_flush_post.
  { cbn [log_buffer add_file add_call add_calls add_log]. rewrite L. discriminate. }
  intros st5 F. wp. split; [reflexivity|].
  cbn [files add_log]. split; apply (flush_if_files _ _ _ _ _ F);
    cbn [files add_file add_call add_calls add_log]; [right; now left | now left].
Qed.

(** ** Processing a file *)

(** X17. Processing a file.  When the file cannot be loaded (it is
    missing, cannot be read, or its UTF-8 text is blank),
    [process_from_file] returns the error result that names the file, makes
    no call, writes no file, and adds its two entries to the log without
    clearing it.  Otherwise its result is the result of a run on the text
    that was loaded. *)
Theorem process_from_file_result w fs filename save_output save_logs st :
  let loaded := load_discussion_from_file fs filename in
  (loaded = [] ->
   exists e1 e2,
     process_from_file w fs filename save_output save_logs st
       = (Returned (error_result ($"Could not load discussion from file: " ++ filename)),
          add_log e2 (add_log e1 st))) /\
  (loaded <> [] ->
   fst (process_from_file w fs filename save_output save_logs st)
     = Returned (pipeline_result w loaded save_output)) /\
  (forall content, read_utf8 fs filename = ReadText content ->
     is_blank content = true -> loaded = []).
Proof.
  intros loaded. split; [| split].
  - intros E. unfold process_from_file. fold loaded. rewrite E.
    do 2 eexists. reflexivity.
  - intros N. unfold process_from_file. fold loaded.
    destruct loaded as [| c s] eqn:L; [congruence|].
    cbn [is_empty length Nat.eqb]. unfold bind at 1, log_step at 1, append_log at 1.
    cbv beta iota.
    destruct (process_discussion_run w (c :: s) save_output save_logs
                (add_log (step_entry $"FILE PROCESSING"
                            ($"Loading discussion from file: " ++ filename)) st))
      as (st' & E & _).
    unfold add_log, step_entry in E. rewrite E. reflexivity.
  - intros content R B. subst loaded. unfold load_discussion_from_file.
    destruct (path_exists fs filename) as [[|] |]; try reflexivity.
    now rewrite R, strip_empty, B.
Qed.

(** ** The exit code *)

(** X18. [main] never has to handle an exception when it displays the
    result of a run, and its exit code is 1 for an error result and 0 for
    the filtered result and for a success.  In particular a run whose spam
    filter stage failed exits with 0. *)
Theorem main_exit_code_of_run w content save_output save_logs st :
  exists d st',
    process_discussion w content save_output save_logs st = (Returned d, st') /\
    main_exit_code d = (if dict_has $"error" d then 1 else 0) /\
    (main_exit_code d = 0 <->
     validate_environment w = true /\ validate_discussion_content content = true /\
     (spam_verdict w = false \/ exists dialogue, transformation_value w = Some dialogue)).
Proof.
  destruct (process_discussion_run w content save_output save_logs st) as (st' & E & _).
  exists (pipeline_result w content save_output), st'. split; [exact E|].
  unfold pipeline_result.
  destruct (validate_environment w); cbn [negb];
    [| split; [reflexivity | split; [discriminate | intros (H & _); discriminate]]].
  destruct (validate_discussion_content content); cbn [negb];
    [| split; [reflexivity | split; [discriminate | intros (_ & H & _); discriminate]]].
  destruct (spam_verdict w); cbn [negb];
    [| split; [reflexivity | split; [auto | reflexivity]]].
  destruct (transformation_value w) as [[| c d] |] eqn:T.
  - exfalso. now apply (transformation_value_nonempty w [] T).
  - split; [| split; [intros _; repeat split; right; now exists (c :: d) | intros _]].
    + unfold main_exit_code, success_result. cbn. reflexivity.
    + unfold main_exit_code, success_result. cbn. reflexivity.
  - split; [reflexivity|]. split; [discriminate|].
    intros (_ & _ & [H | [x H]]); discriminate.
Qed.


(** ** The log of a run *)

Lemma log_starts_add_log e st : log_starts st -> log_starts (add_log e st).
Proof. intros [r H]. exists (r ++ [e]). cbn [log_buffer add_log]. now rewrite H. Qed.

Lemma log_starts_grows P st st' : grows P st st' -> log_starts st -> log_starts st'.
Proof. intros G [r H]. exact (grows_first_entry _ _ _ _ _ G H). Qed.

Lemma log_starts_flush_if b w st st' : flush_if b w st st' -> log_starts st -> log_starts st'.
Proof. intros F. apply (log_starts_grows _ _ _ (flush_if_grows _ _ _ _ F)). Qed.

Lemma log_starts_nonempty st : log_starts st -> log_buffer st <> [].
Proof. intros [r H]. rewrite H. discriminate. Qed.

Create HintDb log_starts.
#[local] Hint Resolve log_starts_add_log log_starts_grows log_starts_flush_if : log_starts.

(** X20. Every run starts its log afresh: whatever the log held before
    and however the run ends, the log after the run begins with the step
    PIPELINE START of this run. *)
Theorem process_discussion_fresh_log w content save_output save_logs st :
  log_starts (snd (process_discussion w content save_output save_logs st)).
Proof.
  change (post (process_discussion w content save_output save_logs) st
            (fun _ st' => log_starts st')).
  unfold process_discussion.
  apply post_bind, post_clear_log. cbv beta.
  apply post_bind, post_log_step_exact. cbv beta.
  assert (L0 : log_starts (add_log (step_entry $"PIPELINE START"
                 $"Beginning complete discussion processing") (cleared st)))
    by (exists []; reflexivity).
  revert L0. generalize (add_log (step_entry $"PIPELINE START"
    $"Beginning complete discussion processing") (cleared st)). intros s0 L0. wp.
  destruct (negb (validate_environment w)); wp; [auto with log_starts|].
  destruct (negb (validate_discussion_content content)); wp; [auto 6 with log_starts|].
  apply run_spam_filter_post. intros st1 G1.
  assert (L1 : log_starts st1) by (eapply log_starts_grows; [exact G1 | auto 8 with log_starts]).
  clear G1. destruct (negb (spam_verdict w)); wp.
  { apply when_flush_post; [apply add_log_nonempty|]. intros st' F. wp.
    eapply log_starts_flush_if; [exact F | auto with log_starts]. }
  apply run_dialogue_transformation_post. intros st2 G2.
  assert (L2 : log_starts st2) by (eapply log_starts_grows; [exact G2 | auto with log_starts]).
  clear G2. destruct (transformation_value w) as [[| c d] |]; wp.
  - apply when_flush_post; [apply add_log_nonempty|]. intros st' F. wp.
    eapply log_starts_flush_if; [exact F | auto with log_starts].
  - apply score_dialogue_post. intros st3 G3.
    assert (L3 : log_starts st3)
      by (eapply log_starts_grows; [exact G3 | auto with log_starts]).
    clear G3. apply post_bind.
    assert (O : post
      (when save_output
         (log_step $"FILE OPERATIONS" $"Saving results to files" ;;;
          dialogue_saved <- save_result w (c :: d) $"dialogue_output.txt" ;;
          buf <- get_log_buffer ;;
          let score_content :=
            $"Dialogue Quality Score: " ++ score_value w (c :: d) ++ $"/10"
            ++ [newline; newline]
            ++ $"Generated on: " ++ hd $"Unknown" buf ++ [newline; newline]
            ++ $"DIALOGUE CONTENT:" ++ [newline]
            ++ repeat "="%char 50 ++ [newline] ++ c :: d in
          score_saved <- save_result w score_content $"dialogue_score.txt" ;;
          when (negb (dialogue_saved && score_saved))
            (log_error $"Some files failed to save" $"File Operations")))
      st3 (fun o st4 => o = Returned tt /\ log_starts st4)).
    { destruct save_output; unfold when at 1; wp; [| auto].
      apply save_result_post. intros b1 sa Ga. wp.
      apply save_result_post. intros b2 sb Gb.
      assert (Lb : log_starts sb).
      { eapply log_starts_grows; [exact Gb|].
        eapply log_starts_grows; [exact Ga | auto with log_starts]. }
      destruct (negb (b1 && b2)); unfold when; wp; auto with log_starts. }
    eapply post_weaken; [exact O|]. cbv beta. intros o st4 [-> L4]. cbv beta iota.
    apply post_bind, when_flush_post; [now apply log_starts_nonempty|].
    intros st5 F. wp. eauto 6 with log_starts.
  - apply when_flush_post; [apply add_log_nonempty|]. intros st' F. wp.
    eapply log_starts_flush_if; [exact F | auto with log_starts].
Qed.

(** ** A score written as a fraction *)

Lemma take_while_app_stop p (a b : str) :
  forallb p a = true -> (forall c r, b = c :: r -> p c = false) ->
  take_while p (a ++ b) = a /\ lstrip_by p (a ++ b) = b.
Proof.
  intros Ha Hb. induction a as [| x a IH].
  - destruct b as [| c r]; [split; reflexivity|]. cbn [app take_while lstrip_by].
    now rewrite (Hb c r eq_refl).
  - cbn [forallb] in Ha. apply andb_true_iff in Ha. destruct Ha as [Hx Ha].
    destruct (IH Ha) as [I1 I2]. cbn [app take_while lstrip_by]. rewrite Hx.
    now rewrite I1, I2.
Qed.

Lemma rstrip_keeps_prefix (a b : str) y r :
  rev a = y :: r -> is_space y = false ->
  exists b', rstrip_by is_space (a ++ b) = a ++ b' /\
             (forall c, In c b' -> In c b).
Proof.
  intros E Hy. rewrite rstrip_by_app. destruct (rstrip_by is_space b) as [| z u] eqn:R.
  - exists []. rewrite app_nil_r. split; [apply (rstrip_by_fix _ _ y r E Hy) | intros ? []].
  - exists (z :: u). split; [reflexivity|]. intros c Hc. rewrite <- R in Hc.
    now apply rstrip_by_incl in Hc.
Qed.

Lemma first_numerator_prefix (a b : str) :
  a <> [] -> forallb is_digit a = true -> slash_digit b = true ->
  first_numerator (a ++ b) = Some a.
Proof.
  intros Na Da Sb.
  destruct (take_while_app_stop is_digit a b Da) as [T L].
  { intros c r E. subst b. destruct r as [| d r]; [discriminate|]. cbn [slash_digit] in Sb.
    apply andb_true_iff in Sb. destruct Sb as [Sb _]. apply Ascii.eqb_eq in Sb.
    now subst c. }
  destruct a as [| c s]; [congruence|]. cbn [forallb] in Da.
  apply andb_true_iff in Da. destruct Da as [Dc _].
  cbn [app] in *. cbn [first_numerator]. now rewrite Dc, L, Sb, T.
Qed.

(** The score of a line that starts with digits, a slash and digits. *)
Lemma score_of_fraction_line (n m : N) (tail : str) :
  score_of_line (str_of_N n ++ "/" :: str_of_N m ++ tail)
  = outcome_map clamp_str (int_of_digits (str_of_N n)).
Proof.
  unfold score_of_line.
  assert (W : whole_number (str_of_N n ++ "/" :: str_of_N m ++ tail) = false).
  { unfold whole_number. rewrite forallb_app. cbn [forallb].
    change (is_digit "/") with false. now rewrite !andb_false_r. }
  rewrite W, first_numerator_prefix.
  - reflexivity.
  - apply str_of_N_nonempty.
  - apply str_of_N_digits.
  - pose proof (str_of_N_nonempty m) as Nm. pose proof (str_of_N_digits m) as Dm.
    destruct (str_of_N m) as [| c' s']; [congruence|]. cbn [forallb] in Dm.
    apply andb_true_iff in Dm. destruct Dm as [Dc' _].
    cbn [app slash_digit]. now rewrite Ascii.eqb_refl, Dc'.
Qed.

(** X21. A score written as a fraction: for all natural numbers n and m,
    n of at most 4300 digits, the score extracted from a text whose first
    line starts with the decimal text of n, a slash and the decimal text of
    m (8/10, say, and whatever follows on that line and on the next ones)
    is n clamped into 1..10; for a longer n the extractor raises the
    ValueError of [int]. *)
Theorem extract_score_of_fraction (n m : N) (line_rest tail : str) :
  no_newline line_rest = true ->
  let text := str_of_N n ++ "/" :: str_of_N m ++ line_rest in
  (length (str_of_N n) <= int_max_str_digits ->
   extract_score text = Returned (str_of_N (N.min (N.max n 1) 10)) /\
   extract_score (text ++ newline :: tail)
     = Returned (str_of_N (N.min (N.max n 1) 10))) /\
  (int_max_str_digits < length (str_of_N n) ->
   exists msg, extract_score text = Raised msg /\
               extract_score (text ++ newline :: tail) = Raised msg).
Proof.
  intros Hl text. subst text.
  remember (str_of_N n ++ "/" :: str_of_N m) as a eqn:Da.
  assert (Ea : str_of_N n ++ "/" :: str_of_N m ++ line_rest = a ++ line_rest).
  { subst a. rewrite <- app_assoc. reflexivity. }
  rewrite Ea.
  destruct (digits_line (str_of_N n) (str_of_N_nonempty n) (str_of_N_digits n))
    as (_ & Ln & _ & _).
  destruct (digits_line (str_of_N m) (str_of_N_nonempty m) (str_of_N_digits m))
    as (_ & Lm & _ & _).
  assert (La : no_newline (a ++ line_rest) = true).
  { subst a. unfold no_newline in *. rewrite !forallb_app. cbn [forallb].
    now rewrite Ln, Lm, Hl. }
  (* the line starts with a digit and [a] ends with one *)
  pose proof (str_of_N_nonempty n) as Nn. pose proof (str_of_N_digits n) as Dn.
  pose proof (str_of_N_nonempty m) as Nm. pose proof (str_of_N_digits m) as Dm.
  assert (Hh : exists c s, a = c :: s /\ is_space c = false).
  { subst a. destruct (str_of_N n) as [| c s]; [congruence|]. exists c, (s ++ "/" :: str_of_N m).
    split; [reflexivity|]. apply digit_not_space.
    cbn [forallb] in Dn. now apply andb_true_iff in Dn. }
  assert (Ht : exists y r, rev a = y :: r /\ is_space y = false).
  { subst a. change (str_of_N n ++ "/" :: str_of_N m)
      with (str_of_N n ++ ["/"%char] ++ str_of_N m).
    rewrite !rev_app_distr. destruct (rev (str_of_N m)) as [| y r] eqn:R.
    - apply (f_equal (@length ascii)) in R. rewrite length_rev in R.
      destruct (str_of_N m); [congruence | discriminate].
    - exists y, ((r ++ rev ["/"%char]) ++ rev (str_of_N n)). split; [reflexivity|].
      apply digit_not_space. rewrite forallb_forall in Dm. apply Dm, in_rev.
      rewrite R. now left. }
  destruct Hh as (c & s & Hc & Sc). destruct Ht as (y & r & Hr & Sy).
  assert (S : exists b', strip (a ++ line_rest) = a ++ b').
  { destruct (rstrip_keeps_prefix a line_rest y r Hr Sy) as (b' & E & _).
    exists b'. unfold strip, strip_by. rewrite <- E. f_equal.
    rewrite Hc. cbn [app lstrip_by]. now rewrite Sc. }
  destruct S as [b' S].
  assert (B : is_blank (a ++ line_rest) = false).
  { rewrite Hc. unfold is_blank. cbn [app forallb]. now rewrite Sc. }
  assert (E : score_of_line (strip (a ++ line_rest))
              = outcome_map clamp_str (int_of_digits (str_of_N n))).
  { rewrite S. subst a. rewrite <- app_assoc. cbn [app].
    apply score_of_fraction_line. }
  rewrite !extract_score_first_line.
  rewrite (strip_line _ La), (first_line_app _ tail La B), E. split.
  - intros H. rewrite int_of_digits_small by exact H. cbn [outcome_map].
    rewrite digits_value_str_of_N. split; reflexivity.
  - intros H. destruct (int_of_digits_large _ H) as [msg R]. rewrite R.
    exists msg. split; reflexivity.
Qed.

Lemma extract_score_of_fraction_witness :
  no_newline $" - lively and clear" = true /\
  (extract_score (str_of_N 8 ++ "/" :: str_of_N 10 ++ $" - lively and clear")
     = Returned $"8" /\
   extract_score ((str_of_N 8 ++ "/" :: str_of_N 10 ++ $" - lively and clear")
                  ++ newline :: $"Details follow.")
     = Returned $"8") /\
  (exists msg,
     extract_score (str_of_N (repunit 4301) ++ "/" :: str_of_N 10 ++ $" - lively and clear")
       = Raised msg /\
     extract_score ((str_of_N (repunit 4301) ++ "/" :: str_of_N 10
                     ++ $" - lively and clear")
                    ++ newline :: $"Details follow.")
       = Raised msg).
Proof.
  split; [reflexivity|]. split.
  - apply (proj1 (extract_score_of_fraction 8 10 $" - lively and clear" $"Details follow."
                    eq_refl)).
    apply Nat.leb_le. reflexivity.
  - apply (proj2 (extract_score_of_fraction (repunit 4301) 10 $" - lively and clear"
                    $"Details follow." eq_refl)).
    rewrite str_of_N_repunit. apply Nat.lt_succ_diag_r.
Defined.

(** ** More sample runs *)

Lemma short_answers_are_dropped_witness :
  let w := sample_world (Returned $"PASS") (Returned None) (Returned $"8") in
  length $"PASS" < 10 /\ length $"8" < 10 /\
  spam_result w = Returned $"PASS" /\
  score_result w $"Alice: Hello. Bob: Hello." = Returned $"8" /\
  fst (run_spam_filter w initial_state) = Returned false /\
  fst (score_dialogue w $"Alice: Hello. Bob: Hello." initial_state) = Returned $"0".
Proof.
  intros w.
  assert (L1 : length $"PASS" < 10) by (cbn; lia).
  assert (L2 : length $"8" < 10) by (cbn; lia).
  split; [exact L1|]. split; [exact L2|].
  split; [reflexivity|]. split; [reflexivity|]. split.
  - exact (proj1 (short_answers_are_dropped w $"PASS" L1) eq_refl initial_state).
  - exact (proj2 (short_answers_are_dropped w $"8" L2)
             $"Alice: Hello. Bob: Hello." eq_refl initial_state).
Defined.

Lemma success_run_files_witness :
  let w := sample_world (Returned $"This content looks fine to me")
             (Returned sample_dialogue) (Returned $"8/10 a lively dialogue") in
  let d := $"Alice: The release is slower. Bob: Please post the numbers." in
  let run := process_discussion w sample_content true true initial_state in
  fst run = Returned (success_result sample_content d (score_value w d) true) /\
  In (output_dir w ++ $"/dialogue_output.txt", d) (files (snd run)) /\
  In (output_dir w ++ $"/dialogue_score.txt", score_report w d) (files (snd run)).
Proof.
  intros w d.
  apply (success_run_files w sample_content true initial_state d); reflexivity.
Defined.
